(** * The colony manager of the blob simulation

    A shallow embedding of [simulation/logic/blob_manager.py] (class
    [BlobManager]) and the properties of its methods.

    Conventions of the embedding.
    - A Python [int] is a [Z] and a Python [float] is a binary64
      floating-point number ([float]); arithmetic on them is Python's
      ([mul], [add], [true_div]), and [int(x)] truncates toward zero and
      raises on an infinity and on a NaN ([int_of]).  The values of the
      Board's squares are exact rationals ([Q]).
    - An exception is a value of [exn]; a method is a function from the
      state before the call to either the exception it raises or its
      result and the state after the call (the monad [M]).
    - The knowledge dictionary is an association list in insertion
      order, as a Python [dict] is.
    - [random.randrange] reads the next raw value of the random source
      and reduces it to the requested range.
    - [print] calls have no effect on the state and are left out. *)

From Stdlib Require Import ZArith QArith Qround List String Ascii Bool Lia Lqa.
From Stdlib Require Import Floats.
From Stdlib Require DecimalFacts DecimalPos DecimalZ.
From Stdlib Require Import Permutation OrderedTypeEx DecimalString.
Import ListNotations.

#[local] Set Warnings "-register-all".
#[local] Set Warnings "-inexact-float".

Local Open Scope string_scope.
Local Open Scope list_scope.
Local Open Scope Z_scope.

(** ** Exceptions and results *)

Inductive exn : Type :=
| OSError            (* the file cannot be opened or read *)
| JSONDecodeError    (* the file is not a JSON document *)
| KeyError (k : string)
| TypeError
| ValueError
| IndexError
| OverflowError
| ZeroDivisionError.

Inductive result (A : Type) : Type :=
| Ok (a : A)
| Raise (e : exn).

Arguments Ok {A} a.
Arguments Raise {A} e.

Definition fails {A : Type} (r : result A) : Prop :=
  match r with Ok _ => False | Raise _ => True end.

Definition result_bind {A B : Type} (r : result A) (f : A -> result B) : result B :=
  match r with Ok a => f a | Raise e => Raise e end.

(** ** Python numbers *)

(** Truncation toward zero of an exact value. *)
Definition py_int (q : Q) : Z := Z.quot (Qnum q) (Zpos (Qden q)).

(** A number is an [int] or a [float]. *)
Inductive number : Type :=
| Int (z : Z)
| Float (f : float).

(** An integer as a mantissa with exponent zero. *)
Definition SF_of_Z (z : Z) : spec_float :=
  match z with
  | Z0 => S754_zero false
  | Zpos p => S754_finite false p 0
  | Zneg p => S754_finite true p 0
  end.

(** The exact value of a float that is neither an infinity nor a NaN. *)
Definition SF_value (x : spec_float) : option Q :=
  match x with
  | S754_zero _ => Some 0%Q
  | S754_finite s m (Zneg p) => Some (Qmake (if s then Zneg m else Zpos m) (Pos.pow 2 p))
  | S754_finite s m e => Some (inject_Z ((if s then Zneg m else Zpos m) * 2 ^ e))
  | S754_infinity _ | S754_nan => None
  end.

Definition float_value (f : float) : option Q := SF_value (Prim2SF f).

(** [float(z)]: the nearest float, ties to even. *)
Definition float_of_int (z : Z) : result float :=
  let f := SF2Prim (binary_normalize prec emax z 0 false) in
  if is_infinity f then Raise OverflowError else Ok f.

(** The operand of a float operation. *)
Definition to_float (a : number) : result float :=
  match a with
  | Int z => float_of_int z
  | Float f => Ok f
  end.

(** [a * b] *)
Definition mul (a b : number) : result number :=
  match a, b with
  | Int x, Int y => Ok (Int (x * y))
  | _, _ =>
      result_bind (to_float a) (fun x =>
      result_bind (to_float b) (fun y => Ok (Float (x * y)%float)))
  end.

(** [a + b] *)
Definition add (a b : number) : result number :=
  match a, b with
  | Int x, Int y => Ok (Int (x + y))
  | _, _ =>
      result_bind (to_float a) (fun x =>
      result_bind (to_float b) (fun y => Ok (Float (x + y)%float)))
  end.

(** [a / b] on two [int]s: the nearest float to the quotient. *)
Definition true_div (a b : Z) : result float :=
  if b =? 0 then Raise ZeroDivisionError
  else
    let f := SF2Prim (SFdiv prec emax (SF_of_Z a) (SF_of_Z b)) in
    if is_infinity f then Raise OverflowError else Ok f.

(** [int(a)] *)
Definition int_of (a : number) : result Z :=
  match a with
  | Int z => Ok z
  | Float f =>
      match float_value f with
      | Some q => Ok (py_int q)
      | None => Raise (if is_nan f then ValueError else OverflowError)
      end
  end.

(** [range(n)] *)
Definition range (n : Z) : list Z := map Z.of_nat (seq 0 (Z.to_nat n)).

(** ** JSON values, as [json.load] returns them *)

Inductive json : Type :=
| JNull
| JBool (b : bool)
| JInt (z : Z)
| JFloat (f : float)
| JStr (s : string)
| JArr (l : list json)
| JObj (l : list (string * json)).

(** ** Dictionaries in insertion order *)

Section Dict.
Context {V : Type}.

Fixpoint dict_get (k : string) (d : list (string * V)) : option V :=
  match d with
  | [] => None
  | (k', v) :: d' => if String.eqb k k' then Some v else dict_get k d'
  end.

(** [d[k] = v]: an existing key keeps its place, a new key goes last. *)
Fixpoint dict_set (k : string) (v : V) (d : list (string * V)) : list (string * V) :=
  match d with
  | [] => [(k, v)]
  | (k', v') :: d' =>
      if String.eqb k k' then (k', v) :: d' else (k', v') :: dict_set k v d'
  end.

(** [del d[k]] *)
Fixpoint dict_del (k : string) (d : list (string * V)) : result (list (string * V)) :=
  match d with
  | [] => Raise (KeyError k)
  | (k', v') :: d' =>
      if String.eqb k k' then Ok d'
      else result_bind (dict_del k d') (fun r => Ok ((k', v') :: r))
  end.

(** [d.update(new)] *)
Definition dict_update (d new : list (string * V)) : list (string * V) :=
  fold_left (fun acc kv => dict_set (fst kv) (snd kv) acc) new d.

Definition keys (d : list (string * V)) : list string := map fst d.
End Dict.

(** A function applied to the value of an item. *)
Definition on_values {V W : Type} (f : V -> W) (kv : string * V) : string * W :=
  (fst kv, f (snd kv)).

(** [j[k]] on a loaded JSON value. *)
Definition subscript (j : json) (k : string) : result json :=
  match j with
  | JObj d => match dict_get k d with Some v => Ok v | None => Raise (KeyError k) end
  | _ => Raise TypeError
  end.

(** A JSON value used as a number in arithmetic ([bool] is a subtype of
    [int] in Python). *)
Definition as_number (j : json) : result number :=
  match j with
  | JInt z => Ok (Int z)
  | JFloat f => Ok (Float f)
  | JBool b => Ok (Int (if b then 1 else 0))
  | _ => Raise TypeError
  end.

(** A JSON value used as an integer count.  The knowledge format types
    [Scouters.Min] as an integer, and the quota of the manager is an
    integer here; a float minimum, which would make the quota a float, is
    outside the model and reported as a [TypeError]. *)
Definition as_int (j : json) : result Z :=
  match j with
  | JInt z => Ok z
  | JBool b => Ok (if b then 1 else 0)
  | _ => Raise TypeError
  end.

(** ** [json.dumps(d, indent=4, sort_keys=True)] *)

Section Dumps.
(** [float.__repr__] is the interpreter's; it is kept abstract. *)
Variable float_repr : float -> string.

(** [floatstr] of the encoder. *)
Definition encode_float (f : float) : string :=
  if is_nan f then "NaN"
  else if PrimFloat.eqb f infinity then "Infinity"
  else if PrimFloat.eqb f neg_infinity then "-Infinity"
  else float_repr f.

Definition hex_digit (n : nat) : ascii :=
  nth n (list_ascii_of_string "0123456789abcdef") "0"%char.

(** One character of [py_encode_basestring_ascii]; characters are
    code points below 256. *)
Definition escape_char (c : ascii) : string :=
  let n := nat_of_ascii c in
  if Nat.eqb n 34 then String "\" (String c "")
  else if Nat.eqb n 92 then "\\"
  else if Nat.eqb n 10 then "\n"
  else if Nat.eqb n 13 then "\r"
  else if Nat.eqb n 9 then "\t"
  else if Nat.eqb n 8 then "\b"
  else if Nat.eqb n 12 then "\f"
  else if (Nat.ltb n 32 || Nat.ltb 126 n)%bool then
    ("\u00" ++ String (hex_digit (n / 16)) (String (hex_digit (n mod 16)) ""))%string
  else String c "".

Fixpoint escape (s : string) : string :=
  match s with
  | EmptyString => ""
  | String c s' => (escape_char c ++ escape s')%string
  end.

Definition quote : string := String (ascii_of_nat 34) "".
Definition newline : string := String (ascii_of_nat 10) "".

Definition encode_str (s : string) : string := (quote ++ escape s ++ quote)%string.

Definition encode_int (z : Z) : string := NilZero.string_of_int (Z.to_int z).

Fixpoint spaces (n : nat) : string :=
  match n with O => "" | S n' => String " " (spaces n') end.

(** [newline_indent] at a nesting level, for [indent=4]. *)
Definition newline_indent (level : nat) : string :=
  (newline ++ spaces (4 * level))%string.

(** [sorted(dct.items())]: insertion by key; the keys of a dict are
    distinct, so only keys are ever compared.  [encode] sorts the
    items after encoding their values, which gives the same text as
    encoding them after sorting. *)
Fixpoint insert_item {V : Type} (kv : string * V) (l : list (string * V)) : list (string * V) :=
  match l with
  | [] => [kv]
  | kv' :: l' =>
      if String.leb (fst kv) (fst kv') then kv :: kv' :: l'
      else kv' :: insert_item kv l'
  end.

Definition sorted_items {V : Type} (l : list (string * V)) : list (string * V) :=
  fold_right insert_item [] l.

Fixpoint encode (level : nat) (j : json) {struct j} : string :=
  match j with
  | JNull => "null"
  | JBool true => "true"
  | JBool false => "false"
  | JInt z => encode_int z
  | JFloat f => encode_float f
  | JStr s => encode_str s
  | JArr [] => "[]"
  | JArr l =>
      ("[" ++ newline_indent (S level)
           ++ String.concat ("," ++ newline_indent (S level)) (map (encode (S level)) l)
           ++ newline_indent level ++ "]")%string
  | JObj [] => "{}"
  | JObj l =>
      ("{" ++ newline_indent (S level)
           ++ String.concat ("," ++ newline_indent (S level))
                (map (fun kv => encode_str (fst kv) ++ ": " ++ snd kv)
                     (sorted_items (map (on_values (encode (S level))) l)))
           ++ newline_indent level ++ "}")%string
  end.

Definition json_dumps (j : json) : string := encode 0 j.
End Dumps.

(** ** [json.loads] *)

(** The decoder on a text: the scanner of the C implementation, which
    takes the four digits of a [\u] escape strictly.  Characters are code
    points below 256, so an escape of a higher code point is outside the
    model and taken as an error. *)
Section Loads.
(** [float(s)] on the text of a number is the interpreter's; it is kept
    abstract. *)
Variable float_of_string : string -> float.

Definition is_whitespace (c : ascii) : bool :=
  let n := nat_of_ascii c in
  Nat.eqb n 32 || Nat.eqb n 9 || Nat.eqb n 10 || Nat.eqb n 13.

Fixpoint skip_whitespace (s : string) : string :=
  match s with
  | String c s' => if is_whitespace c then skip_whitespace s' else s
  | EmptyString => s
  end.

Definition is_digit (c : ascii) : bool :=
  let n := nat_of_ascii c in Nat.leb 48 n && Nat.leb n 57.

(** The longest run of digits at the head of a text, and what follows. *)
Fixpoint scan_digits (s : string) : string * string :=
  match s with
  | String c s' =>
      if is_digit c then let (digits, rest) := scan_digits s' in (String c digits, rest)
      else ("", s)
  | EmptyString => ("", s)
  end.

(** The three groups of [NUMBER_RE]: an optional minus sign and either
    a zero or digits that start with another digit; optionally, a point
    and digits; optionally, [e] or [E], an optional sign and digits. *)
Definition scan_unsigned (s : string) : option (string * string) :=
  match s with
  | String c s' =>
      if Ascii.eqb c "0" then Some ("0", s')
      else if is_digit c then Some (scan_digits s)
      else None
  | EmptyString => None
  end.

Definition scan_integer (s : string) : option (string * string) :=
  match s with
  | String c s' =>
      if Ascii.eqb c "-" then
        match scan_unsigned s' with
        | Some (digits, rest) => Some (String c digits, rest)
        | None => None
        end
      else scan_unsigned s
  | EmptyString => None
  end.

Definition scan_frac (s : string) : string * string :=
  match s with
  | String c s1 =>
      if Ascii.eqb c "." then
        let (digits, rest) := scan_digits s1 in
        match digits with
        | EmptyString => ("", s)
        | _ => (String c digits, rest)
        end
      else ("", s)
  | EmptyString => ("", s)
  end.

Definition scan_sign (s : string) : string * string :=
  match s with
  | String c s' =>
      if Ascii.eqb c "+" || Ascii.eqb c "-" then (String c "", s') else ("", s)
  | EmptyString => ("", s)
  end.

Definition scan_exp (s : string) : string * string :=
  match s with
  | String c s1 =>
      if Ascii.eqb c "e" || Ascii.eqb c "E" then
        let (sign, s2) := scan_sign s1 in
        let (digits, rest) := scan_digits s2 in
        match digits with
        | EmptyString => ("", s)
        | _ => (String c (sign ++ digits)%string, rest)
        end
      else ("", s)
  | EmptyString => ("", s)
  end.

(** The match of [NUMBER_RE] at the head of a text: the three groups and
    what follows. *)
Definition match_number (s : string) : option (string * string * string * string) :=
  match scan_integer s with
  | Some (integer, s1) =>
      let (frac, s2) := scan_frac s1 in
      let (exp, s3) := scan_exp s2 in
      Some (integer, frac, exp, s3)
  | None => None
  end.

(** A number: an [int] when the text has neither fraction nor exponent,
    a [float] otherwise. *)
Definition scan_number (s : string) : option (json * string) :=
  match match_number s with
  | Some (integer, "", "", rest) =>
      match NilZero.int_of_string integer with
      | Some i => Some (JInt (Z.of_int i), rest)
      | None => None
      end
  | Some (integer, frac, exp, rest) =>
      Some (JFloat (float_of_string (integer ++ frac ++ exp)%string), rest)
  | None => None
  end.

Definition hex_value (c : ascii) : option nat :=
  let n := nat_of_ascii c in
  if Nat.leb 48 n && Nat.leb n 57 then Some (n - 48)%nat
  else if Nat.leb 97 n && Nat.leb n 102 then Some (n - 87)%nat
  else if Nat.leb 65 n && Nat.leb n 70 then Some (n - 55)%nat
  else None.

(** The table [BACKSLASH] of the decoder. *)
Definition unescape (c : ascii) : option ascii :=
  let n := nat_of_ascii c in
  if Nat.eqb n 34 then Some c
  else if Nat.eqb n 92 then Some c
  else if Nat.eqb n 47 then Some c
  else if Nat.eqb n 98 then Some (ascii_of_nat 8)
  else if Nat.eqb n 102 then Some (ascii_of_nat 12)
  else if Nat.eqb n 110 then Some (ascii_of_nat 10)
  else if Nat.eqb n 114 then Some (ascii_of_nat 13)
  else if Nat.eqb n 116 then Some (ascii_of_nat 9)
  else None.

Definition prepend (c : ascii) (r : option (string * string)) : option (string * string) :=
  match r with
  | Some (s, rest) => Some (String c s, rest)
  | None => None
  end.

(** [scanstring] in strict mode, after the opening quote: the string
    and what follows its closing quote. *)
Fixpoint scan_string (s : string) : option (string * string) :=
  match s with
  | EmptyString => None
  | String c s1 =>
      let n := nat_of_ascii c in
      if Nat.eqb n 34 then Some ("", s1)
      else if Nat.eqb n 92 then
        match s1 with
        | EmptyString => None
        | String e s2 =>
            if Nat.eqb (nat_of_ascii e) 117 then
              match s2 with
              | String h1 (String h2 (String h3 (String h4 s3))) =>
                  match hex_value h1, hex_value h2, hex_value h3, hex_value h4 with
                  | Some a, Some b, Some c, Some d =>
                      let code := (((a * 16 + b) * 16 + c) * 16 + d)%nat in
                      if Nat.ltb code 256 then prepend (ascii_of_nat code) (scan_string s3)
                      else None
                  | _, _, _, _ => None
                  end
              | _ => None
              end
            else
              match unescape e with
              | Some c' => prepend c' (scan_string s2)
              | None => None
              end
        end
      else if Nat.ltb n 32 then None
      else prepend c (scan_string s1)
  end.

(** The text without a given head. *)
Fixpoint strip (head s : string) : option string :=
  match head, s with
  | EmptyString, _ => Some s
  | String a head', String b s' => if Ascii.eqb a b then strip head' s' else None
  | String _ _, EmptyString => None
  end.

(** A constant at the head of a text. *)
Definition scan_constant (s : string) : option (json * string) :=
  match strip "null" s with
  | Some rest => Some (JNull, rest)
  | None =>
  match strip "true" s with
  | Some rest => Some (JBool true, rest)
  | None =>
  match strip "false" s with
  | Some rest => Some (JBool false, rest)
  | None => None
  end end end.

(** The constants the decoder takes when no number matches. *)
Definition scan_float_constant (s : string) : option (json * string) :=
  match strip "NaN" s with
  | Some rest => Some (JFloat nan, rest)
  | None =>
  match strip "Infinity" s with
  | Some rest => Some (JFloat infinity, rest)
  | None =>
  match strip "-Infinity" s with
  | Some rest => Some (JFloat neg_infinity, rest)
  | None => None
  end end end.

(** [scan_once], [JSONArray] after its first value is due and
    [JSONObject] after the opening quote of a key.  The recursion is
    bounded by [fuel], which the length of the text exceeds. *)
Fixpoint parse_value (fuel : nat) (s : string) {struct fuel} : option (json * string) :=
  match fuel with
  | O => None
  | S fuel' =>
      match s with
      | EmptyString => None
      | String c s1 =>
          let n := nat_of_ascii c in
          if Nat.eqb n 34 then
            match scan_string s1 with
            | Some (str, rest) => Some (JStr str, rest)
            | None => None
            end
          else if Nat.eqb n 123 then
            match skip_whitespace s1 with
            | String c2 s3 =>
                if Nat.eqb (nat_of_ascii c2) 125 then Some (JObj [], s3)
                else if Nat.eqb (nat_of_ascii c2) 34 then
                  match parse_members fuel' s3 with
                  | Some (pairs, rest) => Some (JObj (dict_update [] pairs), rest)
                  | None => None
                  end
                else None
            | EmptyString => None
            end
          else if Nat.eqb n 91 then
            match skip_whitespace s1 with
            | String c2 s3 =>
                if Nat.eqb (nat_of_ascii c2) 93 then Some (JArr [], s3)
                else
                  match parse_elements fuel' (String c2 s3) with
                  | Some (values, rest) => Some (JArr values, rest)
                  | None => None
                  end
            | EmptyString => None
            end
          else
            match scan_constant s with
            | Some r => Some r
            | None =>
                match scan_number s with
                | Some r => Some r
                | None => scan_float_constant s
                end
            end
      end
  end

with parse_elements (fuel : nat) (s : string) {struct fuel}
  : option (list json * string) :=
  match fuel with
  | O => None
  | S fuel' =>
      match parse_value fuel' s with
      | Some (value, rest) =>
          match skip_whitespace rest with
          | String c r1 =>
              if Nat.eqb (nat_of_ascii c) 93 then Some ([value], r1)
              else if Nat.eqb (nat_of_ascii c) 44 then
                match parse_elements fuel' (skip_whitespace r1) with
                | Some (values, r2) => Some (value :: values, r2)
                | None => None
                end
              else None
          | EmptyString => None
          end
      | None => None
      end
  end

with parse_members (fuel : nat) (s : string) {struct fuel}
  : option (list (string * json) * string) :=
  match fuel with
  | O => None
  | S fuel' =>
      match scan_string s with
      | Some (key, r0) =>
          match skip_whitespace r0 with
          | String c r1 =>
              if Nat.eqb (nat_of_ascii c) 58 then
                match parse_value fuel' (skip_whitespace r1) with
                | Some (value, r2) =>
                    match skip_whitespace r2 with
                    | String c2 r3 =>
                        if Nat.eqb (nat_of_ascii c2) 125 then Some ([(key, value)], r3)
                        else if Nat.eqb (nat_of_ascii c2) 44 then
                          match skip_whitespace r3 with
                          | String c3 r4 =>
                              if Nat.eqb (nat_of_ascii c3) 34 then
                                match parse_members fuel' r4 with
                                | Some (pairs, r5) => Some ((key, value) :: pairs, r5)
                                | None => None
                                end
                              else None
                          | EmptyString => None
                          end
                        else None
                    | EmptyString => None
                    end
                | None => None
                end
              else None
          | EmptyString => None
          end
      | None => None
      end
  end.

(** A step of the loop of [JSONArray], after a value. *)
Definition after_element (fuel : nat) (value : json) (rest : string)
  : option (list json * string) :=
  match skip_whitespace rest with
  | String c r1 =>
      if Nat.eqb (nat_of_ascii c) 93 then Some ([value], r1)
      else if Nat.eqb (nat_of_ascii c) 44 then
        match parse_elements fuel (skip_whitespace r1) with
        | Some (values, r2) => Some (value :: values, r2)
        | None => None
        end
      else None
  | EmptyString => None
  end.

(** The steps of the loop of [JSONObject]: after a key, and after the
    value of a key. *)
Definition after_member (fuel : nat) (key : string) (value : json) (rest : string)
  : option (list (string * json) * string) :=
  match skip_whitespace rest with
  | String c2 r3 =>
      if Nat.eqb (nat_of_ascii c2) 125 then Some ([(key, value)], r3)
      else if Nat.eqb (nat_of_ascii c2) 44 then
        match skip_whitespace r3 with
        | String c3 r4 =>
            if Nat.eqb (nat_of_ascii c3) 34 then
              match parse_members fuel r4 with
              | Some (pairs, r5) => Some ((key, value) :: pairs, r5)
              | None => None
              end
            else None
        | EmptyString => None
        end
      else None
  | EmptyString => None
  end.

Definition after_key (fuel : nat) (key : string) (rest : string)
  : option (list (string * json) * string) :=
  match skip_whitespace rest with
  | String c r1 =>
      if Nat.eqb (nat_of_ascii c) 58 then
        match parse_value fuel (skip_whitespace r1) with
        | Some (value, r2) => after_member fuel key value r2
        | None => None
        end
      else None
  | EmptyString => None
  end.

(** [json.loads(s)] *)
Definition json_loads (s : string) : result json :=
  match parse_value (S (String.length s)) (skip_whitespace s) with
  | Some (j, rest) =>
      match skip_whitespace rest with
      | EmptyString => Ok j
      | String _ _ => Raise JSONDecodeError
      end
  | None => Raise JSONDecodeError
  end.
End Loads.

(** ** Collaborators of the manager *)

(** Modelled from the spec: the Board collaborator ([simulation.board.Board]
    is not among the sources).  The manager consumes its size, its
    per-square queries, its aggregate queries and the decay instruction. *)
Class BoardOps (Board : Type) : Type := {
  width : Board -> Z;
  height : Board -> Z;
  has_food : Board -> Z -> Z -> bool;
  is_touched : Board -> Z -> Z -> bool;
  get_blob : Board -> Z -> Z -> Q;
  get_blob_total : Board -> number;
  get_cover : Board -> number;
  manage_blob : Board -> number -> number -> Board
}.

(** An entry of the knowledge dictionary: a value loaded from the JSON
    file, the list of known food positions (['food']) or the scouter
    quota (['max_scouters']). *)
Inductive entry : Type :=
| Loaded (j : json)
| FoodList (l : list (Z * Z))
| Count (n : Z).

Definition dict : Type := list (string * entry).

(** Modelled from the spec: the Scouter collaborator
    ([simulation.logic.fsm_ant.FSMAnt] is not among the sources).  An ant
    is built on the shared board and knowledge at a position; [move]
    changes the ant and may draw random values (it returns the new
    position of the random source); [update] records the step on the
    board. *)
Class AntOps (Board Ant : Type) : Type := {
  FSMAnt : Board -> dict -> Z -> Z -> Ant;
  ant_x : Ant -> Z;
  ant_y : Ant -> Z;
  ant_move : Board -> dict -> (nat -> Z) -> nat -> Ant -> Ant * nat;
  ant_update : Board -> dict -> Ant -> Board * Ant
}.

(** The knowledge source given to the constructor: what [open] and
    [json.load] make of it.  The knowledge format is a JSON object. *)
Inductive source : Type :=
| Unreadable
| Malformed
| Document (d : list (string * json)).

Definition load (src : source) : result (list (string * json)) :=
  match src with
  | Unreadable => Raise OSError
  | Malformed => Raise JSONDecodeError
  | Document d => Ok d
  end.

(** What [json.dumps] sees of an entry (a tuple is written as an array). *)
Definition entry_json (e : entry) : json :=
  match e with
  | Loaded j => j
  | FoodList l => JArr (map (fun p => JArr [JInt (fst p); JInt (snd p)]) l)
  | Count n => JInt n
  end.

(** The dictionary as [json.dumps] sees it. *)
Definition view (d : dict) : list (string * json) :=
  map (on_values entry_json) d.

Definition pos_eqb (p q : Z * Z) : bool := (fst p =? fst q) && (snd p =? snd q).

(** How often a position occurs in a list, and the list without it. *)
Definition occurrences (p : Z * Z) (l : list (Z * Z)) : nat :=
  List.length (filter (pos_eqb p) l).

Definition without (p : Z * Z) (l : list (Z * Z)) : list (Z * Z) :=
  filter (fun q => negb (pos_eqb q p)) l.

(** [l.remove(p)] on a list of positions: the first occurrence. *)
Fixpoint remove_first (p : Z * Z) (l : list (Z * Z)) : result (list (Z * Z)) :=
  match l with
  | [] => Raise ValueError
  | q :: l' =>
      if pos_eqb q p then Ok l'
      else result_bind (remove_first p l') (fun r => Ok (q :: r))
  end.

(** [del l[n]] *)
Fixpoint remove_nth {A : Type} (n : nat) (l : list A) : list A :=
  match l, n with
  | [], _ => []
  | _ :: l', O => l'
  | a :: l', S n' => a :: remove_nth n' l'
  end.

(** [l[n] = a] *)
Fixpoint store_nth {A : Type} (n : nat) (a : A) (l : list A) : list A :=
  match l, n with
  | [], _ => []
  | _ :: l', O => a :: l'
  | b :: l', S n' => b :: store_nth n' a l'
  end.

(** A touched square with its weight, in scanning order. *)
Definition weighted : Type := (Z * Z) * Q.

(** The accumulation loop of [find_blob_square]. *)
Fixpoint pick (availables : list weighted) (acc : Q) (index_pond : Z) : option (Z * Z) :=
  match availables with
  | [] => None
  | (square, qt) :: rest =>
      let acc' := (acc + qt)%Q in
      if Qle_bool (inject_Z index_pond) acc' then Some square
      else pick rest acc' index_pond
  end.

Definition total_weight (availables : list weighted) : Q :=
  fold_left (fun t a => (t + snd a)%Q) availables 0%Q.

(** ** The manager *)

Section Manager.
Context {Board Ant : Type} {BO : BoardOps Board} {AO : AntOps Board Ant}.
Variable float_repr : float -> string.

(** A scouter of the list: the ant and the identity of the object
    ([list.remove] compares objects by identity). *)
Record scouter : Type := { sid : nat; sant : Ant }.

(** The fields of a [BlobManager], followed by the interpreter state
    its methods thread: the next object identity and the random
    source with its position. *)
Record BlobManager : Type := {
  board : Board;
  knowledge : dict;
  scouters : list scouter;
  next_id : nat;
  rng : nat -> Z;
  rng_pos : nat
}.

Definition set_board (b : Board) (m : BlobManager) : BlobManager :=
  {| board := b; knowledge := knowledge m; scouters := scouters m;
     next_id := next_id m; rng := rng m; rng_pos := rng_pos m |}.
Definition set_knowledge (k : dict) (m : BlobManager) : BlobManager :=
  {| board := board m; knowledge := k; scouters := scouters m;
     next_id := next_id m; rng := rng m; rng_pos := rng_pos m |}.
Definition set_scouters (l : list scouter) (m : BlobManager) : BlobManager :=
  {| board := board m; knowledge := knowledge m; scouters := l;
     next_id := next_id m; rng := rng m; rng_pos := rng_pos m |}.
Definition set_next_id (n : nat) (m : BlobManager) : BlobManager :=
  {| board := board m; knowledge := knowledge m; scouters := scouters m;
     next_id := n; rng := rng m; rng_pos := rng_pos m |}.
Definition set_rng_pos (n : nat) (m : BlobManager) : BlobManager :=
  {| board := board m; knowledge := knowledge m; scouters := scouters m;
     next_id := next_id m; rng := rng m; rng_pos := n |}.

(** *** The monad of methods *)

Definition M (A : Type) : Type := BlobManager -> result (A * BlobManager).

Definition ret {A : Type} (a : A) : M A := fun m => Ok (a, m).
Definition bind {A B : Type} (c : M A) (f : A -> M B) : M B :=
  fun m => match c m with Ok (a, m') => f a m' | Raise e => Raise e end.
Definition raise {A : Type} (e : exn) : M A := fun _ => Raise e.
Definition lift {A : Type} (r : result A) : M A :=
  fun m => match r with Ok a => Ok (a, m) | Raise e => Raise e end.
Definition gets {A : Type} (f : BlobManager -> A) : M A := fun m => Ok (f m, m).
Definition modify (f : BlobManager -> BlobManager) : M unit := fun m => Ok (tt, f m).

Notation "x <- c ;; k" := (bind c (fun x => k))
  (at level 61, c at next level, right associativity).
Notation "c ;; k" := (bind c (fun _ => k))
  (at level 61, right associativity).

(** [for a in l: body(a)] *)
Fixpoint for_each {A : Type} (l : list A) (body : A -> M unit) : M unit :=
  match l with
  | [] => ret tt
  | a :: l' => body a ;; for_each l' body
  end.

(** [for _ in range(n): body()] *)
Fixpoint repeat_m (n : nat) (body : M unit) : M unit :=
  match n with
  | O => ret tt
  | S n' => body ;; repeat_m n' body
  end.

(** [random.randrange(n)] *)
Definition randrange (n : Z) : M Z :=
  fun m =>
    if n <=? 0 then Raise ValueError
    else Ok (rng m (rng_pos m) mod n, set_rng_pos (S (rng_pos m)) m).

(** *** Access to the knowledge *)

(** [self.knowledge[k]] for a key of the file. *)
Definition item (k : string) : M json :=
  d <- gets knowledge ;;
  match dict_get k d with
  | Some (Loaded j) => ret j
  | Some _ => raise TypeError
  | None => raise (KeyError k)
  end.

(** [self.knowledge['food']] *)
Definition get_food : M (list (Z * Z)) :=
  d <- gets knowledge ;;
  match dict_get "food" d with
  | Some (FoodList l) => ret l
  | Some _ => raise TypeError
  | None => raise (KeyError "food")
  end.

Definition set_food (l : list (Z * Z)) : M unit :=
  modify (fun m => set_knowledge (dict_set "food" (FoodList l) (knowledge m)) m).

(** [self.knowledge['max_scouters']] *)
Definition get_max : M Z :=
  d <- gets knowledge ;;
  match dict_get "max_scouters" d with
  | Some (Count n) => ret n
  | Some _ => raise TypeError
  | None => raise (KeyError "max_scouters")
  end.

Definition set_max (n : Z) : M unit :=
  modify (fun m => set_knowledge (dict_set "max_scouters" (Count n) (knowledge m)) m).

Definition scouters_len : M Z := gets (fun m => Z.of_nat (List.length (scouters m))).

(** *** [compute_max_scouters] *)

(** [self.knowledge["Computing"][name]] *)
Definition computing_entry (name : string) : M json :=
  c <- item "Computing" ;;
  lift (subscript c name).

(** A factor, as the number the formula multiplies. *)
Definition factor (name : string) : M number :=
  c <- item "Computing" ;;
  v <- lift (subscript c name) ;;
  lift (as_number v).

(** [self.knowledge["Scouters"]["Min"]] *)
Definition min_entry : M json :=
  s <- item "Scouters" ;;
  lift (subscript s "Min").

(** The minimum, as the integer [max] compares. *)
Definition scouters_min : M Z :=
  s <- item "Scouters" ;;
  v <- lift (subscript s "Min") ;;
  lift (as_int v).

(** A factor that is not a number makes the product raise [TypeError]
    (a string or a list repeated by an [int] makes the sum or the last
    product raise it); the board is queried before, without effect. *)
Definition compute_max_scouters : M Z :=
  b <- gets board ;;
  blob_size <- factor "Blob Size Factor" ;;
  blob <- lift (mul blob_size (get_blob_total b)) ;;
  covering <- factor "Covering Factor" ;;
  cover <- lift (mul covering (get_cover b)) ;;
  total_scouters <- lift (add blob cover) ;;
  known_foods <- computing_entry "Known Foods Factor" ;;
  food <- get_food ;;
  known_foods <- lift (as_number known_foods) ;;
  known <- lift (mul known_foods (Int (Z.of_nat (List.length food)))) ;;
  total_scouters <- lift (add total_scouters known) ;;
  global <- factor "Global Factor" ;;
  area <- lift (true_div (height b * width b) 100000) ;;
  scale <- lift (mul global (Float area)) ;;
  total_scouters <- lift (mul total_scouters scale) ;;
  minimum <- min_entry ;;
  n <- lift (int_of total_scouters) ;;
  minimum <- lift (as_int minimum) ;;
  ret (Z.max minimum n).

(** *** [find_blob_square] *)

Definition availables_of (b : Board) : list weighted :=
  flat_map (fun x =>
    flat_map (fun y =>
      if is_touched b x y then [((x, y), (get_blob b x y + 1)%Q)] else [])
      (range (height b)))
    (range (width b)).

(** The result is [None] when the accumulation loop ends without a
    [return]. *)
Definition find_blob_square : M (option (Z * Z)) :=
  b <- gets board ;;
  let availables := availables_of b in
  let total_blob := total_weight availables in
  if Nat.eqb (List.length availables) 0 then ret (Some (0, 0))
  else
    index_pond <- randrange (py_int total_blob) ;;
    ret (pick availables 0%Q index_pond).

(** *** [add_scouter] and [remove_scouter] *)

Definition append_scouter (x y : Z) : M unit :=
  modify (fun m =>
    set_next_id (S (next_id m))
      (set_scouters
         (scouters m ++ [{| sid := next_id m; sant := FSMAnt (board m) (knowledge m) x y |}])%list
         m)).

(** Where [add_scouter] puts the new scouter: on a known food drawn at
    random, or on a blob square when no food is known. *)
Definition spawn_square : M (Z * Z) :=
  food <- get_food ;;
  if negb (Nat.eqb (List.length food) 0) then
    index <- randrange (Z.of_nat (List.length food)) ;;
    match nth_error food (Z.to_nat index) with
    | Some p => ret p
    | None => raise IndexError
    end
  else
    sq <- find_blob_square ;;
    match sq with
    | Some p => ret p
    | None => raise TypeError   (* unpacking [None] *)
    end.

Definition add_scouter : M unit :=
  n <- scouters_len ;;
  mx <- get_max ;;
  if n <? mx then
    xy <- spawn_square ;;
    append_scouter (fst xy) (snd xy)
  else ret tt.

Definition remove_scouter : M unit :=
  n <- scouters_len ;;
  nbr <- randrange n ;;
  modify (fun m => set_scouters (remove_nth (Z.to_nat nbr) (scouters m)) m).

(** *** [food_discovered] and [food_destroyed] *)

Definition food_discovered (x y : Z) : M unit :=
  food <- get_food ;;
  set_food (food ++ [(x, y)])%list.

Definition food_destroyed (x y : Z) : M unit :=
  food <- get_food ;;
  food' <- lift (remove_first (x, y) food) ;;
  set_food food'.

(** *** [reset] *)

(** [self.scouters.remove(s)]: the first scouter that is the object [s]. *)
Fixpoint remove_object (i : nat) (l : list scouter) : result (list scouter) :=
  match l with
  | [] => Raise ValueError
  | s :: l' =>
      if Nat.eqb (sid s) i then Ok l'
      else result_bind (remove_object i l') (fun r => Ok (s :: r))
  end.

Definition remove_from_scouters (i : nat) : M unit :=
  l <- gets scouters ;;
  l' <- lift (remove_object i l) ;;
  modify (set_scouters l').

Definition at_pos (x y : Z) (s : scouter) : bool :=
  (ant_x (sant s) =? x) && (ant_y (sant s) =? y).

(** The bodies of the two loops of [reset]. *)
Definition reset_scouter_body (x y : Z) (s : scouter) : M unit :=
  if at_pos x y s then remove_from_scouters (sid s) else ret tt.

Definition reset_food_body (x y : Z) (food : Z * Z) : M unit :=
  if pos_eqb food (x, y) then
    l <- get_food ;;
    l' <- lift (remove_first food l) ;;       (* self.knowledge['food'].remove(food) *)
    set_food l' ;;
    n <- get_max ;;
    set_max (n - 1)
  else ret tt.

Definition reset (x y : Z) : M unit :=
  copy <- gets scouters ;;
  for_each copy (reset_scouter_body x y) ;;
  copy <- get_food ;;
  for_each copy (reset_food_body x y).

(** *** [save] *)

Definition save : M string :=
  d <- gets knowledge ;;                       (* d = self.knowledge.copy() *)
  d <- lift (dict_del "food" d) ;;
  d <- lift (dict_del "max_scouters" d) ;;
  ret (json_dumps float_repr (JObj (view d))).

(** *** [move] *)

(** The body of the first loop for the scouter at index [i]; [deads]
    collects the identities of the scouters that did not move. *)
Definition move_scouter (i : nat) (deads : list nat) : M (list nat) :=
  l <- gets scouters ;;
  match nth_error l i with
  | None => raise IndexError
  | Some s =>
      let old := (ant_x (sant s), ant_y (sant s)) in
      a <- (fun m =>
              let r := ant_move (board m) (knowledge m) (rng m) (rng_pos m) (sant s) in
              Ok (fst r, set_rng_pos (snd r) m)) ;;
      modify (fun m => set_scouters (store_nth i {| sid := sid s; sant := a |} (scouters m)) m) ;;
      if pos_eqb old (ant_x a, ant_y a) then ret (deads ++ [sid s])%list
      else
        b <- gets board ;;
        (if has_food b (ant_x a) (ant_y a) then
           food <- get_food ;;
           if negb (existsb (pos_eqb (ant_x a, ant_y a)) food)
           then food_discovered (ant_x a) (ant_y a)
           else ret tt
         else ret tt) ;;
        modify (fun m =>
          let r := ant_update (board m) (knowledge m) a in
          set_board (fst r)
            (set_scouters (store_nth i {| sid := sid s; sant := snd r |} (scouters m)) m)) ;;
        ret deads
  end.

Fixpoint move_scouters (indices : list nat) (deads : list nat) : M (list nat) :=
  match indices with
  | [] => ret deads
  | i :: rest => deads' <- move_scouter i deads ;; move_scouters rest deads'
  end.

Definition move : M unit :=
  n <- gets (fun m => List.length (scouters m)) ;;
  deads <- move_scouters (seq 0 n) [] ;;
  new_max <- compute_max_scouters ;;
  _ <- get_max ;;
  set_max new_max ;;
  scouters_qt <- scouters_len ;;
  mx <- get_max ;;
  let diff := mx - scouters_qt in
  (if 0 <? diff then repeat_m (Z.to_nat diff) add_scouter
   else if diff <? 0 then repeat_m (Z.to_nat (- diff)) remove_scouter
   else ret tt) ;;
  for_each deads (fun dead => remove_from_scouters dead ;; add_scouter) ;;
  decrease <- item "Global Decrease" ;;
  remaining <- item "Remaining Blob on Food" ;;
  decrease <- lift (as_number decrease) ;;
  remaining <- lift (as_number remaining) ;;
  modify (fun m => set_board (manage_blob (board m) decrease remaining) m).

(** *** [__init__] *)

Definition board_food (b : Board) : list (Z * Z) :=
  flat_map (fun x =>
    flat_map (fun y =>
      if has_food b x y && is_touched b x y then [(x, y)] else [])
      (range (height b)))
    (range (width b)).

(** [while len(self.scouters) < self.knowledge['max_scouters']: self.add_scouter()] *)
Fixpoint spawn_loop (fuel : nat) : M unit :=
  match fuel with
  | O => ret tt
  | S fuel' =>
      n <- scouters_len ;;
      mx <- get_max ;;
      if n <? mx then add_scouter ;; spawn_loop fuel' else ret tt
  end.

Definition init (src : source) : M unit :=
  doc <- lift (load src) ;;
  modify (fun m =>
    set_knowledge (dict_update (knowledge m) (map (on_values Loaded) doc)) m) ;;
  b <- gets board ;;
  set_food (board_food b) ;;
  mx <- compute_max_scouters ;;
  set_max mx ;;
  spawn_loop (Z.to_nat mx).

(** [BlobManager(board, knowledge)] under a random source. *)
Definition blank (b : Board) (rnd : nat -> Z) : BlobManager :=
  {| board := b; knowledge := []; scouters := []; next_id := 0;
     rng := rnd; rng_pos := 0 |}.

Definition new_manager (b : Board) (src : source) (rnd : nat -> Z) : result BlobManager :=
  match init src (blank b rnd) with
  | Ok (_, m) => Ok m
  | Raise e => Raise e
  end.

End Manager.

(** ** A plain board and a plain ant for the concrete scenarios *)

Record square : Type := { sq_food : bool; sq_touched : bool; sq_blob : Q }.

Record Grid : Type := { g_width : Z; g_height : Z; g_square : Z -> Z -> square }.

Definition grid_squares (g : Grid) : list square :=
  flat_map (fun x => map (fun y => g_square g x y) (range (g_height g))) (range (g_width g)).

(** The nearest float to a rational, and the exact value of a number
    (zero for an infinity or a NaN). *)
Definition float_of_Q (q : Q) : float :=
  SF2Prim (SFdiv prec emax (SF_of_Z (Qnum q)) (SF_of_Z (Zpos (Qden q)))).

Definition Q_of_number (a : number) : Q :=
  match a with
  | Int z => inject_Z z
  | Float f => match float_value f with Some q => Qred q | None => 0%Q end
  end.

(** The aggregates of the board are floats. *)
Definition grid_total (g : Grid) : number :=
  Float (float_of_Q (fold_left Qplus (map sq_blob (grid_squares g)) 0%Q)).

Definition grid_cover (g : Grid) : number :=
  Float (float_of_Q
           (inject_Z (Z.of_nat (List.length (filter sq_touched (grid_squares g))))
            / inject_Z (g_height g * g_width g) * 100)%Q).

(** Decay: every square loses [decrease], not below zero, and a food
    square keeps at least [remaining] of what it has. *)
Definition decay (decrease remaining : Q) (s : square) : square :=
  let lowered := Qred (sq_blob s - decrease) in
  let floor := if sq_food s then remaining else 0%Q in
  {| sq_food := sq_food s; sq_touched := sq_touched s;
     sq_blob := if Qle_bool floor lowered then lowered
                else if Qle_bool (sq_blob s) floor then sq_blob s else floor |}.

Definition grid_decay (g : Grid) (decrease remaining : number) : Grid :=
  {| g_width := g_width g; g_height := g_height g;
     g_square := fun x y =>
       decay (Q_of_number decrease) (Q_of_number remaining) (g_square g x y) |}.

#[export] Instance Grid_board : BoardOps Grid := {
  width := g_width;
  height := g_height;
  has_food := fun g x y => sq_food (g_square g x y);
  is_touched := fun g x y => sq_touched (g_square g x y);
  get_blob := fun g x y => sq_blob (g_square g x y);
  get_blob_total := grid_total;
  get_cover := grid_cover;
  manage_blob := grid_decay
}.

(** An ant that walks one square to the right on each move and is
    trapped at the right edge of the board. *)
Record Walker : Type := { walker_x : Z; walker_y : Z }.

Definition walk (g : Grid) (a : Walker) : Walker :=
  if walker_x a + 1 <? g_width g
  then {| walker_x := walker_x a + 1; walker_y := walker_y a |}
  else a.

#[export] Instance Walker_ant : AntOps Grid Walker := {
  FSMAnt := fun _ _ x y => {| walker_x := x; walker_y := y |};
  ant_x := walker_x;
  ant_y := walker_y;
  ant_move := fun g _ _ pos a => (walk g a, pos);
  ant_update := fun g _ a => (g, a)
}.

Definition empty_square : square := {| sq_food := false; sq_touched := false; sq_blob := 0 |}.
Definition blob_square (q : Q) : square := {| sq_food := false; sq_touched := true; sq_blob := q |}.

(** A knowledge document with the given factors and minimum. *)
Definition computing (blob_size covering known_foods global : float) : json :=
  JObj [("Blob Size Factor", JFloat blob_size); ("Covering Factor", JFloat covering);
        ("Known Foods Factor", JFloat known_foods); ("Global Factor", JFloat global)].

(** A plain [repr] for the scenarios: the mantissa of the float,
    written as a whole number, and its binary exponent. *)
Definition plain_repr (f : float) : string :=
  match Prim2SF f with
  | S754_finite s m e =>
      ((if s then "-" else "") ++ encode_int (Zpos m) ++ ".0e" ++ encode_int e)%string
  | S754_zero s => ((if s then "-" else "") ++ "0.0e0")%string
  | S754_infinity _ | S754_nan => "0.0e0"
  end.

(** The plain [float] of the scenarios, which reads the mantissa and the
    binary exponent back. *)
Definition plain_float (s : string) : float :=
  match match_number s with
  | Some (integer, _, String _ exponent, _) =>
      match NilZero.int_of_string integer, NilZero.int_of_string exponent with
      | Some (Decimal.Pos m), Some e =>
          match Pos.of_uint m with
          | Npos p => SF2Prim (S754_finite false p (Z.of_int e))
          | N0 => SF2Prim (S754_zero false)
          end
      | Some (Decimal.Neg m), Some e =>
          match Pos.of_uint m with
          | Npos p => SF2Prim (S754_finite true p (Z.of_int e))
          | N0 => SF2Prim (S754_zero true)
          end
      | _, _ => nan
      end
  | _ => nan
  end.


(** ** Predicates of the statements *)

(** The keys of a dictionary are distinct. *)
Fixpoint distinct (l : list string) : bool :=
  match l with
  | [] => true
  | k :: l' => negb (existsb (String.eqb k) l') && distinct l'
  end.

(** A JSON value as [json.load] builds it: no dictionary in it has two
    equal keys. *)
Fixpoint well_formed (j : json) : bool :=
  match j with
  | JArr l => forallb well_formed l
  | JObj l => distinct (map fst l) && forallb (fun kv => well_formed (snd kv)) l
  | _ => true
  end.

(** Two JSON values agree up to the order of the keys of their
    dictionaries. *)
Inductive json_equiv : json -> json -> Prop :=
| equiv_same j : json_equiv j j
| equiv_arr l1 l2 :
    Forall2 json_equiv l1 l2 -> json_equiv (JArr l1) (JArr l2)
| equiv_obj l1 l2 l2' :
    Permutation l2' l2 ->
    Forall2 (fun a b => fst a = fst b /\ json_equiv (snd a) (snd b)) l1 l2' ->
    json_equiv (JObj l1) (JObj l2).

(** Two states that differ at most in the knowledge under one key. *)
Definition same_but {Board Ant : Type} (key : string) (m m' : @BlobManager Board Ant) : Prop :=
  board m' = board m /\ scouters m' = scouters m /\ next_id m' = next_id m /\
  rng m' = rng m /\ rng_pos m' = rng_pos m /\
  keys (knowledge m') = keys (knowledge m) /\
  forall k, k <> key -> dict_get k (knowledge m') = dict_get k (knowledge m).

(** Every successful run of a method relates the state before it to the
    state after it by [R]. *)
Definition keeps {Board Ant A : Type} (R : @BlobManager Board Ant -> @BlobManager Board Ant -> Prop)
    (c : @M Board Ant A) : Prop :=
  forall m a m', c m = Ok (a, m') -> R m m'.

(** The states differ at most in the position of the random source. *)
Definition only_random {Board Ant : Type} (m m' : @BlobManager Board Ant) : Prop :=
  board m' = board m /\ knowledge m' = knowledge m /\ scouters m' = scouters m /\
  next_id m' = next_id m /\ rng m' = rng m.

Create HintDb frame.

(** The entries loaded from the file are the same in both states. *)
Definition config_kept {Board Ant : Type} (m m' : @BlobManager Board Ant) : Prop :=
  forall k, k <> "food" -> k <> "max_scouters" ->
            dict_get k (knowledge m') = dict_get k (knowledge m).

(** The dictionary [save] writes: the knowledge as [json.dumps] sees it,
    without the two derived entries. *)
Definition persisted (k : dict) : result (list (string * json)) :=
  result_bind (dict_del "food" (view k)) (dict_del "max_scouters").

(** The quota the knowledge of a manager gives on the board [b] when
    the food [food] is known. *)
Definition quota_on {Board Ant : Type} {BO : BoardOps Board} (b : Board)
    (food : list (Z * Z)) (m : @BlobManager Board Ant) : result Z :=
  match compute_max_scouters
          (set_knowledge (dict_set "food" (FoodList food) (knowledge m)) (set_board b m))
  with
  | Ok (q, _) => Ok q
  | Raise e => Raise e
  end.

(** The known food of a state holds no position twice. *)
Definition food_distinct {Board Ant : Type} (m : @BlobManager Board Ant) : Prop :=
  forall l, dict_get "food" (knowledge m) = Some (FoodList l) -> NoDup l.

(** A method does not introduce a duplicate in the known food. *)
Definition keeps_distinct {Board Ant : Type} (m m' : @BlobManager Board Ant) : Prop :=
  food_distinct m -> food_distinct m'.

(** The number of active scouters. *)
Definition population {Board Ant : Type} (m : @BlobManager Board Ant) : Z :=
  Z.of_nat (List.length (scouters m)).

(** A board without a touched square. *)
Definition blank_board {Board : Type} {BO : BoardOps Board} (b : Board) : Prop :=
  forall x y, is_touched b x y = false.

(** The value at a path of keys of a document. *)
Definition field (doc : list (string * json)) (path : list string) : result json :=
  fold_left (fun r k => result_bind r (fun j => subscript j k)) path (Ok (JObj doc)).

(** The dictionary [dict.update] makes of the pairs of a document. *)
Definition loaded (doc : list (string * json)) : list (string * json) :=
  dict_update [] doc.

(** The fields [compute_max_scouters] reads. *)
Definition quota_fields : list (list string) :=
  [["Computing"; "Blob Size Factor"]; ["Computing"; "Covering Factor"];
   ["Computing"; "Known Foods Factor"]; ["Computing"; "Global Factor"];
   ["Scouters"; "Min"]].

(** The fields only the decay step of [move] reads. *)
Definition decay_fields : list (list string) :=
  [["Global Decrease"]; ["Remaining Blob on Food"]].

(** The knowledge holds the dictionary of a document, under the keys of
    the file. *)
Definition holds {Board Ant : Type} (doc : list (string * json))
    (m : @BlobManager Board Ant) : Prop :=
  forall k, k <> "food" -> k <> "max_scouters" ->
            dict_get k (knowledge m) = option_map Loaded (dict_get k (loaded doc)).

(** A source the constructor rejects: it cannot be read, it is not JSON,
    or it lacks a field the quota is computed from. *)
Definition defective (src : source) : Prop :=
  match src with
  | Unreadable | Malformed => True
  | Document doc => exists path, In path quota_fields /\ fails (field (loaded doc) path)
  end.

(** A document that lacks a field of the decay step. *)
Definition lacks_decay (src : source) : Prop :=
  match src with
  | Unreadable | Malformed => False
  | Document doc => exists path, In path decay_fields /\ fails (field (loaded doc) path)
  end.


(** What follows a value in a text: nothing, a comma or a new line. *)
Definition ends_value (rest : string) : bool :=
  match rest with
  | EmptyString => true
  | String c _ => Nat.eqb (nat_of_ascii c) 44 || Nat.eqb (nat_of_ascii c) 10
  end.

(** A text that is a number with a fraction or an exponent. *)
Definition float_literal (s : string) : bool :=
  match match_number s with
  | Some (_, frac, exp, EmptyString) =>
      negb (String.eqb frac "" && String.eqb exp "")
  | _ => false
  end.

(** A float that is neither an infinity nor a NaN. *)
Definition finite (f : float) : bool :=
  negb (is_nan f) && negb (PrimFloat.eqb f infinity) && negb (PrimFloat.eqb f neg_infinity).

(** The floats of a value. *)
Fixpoint floats_of (j : json) : list float :=
  match j with
  | JFloat f => [f]
  | JArr l => flat_map floats_of l
  | JObj l => flat_map (fun kv => floats_of (snd kv)) l
  | _ => []
  end.

(** The interpreter reads back the floats of a value from what it
    writes for them: [repr] of a float is a number with a fraction or an
    exponent, and [float] of it is the float. *)
Definition reads_back (float_repr : float -> string) (float_of_string : string -> float)
    (j : json) : Prop :=
  forall f, In f (floats_of j) -> finite f = true ->
            float_literal (float_repr f) = true /\ float_of_string (float_repr f) = f.

(** A value with the items of its dictionaries in the order of their
    keys. *)
Fixpoint normal (j : json) : json :=
  match j with
  | JArr l => JArr (map normal l)
  | JObj l => JObj (sorted_items (map (on_values normal) l))
  | _ => j
  end.

(** The head of a number is a digit or a minus sign. *)
Definition number_head (s : string) : bool :=
  match s with
  | String c _ => is_digit c || Ascii.eqb c "-"
  | EmptyString => false
  end.

(** The head of the text of a value is neither a blank nor a closing
    bracket. *)
Definition value_head (s : string) : bool :=
  match s with
  | String c _ => negb (is_whitespace c) && negb (Nat.eqb (nat_of_ascii c) 93)
  | EmptyString => false
  end.

Section Reading.
Variable float_repr : float -> string.
Variable float_of_string : string -> float.

(** The decoder reads the text of a value, at any level and before the
    end of a value, back as the value in normal form. *)
Definition reads (j : json) : Prop :=
  forall level rest fuel,
    ends_value rest = true ->
    (String.length (encode float_repr level j) <= fuel)%nat ->
    parse_value float_of_string (S fuel) (encode float_repr level j ++ rest) = Some (normal j, rest).

(** The text of an item of a dictionary. *)
Definition item_text (level : nat) (kv : string * json) : string :=
  (encode_str (fst kv) ++ ": " ++ encode float_repr level (snd kv))%string.

End Reading.
(** ** Concrete scenarios *)

(** A random source that always yields zero. *)
Definition zeros (n : nat) : Z := 0.

(** A 3 by 3 board without blob. *)
Definition bare_grid : Grid :=
  {| g_width := 3; g_height := 3; g_square := fun _ _ => empty_square |}.

(** The knowledge of a manager with quota 2 that knows the given food. *)
Definition sample_knowledge (food : list (Z * Z)) : dict :=
  [("Global Decrease", Loaded (JFloat 0)); ("Remaining Blob on Food", Loaded (JFloat 0));
   ("Computing", Loaded (computing 0 0 0 1)); ("Scouters", Loaded (JObj [("Min", JInt 2)]));
   ("food", FoodList food); ("max_scouters", Count 2)].

Definition walker_at (i : nat) (x y : Z) : @scouter Walker :=
  {| sid := i; sant := {| walker_x := x; walker_y := y |} |}.

(** A manager on the bare board with two scouters, at (1, 1) and (2, 0). *)
Definition sample_manager (food : list (Z * Z)) : @BlobManager Grid Walker :=
  {| board := bare_grid; knowledge := sample_knowledge food;
     scouters := [walker_at 0 1 1; walker_at 1 2 0];
     next_id := 2; rng := zeros; rng_pos := 0 |}.

(** The formula of [compute_max_scouters] before [int], from the
    numbers of the factors. *)
Definition total_scouters {Board : Type} {BO : BoardOps Board} (b : Board)
    (blob_size covering known_foods global : number) (food : list (Z * Z)) : result number :=
  result_bind (mul blob_size (get_blob_total b)) (fun blob =>
  result_bind (mul covering (get_cover b)) (fun cover =>
  result_bind (add blob cover) (fun total =>
  result_bind (mul known_foods (Int (Z.of_nat (List.length food)))) (fun known =>
  result_bind (add total known) (fun total =>
  result_bind (true_div (height b * width b) 100000) (fun area =>
  result_bind (mul global (Float area)) (fun scale =>
  mul total scale))))))).

(** The formula and the target of the specification (4.4), over exact
    numbers: the factor and the value of the blob, of the cover and of
    the known food, the global factor and the size of the board. *)
Definition spec_formula (blob_size blob covering cover known_foods : Q) (count : Z)
    (global : Q) (height width : Z) : Q :=
  ((blob_size * blob + covering * cover + known_foods * inject_Z count)
   * global * (inject_Z (height * width) / inject_Z 100000))%Q.

Definition spec_target (minimum : Z) (F : Q) : Z := Z.max minimum (Qfloor F).

(** A 10 by 10 board with no blob and no food, and the knowledge with
    minimum 2 and all factors 0 but the global one. *)
Definition blank_grid : Grid :=
  {| g_width := 10; g_height := 10; g_square := fun _ _ => empty_square |}.

Definition scenario_manager : @BlobManager Grid Walker :=
  {| board := blank_grid; knowledge := sample_knowledge [];
     scouters := []; next_id := 0; rng := zeros; rng_pos := 0 |}.

(** A board of 400 by 250 squares, whose area is 100000, with no blob,
    and a manager on it with minimum 2 that knows the given food and
    weighs it with the given factors. *)
Definition wide_grid : Grid :=
  {| g_width := 400; g_height := 250; g_square := fun _ _ => empty_square |}.

Definition wide_manager (known_foods global : float) (food : list (Z * Z))
  : @BlobManager Grid Walker :=
  {| board := wide_grid;
     knowledge :=
       [("Computing", Loaded (computing 0 0 known_foods global));
        ("Scouters", Loaded (JObj [("Min", JInt 2)]));
        ("food", FoodList food); ("max_scouters", Count 2)];
     scouters := []; next_id := 0; rng := zeros; rng_pos := 0 |}.

(** A column of three squares: (0, 0) untouched, (0, 1) and (0, 2)
    touched and without blob. *)
Definition column_grid : Grid :=
  {| g_width := 1; g_height := 3;
     g_square := fun _ y => if y =? 0 then empty_square else blob_square 0 |}.

Definition column_manager (rnd : nat -> Z) (pos : nat) : @BlobManager Grid Walker :=
  {| board := column_grid; knowledge := sample_knowledge [];
     scouters := []; next_id := 0; rng := rnd; rng_pos := pos |}.

(** A board one square wide, where every walker is trapped: (0, 0)
    touched without blob, (0, 1) with blob 2.  The knowledge makes the
    quota the total blob, at least 1, and the decay takes 2 per tick. *)
Definition trap_grid : Grid :=
  {| g_width := 1; g_height := 2;
     g_square := fun _ y => if y =? 1 then blob_square 2 else blob_square 0 |}.

Definition trap_document : list (string * json) :=
  [("Global Decrease", JFloat 2); ("Remaining Blob on Food", JFloat 0);
   ("Computing", computing 50000 0 0 1); ("Scouters", JObj [("Min", JInt 1)])].

(** A board of 2 by 2 squares with one touched square, (1, 1), that has
    food and blob 1. *)
Definition pantry_grid : Grid :=
  {| g_width := 2; g_height := 2;
     g_square := fun x y =>
       if (x =? 1) && (y =? 1)
       then {| sq_food := true; sq_touched := true; sq_blob := 1 |}
       else empty_square |}.

(** A random source that yields 0, 2, 0, 2, ... *)
Definition alternating (n : nat) : Z := if Nat.even n then 0 else 2.

(** A document without the two fields of the decay step. *)
Definition quota_only_document : list (string * json) :=
  [("Computing", computing 0 0 0 1); ("Scouters", JObj [("Min", JInt 2)])].

Definition positions {Board Ant : Type} {AO : AntOps Board Ant}
    (m : @BlobManager Board Ant) : list (Z * Z) :=
  map (fun s => (ant_x (sant s), ant_y (sant s))) (scouters m).

(** The sample knowledge with its keys in another order, at both levels. *)
Definition reordered_knowledge (food : list (Z * Z)) : dict :=
  [("Scouters", Loaded (JObj [("Min", JInt 2)]));
   ("max_scouters", Count 2);
   ("Remaining Blob on Food", Loaded (JFloat 0));
   ("Computing",
    Loaded (JObj [("Global Factor", JFloat 1); ("Known Foods Factor", JFloat 0);
                  ("Covering Factor", JFloat 0); ("Blob Size Factor", JFloat 0)]));
   ("food", FoodList food);
   ("Global Decrease", Loaded (JFloat 0))].

Definition reordered_manager (food : list (Z * Z)) : @BlobManager Grid Walker :=
  {| board := bare_grid; knowledge := reordered_knowledge food;
     scouters := []; next_id := 0; rng := zeros; rng_pos := 0 |}.

(** The document read back from what [save] writes of the sample
    knowledge: keys in sorted order. *)
Definition reloaded_document : list (string * json) :=
  [("Computing",
    JObj [("Blob Size Factor", JFloat 0); ("Covering Factor", JFloat 0);
          ("Global Factor", JFloat 1); ("Known Foods Factor", JFloat 0)]);
   ("Global Decrease", JFloat 0);
   ("Remaining Blob on Food", JFloat 0);
   ("Scouters", JObj [("Min", JInt 2)])].

(** A document without the [Computing] factors. *)
Definition minimum_only_document : list (string * json) :=
  [("Global Decrease", JFloat 0); ("Remaining Blob on Food", JFloat 0);
   ("Scouters", JObj [("Min", JInt 2)])].

(** Where [add_scouter] may put a scouter on a board, given the known
    food: on a known food, or without known food on a touched square of
    the board, or at the origin of a board without touched square. *)
Definition spawn_place {Board : Type} {BO : BoardOps Board} (b : Board)
    (food : list (Z * Z)) (p : Z * Z) : Prop :=
  (food <> [] -> In p food) /\
  (food = [] ->
   (0 <= fst p < width b /\ 0 <= snd p < height b /\ is_touched b (fst p) (snd p) = true) \/
   (p = (0, 0) /\
    forall x y, 0 <= x < width b -> 0 <= y < height b -> is_touched b x y = false)).

(** The known food of the second state is the known food of the first
    followed by further positions. *)
Definition food_grows {Board Ant : Type} (m m' : @BlobManager Board Ant) : Prop :=
  forall l, dict_get "food" (knowledge m) = Some (FoodList l) ->
            exists extra, dict_get "food" (knowledge m') = Some (FoodList (l ++ extra)).

(** From a state with the two derived entries, the second state has
    them too and [save] writes the same dictionary. *)
Definition saved_kept {Board Ant : Type} (m m' : @BlobManager Board Ant) : Prop :=
  dict_get "food" (knowledge m) <> None ->
  dict_get "max_scouters" (knowledge m) <> None ->
  persisted (knowledge m') = persisted (knowledge m) /\
  dict_get "food" (knowledge m') <> None /\
  dict_get "max_scouters" (knowledge m') <> None.

(** A document whose quota is negative on the trap board: the blob
    weighs -100000 and the minimum is -5. *)
Definition negative_document : list (string * json) :=
  [("Global Decrease", JFloat 2); ("Remaining Blob on Food", JFloat 0);
   ("Computing", computing (-100000) 0 0 1); ("Scouters", JObj [("Min", JInt (-5))])].

(** The identities of the scouters, in the order of the list. *)
Definition ids {Board Ant : Type} (m : @BlobManager Board Ant) : list nat :=
  map sid (scouters m).

(** The scouters are distinct objects, created before the next one. *)
Definition ids_fresh {Board Ant : Type} (m : @BlobManager Board Ant) : Prop :=
  NoDup (ids m) /\ Forall (fun i => (i < next_id m)%nat) (ids m).

(** The second state has the scouters of the first, as objects. *)
Definition same_objects {Board Ant : Type} (m m' : @BlobManager Board Ant) : Prop :=
  scouters m' = scouters m /\ next_id m' = next_id m.

(** From distinct objects a step leaves distinct objects: scouters of
    before, or objects created since. *)
Definition ids_step {Board Ant : Type} (m m' : @BlobManager Board Ant) : Prop :=
  ids_fresh m ->
  ids_fresh m' /\ (next_id m <= next_id m')%nat /\
  forall i, In i (ids m') -> In i (ids m) \/ (next_id m <= i)%nat.

(** The state of a colony built on the board [b] from the document
    [doc]: the knowledge holds the entries of the document, the food
    found on the board followed by the food discovered since, without
    repetition, and a quota that is at least the configured minimum;
    the scouters are distinct objects, as many as the quota. *)
Definition settled {Board Ant : Type} {BO : BoardOps Board}
    (doc : list (string * json)) (b : Board) (m : @BlobManager Board Ant) : Prop :=
  holds doc m /\ ids_fresh m /\
  (exists extra,
     dict_get "food" (knowledge m) = Some (FoodList (board_food b ++ extra)) /\
     NoDup (board_food b ++ extra)) /\
  (exists quota minimum,
     get_max m = Ok (quota, m) /\ scouters_min m = Ok (minimum, m) /\
     minimum <= quota /\ population m = Z.max 0 quota).

(** The knowledge has what a tick reads besides the entries of the
    quota: the stored quota and the two numbers of the decay. *)
Definition configured {Board Ant : Type}
    (m : @BlobManager Board Ant) : Prop :=
  (exists old, dict_get "max_scouters" (knowledge m) = Some (Count old)) /\
  (exists j q, item "Global Decrease" m = Ok (j, m) /\ as_number j = Ok q) /\
  (exists j q, item "Remaining Blob on Food" m = Ok (j, m) /\ as_number j = Ok q).

(** The stored quota is the same in both states. *)
Definition quota_kept {Board Ant : Type} (m m' : @BlobManager Board Ant) : Prop :=
  dict_get "max_scouters" (knowledge m') = dict_get "max_scouters" (knowledge m).

(** The document has the number [v] at a path of keys. *)
Definition number_at (doc : list (string * json)) (path : list string) (v : number) : Prop :=
  exists j, field (loaded doc) path = Ok j /\ as_number j = Ok v.

(** The quota is defined for a document on a board with some known
    food: the document has numbers for the four factors and an integer
    for the minimum, and the formula has a value, with these factors,
    that is neither an infinity nor a NaN. *)
Definition quota_defined {Board : Type} {BO : BoardOps Board}
    (doc : list (string * json)) (b : Board) (food : list (Z * Z)) : Prop :=
  exists blob_size covering known_foods global j z t n,
    number_at doc ["Computing"; "Blob Size Factor"] blob_size /\
    number_at doc ["Computing"; "Covering Factor"] covering /\
    number_at doc ["Computing"; "Known Foods Factor"] known_foods /\
    number_at doc ["Computing"; "Global Factor"] global /\
    field (loaded doc) ["Scouters"; "Min"] = Ok j /\ as_int j = Ok z /\
    total_scouters b blob_size covering known_foods global food = Ok t /\
    int_of t = Ok n.

(** [add_scouter] finds a square for a new scouter: some food is known,
    or no touched square of the board has a negative blob. *)
Definition can_spawn {Board : Type} {BO : BoardOps Board} (b : Board)
    (food : list (Z * Z)) : Prop :=
  food <> [] \/ forall x y, is_touched b x y = true -> (0 <= get_blob b x y)%Q.

(** * Properties *)

(** ** Dictionaries *)

Section DictFacts.
Context {V : Type}.
Implicit Types (d : list (string * V)) (k : string) (v : V).

Lemma dict_get_set_same k v d : dict_get k (dict_set k v d) = Some v.
Proof.
  induction d as [|[k' v'] d IH]; simpl.
  - now rewrite String.eqb_refl.
  - destruct (String.eqb k k') eqn:E; simpl; rewrite E; auto.
Qed.

Lemma dict_get_set_other k k' v d :
  k <> k' -> dict_get k (dict_set k' v d) = dict_get k d.
Proof.
  intros N. induction d as [|[k0 v0] d IH]; simpl.
  - apply String.eqb_neq in N. now rewrite N.
  - destruct (String.eqb k' k0) eqn:E; simpl.
    + apply String.eqb_eq in E. subst k0.
      apply String.eqb_neq in N. now rewrite N.
    + now rewrite IH.
Qed.

Lemma keys_set_present k v d :
  dict_get k d <> None -> keys (dict_set k v d) = keys d.
Proof.
  induction d as [|[k0 v0] d IH]; simpl; intros G.
  - congruence.
  - destruct (String.eqb k k0) eqn:E; simpl; auto.
    unfold keys in *. simpl. f_equal. auto.
Qed.

Lemma dict_set_absent k v d :
  dict_get k d = None -> dict_set k v d = d ++ [(k, v)].
Proof.
  induction d as [|[k0 v0] d IH]; simpl; intros G; auto.
  destruct (String.eqb k k0); [discriminate|]. now rewrite IH.
Qed.

Lemma dict_get_none_keys k d : dict_get k d = None <-> ~ In k (keys d).
Proof.
  induction d as [|[k0 v0] d IH]; simpl.
  - tauto.
  - destruct (String.eqb_spec k k0) as [->|N].
    + split; [discriminate | intros G; exfalso; apply G; now left].
    + rewrite IH. split; intros G; [intros [C|C]; [congruence | tauto] | tauto].
Qed.

Lemma dict_get_in k v d : dict_get k d = Some v -> In (k, v) d.
Proof.
  induction d as [|[k0 v0] d IH]; simpl; [discriminate|].
  destruct (String.eqb_spec k k0) as [->|N]; intros G.
  - injection G as ->. now left.
  - right. auto.
Qed.

Lemma dict_del_present k v d :
  dict_get k d = Some v -> exists d', dict_del k d = Ok d'.
Proof.
  induction d as [|[k0 v0] d IH]; simpl; [discriminate|].
  destruct (String.eqb k k0); intros G.
  - eauto.
  - destruct (IH G) as [d' ->]. simpl. eauto.
Qed.

Lemma dict_del_absent k d : dict_get k d = None -> dict_del k d = Raise (KeyError k).
Proof.
  induction d as [|[k0 v0] d IH]; simpl; auto.
  destruct (String.eqb k k0); [discriminate|]. intros G. now rewrite IH.
Qed.

Lemma dict_get_del_other k k' d d' :
  dict_del k' d = Ok d' -> k <> k' -> dict_get k d' = dict_get k d.
Proof.
  revert d'. induction d as [|[k0 v0] d IH]; simpl; intros d' D N; [discriminate|].
  destruct (String.eqb_spec k' k0) as [->|N0].
  - injection D as ->. apply String.eqb_neq in N. now rewrite N.
  - destruct (dict_del k' d) as [r|e]; simpl in D; [|discriminate].
    injection D as <-. simpl. now rewrite (IH r).
Qed.
End DictFacts.

Section DictMap.
Context {V W : Type} (f : V -> W).

Abbreviation on_values := (on_values f).

Lemma dict_get_map k (d : list (string * V)) :
  dict_get k (map on_values d) = option_map f (dict_get k d).
Proof.
  induction d as [|[k0 v0] d IH]; simpl; auto.
  destruct (String.eqb k k0); auto.
Qed.

Lemma dict_set_map k v (d : list (string * V)) :
  dict_set k (f v) (map on_values d) = map on_values (dict_set k v d).
Proof.
  induction d as [|[k0 v0] d IH]; simpl; auto.
  destruct (String.eqb k k0); simpl; auto. now rewrite IH.
Qed.

Lemma dict_update_map (d new : list (string * V)) :
  dict_update (map on_values d) (map on_values new) = map on_values (dict_update d new).
Proof.
  unfold dict_update. revert d. induction new as [|[k v] new IH]; simpl; intros d; auto.
  rewrite dict_set_map. apply IH.
Qed.

Lemma dict_del_map k (d : list (string * V)) :
  dict_del k (map on_values d)
  = result_bind (dict_del k d) (fun r => Ok (map on_values r)).
Proof.
  induction d as [|[k0 v0] d IH]; simpl; auto.
  destruct (String.eqb k k0); simpl; auto.
  rewrite IH. destruct (dict_del k d); reflexivity.
Qed.
End DictMap.

Section DictOrder.
Context {V : Type}.
Implicit Types (d : list (string * V)) (k : string) (v : V).

Lemma dict_get_of_in k v d : NoDup (keys d) -> In (k, v) d -> dict_get k d = Some v.
Proof.
  induction d as [|[k0 v0] d IH]; simpl; intros ND I; [tauto|].
  inversion ND; subst.
  destruct I as [I|I].
  - injection I as -> ->. now rewrite String.eqb_refl.
  - destruct (String.eqb_spec k k0) as [->|N]; auto.
    exfalso. apply H1. apply (in_map fst) in I. exact I.
Qed.

(** Looking a key up does not depend on the order of the items. *)
Lemma dict_get_permutation k d d' :
  Permutation d d' -> NoDup (keys d) -> dict_get k d = dict_get k d'.
Proof.
  intros P ND.
  assert (ND' : NoDup (keys d')).
  { eapply Permutation_NoDup; [|exact ND]. now apply Permutation_map. }
  destruct (dict_get k d) as [v|] eqn:G.
  - symmetry. apply dict_get_of_in; auto.
    eapply Permutation_in; [exact P|]. now apply dict_get_in.
  - symmetry. apply dict_get_none_keys. apply dict_get_none_keys in G.
    intros I. apply G. eapply Permutation_in; [|exact I].
    apply Permutation_sym. now apply Permutation_map.
Qed.

Lemma dict_del_split k d r :
  dict_del k d = Ok r ->
  exists pre v post, d = pre ++ (k, v) :: post /\ ~ In k (keys pre) /\ r = pre ++ post.
Proof.
  revert r. induction d as [|[k0 v0] d IH]; simpl; intros r E; [discriminate|].
  destruct (String.eqb_spec k k0) as [->|N].
  - injection E as <-. exists [], v0, d. simpl. auto.
  - destruct (dict_del k d) as [r'|]; simpl in E; [|discriminate].
    injection E as <-. destruct (IH r' eq_refl) as (pre & v & post & -> & NI & ->).
    exists ((k0, v0) :: pre), v, post. simpl. repeat split; auto.
    intros [C|C]; auto.
Qed.

Lemma dict_del_app k v pre post :
  ~ In k (keys pre) -> dict_del k (pre ++ (k, v) :: post) = Ok (pre ++ post).
Proof.
  induction pre as [|[k0 v0] pre IH]; simpl; intros NI.
  - now rewrite String.eqb_refl.
  - destruct (String.eqb_spec k k0) as [->|N]; [tauto|].
    rewrite IH by tauto. reflexivity.
Qed.

Lemma keys_app d d' : keys (d ++ d') = keys d ++ keys d'.
Proof. apply map_app. Qed.

(** Deleting a key of a dictionary with distinct keys leaves no item
    under it. *)
Lemma dict_del_gone k d r :
  NoDup (keys d) -> dict_del k d = Ok r -> dict_get k r = None /\ NoDup (keys r).
Proof.
  intros ND E. destruct (dict_del_split _ _ _ E) as (pre & v & post & -> & NI & ->).
  rewrite keys_app in ND. simpl in ND. split.
  - apply dict_get_none_keys. rewrite keys_app.
    apply NoDup_remove_2 in ND. exact ND.
  - rewrite keys_app. now apply NoDup_remove_1 in ND.
Qed.
End DictOrder.

(** ** The order of keys *)

Lemma leb_trans (a b c : string) :
  String.leb a b = true -> String.leb b c = true -> String.leb a c = true.
Proof.
  unfold String.leb.
  destruct (String.compare a b) eqn:E1; try discriminate;
    destruct (String.compare b c) eqn:E2; try discriminate; intros _ _.
  - apply String_as_OT.cmp_eq in E1, E2. subst.
    pose proof (proj2 (String_as_OT.cmp_eq c c) eq_refl) as E.
    unfold String_as_OT.cmp in E. now rewrite E.
  - apply String_as_OT.cmp_eq in E1. subst. now rewrite E2.
  - apply String_as_OT.cmp_eq in E2. subst. now rewrite E1.
  - apply String_as_OT.cmp_lt in E1, E2.
    pose proof (String_as_OT.lt_trans _ _ _ E1 E2) as L.
    apply String_as_OT.cmp_lt in L. unfold String_as_OT.cmp in L. now rewrite L.
Qed.

Lemma leb_false_flip (a b : string) : String.leb a b = false -> String.leb b a = true.
Proof. intros E. destruct (String.leb_total a b); congruence. Qed.

Section Sorting.
Context {V : Type}.
Implicit Types (a b : string * V) (l : list (string * V)).

Lemma insert_item_swap a b l :
  fst a <> fst b ->
  insert_item a (insert_item b l) = insert_item b (insert_item a l).
Proof.
  intros N. induction l as [|c l IH]; simpl.
  - destruct (String.leb (fst a) (fst b)) eqn:E1;
      destruct (String.leb (fst b) (fst a)) eqn:E2; auto.
    + exfalso. apply N. now apply String.leb_antisym.
    + apply leb_false_flip in E1. congruence.
  - destruct (String.leb (fst b) (fst c)) eqn:Eb;
      destruct (String.leb (fst a) (fst c)) eqn:Ea; simpl;
      rewrite ?Ea, ?Eb.
    + destruct (String.leb (fst a) (fst b)) eqn:E1;
        destruct (String.leb (fst b) (fst a)) eqn:E2; auto.
      * exfalso. apply N. now apply String.leb_antisym.
      * apply leb_false_flip in E1. congruence.
    + assert (String.leb (fst a) (fst b) = false) as ->.
      { destruct (String.leb (fst a) (fst b)) eqn:E; auto.
        rewrite (leb_trans _ _ _ E Eb) in Ea. discriminate. }
      simpl; rewrite ?Ea; reflexivity.
    + assert (String.leb (fst b) (fst a) = false) as ->.
      { destruct (String.leb (fst b) (fst a)) eqn:E; auto.
        rewrite (leb_trans _ _ _ E Ea) in Eb. discriminate. }
      simpl; rewrite ?Eb; reflexivity.
    + now rewrite IH.
Qed.

(** Sorting forgets the order of the items when the keys are distinct. *)
Lemma sorted_items_permutation l l' :
  Permutation l l' -> NoDup (map fst l) -> sorted_items l = sorted_items l'.
Proof.
  induction 1 as [|a l l' P IH|a b l|l1 l2 l3 P1 IH1 P2 IH2]; simpl; intros ND.
  - reflexivity.
  - inversion ND; subst. now rewrite IH.
  - apply insert_item_swap. inversion ND; subst. simpl in *. intros E. apply H1. now left.
  - rewrite IH1 by auto. apply IH2.
    eapply Permutation_NoDup; [|exact ND]. now apply Permutation_map.
Qed.
End Sorting.

Lemma distinct_NoDup (l : list string) : distinct l = true <-> NoDup l.
Proof.
  induction l as [|k l IH]; simpl.
  - split; [constructor | reflexivity].
  - rewrite andb_true_iff, negb_true_iff, IH. split.
    + intros [E ND]. constructor; auto. intros I.
      assert (existsb (String.eqb k) l = true).
      { apply existsb_exists. exists k. split; auto. apply String.eqb_refl. }
      congruence.
    + intros ND. inversion ND; subst. split; auto.
      destruct (existsb (String.eqb k) l) eqn:E; auto.
      apply existsb_exists in E. destruct E as (x & I & E).
      apply String.eqb_eq in E. subst. tauto.
Qed.

(** ** JSON values *)

Lemma json_induction (P : json -> Prop) :
  P JNull -> (forall b, P (JBool b)) -> (forall z, P (JInt z)) ->
  (forall q, P (JFloat q)) -> (forall s, P (JStr s)) ->
  (forall l, Forall P l -> P (JArr l)) ->
  (forall l, Forall (fun kv => P (snd kv)) l -> P (JObj l)) ->
  forall j, P j.
Proof.
  intros HN HB HI HF HS HA HO.
  fix IH 1. intros [|b|z|q|s|l|l].
  - exact HN.
  - apply HB.
  - apply HI.
  - apply HF.
  - apply HS.
  - apply HA. induction l as [|j l IHl]; constructor; [apply IH | exact IHl].
  - apply HO. induction l as [|[k j] l IHl]; constructor; [apply IH | exact IHl].
Qed.

Lemma well_formed_obj l :
  well_formed (JObj l) = true <->
  NoDup (map fst l) /\ forall kv, In kv l -> well_formed (snd kv) = true.
Proof.
  simpl. rewrite andb_true_iff, distinct_NoDup, forallb_forall. tauto.
Qed.

Lemma well_formed_arr l :
  well_formed (JArr l) = true <-> forall j, In j l -> well_formed j = true.
Proof. simpl. now rewrite forallb_forall. Qed.

(** Items that agree: the same key, and values that agree. *)
Lemma equiv_obj_inv l1 l2 :
  json_equiv (JObj l1) (JObj l2) ->
  exists l2', Permutation l2' l2 /\
    Forall2 (fun a b => fst a = fst b /\ json_equiv (snd a) (snd b)) l1 l2'.
Proof.
  intros E. inversion E; subst.
  - exists l2. split; auto. clear E. induction l2; constructor; auto.
    split; auto. constructor.
  - eauto.
Qed.

Lemma equiv_arr_inv l1 l2 :
  json_equiv (JArr l1) (JArr l2) -> Forall2 json_equiv l1 l2.
Proof.
  intros E. inversion E; subst; auto.
  clear E. induction l2; constructor; auto. constructor.
Qed.

Lemma equiv_keys l1 l2 :
  Forall2 (fun a b : string * json => fst a = fst b /\ json_equiv (snd a) (snd b)) l1 l2 ->
  map fst l1 = map fst l2.
Proof. induction 1 as [|a b l1 l2 [E _] _ IH]; simpl; congruence. Qed.

Section EncodeFacts.
Variable float_repr : float -> string.

Lemma encode_arr level l :
  encode float_repr level (JArr l) =
  match l with
  | [] => "[]"
  | _ => ("[" ++ newline_indent (S level)
             ++ String.concat ("," ++ newline_indent (S level))
                  (map (encode float_repr (S level)) l)
             ++ newline_indent level ++ "]")%string
  end.
Proof. destruct l; reflexivity. Qed.

Lemma encode_obj level l :
  encode float_repr level (JObj l) =
  match l with
  | [] => "{}"
  | _ => ("{" ++ newline_indent (S level)
             ++ String.concat ("," ++ newline_indent (S level))
                  (map (fun kv => encode_str (fst kv) ++ ": " ++ snd kv)
                     (sorted_items (map (on_values (encode float_repr (S level))) l)))
             ++ newline_indent level ++ "}")%string
  end.
Proof. destruct l; reflexivity. Qed.

(** Values that agree up to the order of keys have the same text. *)
Lemma encode_equiv a :
  forall b level, json_equiv a b -> well_formed b = true ->
                  encode float_repr level a = encode float_repr level b.
Proof.
  induction a as [|b0|z|q|s|l1 IH|l1 IH] using json_induction; intros b level E W;
    try (inversion E; subst; reflexivity).
  - destruct b as [| | | | |l2|]; try (inversion E; fail).
    apply equiv_arr_inv in E. rewrite well_formed_arr in W.
    rewrite !encode_arr.
    assert (M : map (encode float_repr (S level)) l1 = map (encode float_repr (S level)) l2).
    { clear - IH E W. induction E as [|x y l1 l2 Exy E IHE]; simpl; auto.
      inversion IH; subst. f_equal.
      - apply H1; auto. apply W. now left.
      - apply IHE; auto. intros j I. apply W. now right. }
    rewrite M. destruct E; reflexivity.
  - destruct b as [| | | | | |l2]; try (inversion E; fail).
    apply equiv_obj_inv in E. destruct E as (l2' & P & E).
    rewrite well_formed_obj in W. destruct W as [ND W].
    rewrite !encode_obj.
    assert (M : map (on_values (encode float_repr (S level))) l1
                = map (on_values (encode float_repr (S level))) l2').
    { assert (W' : forall kv, In kv l2' -> well_formed (snd kv) = true).
      { intros kv I. apply W. eapply Permutation_in; eauto. }
      clear - IH E W'. induction E as [|x y l1 l2 [Ek Ev] E IHE]; simpl; auto.
      inversion IH; subst. f_equal.
      - unfold on_values. f_equal; auto. apply H1; auto. apply W'. now left.
      - apply IHE; auto. intros kv I. apply W'. now right. }
    rewrite M.
    assert (S : sorted_items (map (on_values (encode float_repr (S level))) l2')
                = sorted_items (map (on_values (encode float_repr (S level))) l2)).
    { apply sorted_items_permutation.
      - now apply Permutation_map.
      - rewrite map_map. simpl.
        eapply Permutation_NoDup; [|exact ND].
        apply Permutation_sym. now apply Permutation_map. }
    rewrite S.
    assert (L : List.length l1 = List.length l2).
    { rewrite <- (Permutation_length P). eapply Forall2_length; eauto. }
    destruct l1, l2; simpl in L; try discriminate; reflexivity.
Qed.
End EncodeFacts.

(** *** Reading values that agree up to the order of keys *)

Lemma dict_get_agree k (l1 l2 : list (string * json)) v :
  Forall2 (fun a b => fst a = fst b /\ json_equiv (snd a) (snd b)) l1 l2 ->
  dict_get k l1 = Some v ->
  exists v', dict_get k l2 = Some v' /\ json_equiv v v'.
Proof.
  induction 1 as [|[k1 v1] [k2 v2] l1 l2 [Ek Ev] _ IH]; simpl in *; [discriminate|].
  subst k2. destruct (String.eqb k k1); auto.
  intros [= <-]. eauto.
Qed.

Lemma dict_get_equiv k l1 l2 v :
  json_equiv (JObj l1) (JObj l2) -> NoDup (keys l2) ->
  dict_get k l1 = Some v ->
  exists v', dict_get k l2 = Some v' /\ json_equiv v v'.
Proof.
  intros E ND G. apply equiv_obj_inv in E. destruct E as (l2' & P & E).
  destruct (dict_get_agree k _ _ _ E G) as (v' & G' & Ev).
  exists v'. split; auto. rewrite <- G'. symmetry.
  apply dict_get_permutation; auto.
  eapply Permutation_NoDup; [|exact ND].
  apply Permutation_sym. now apply Permutation_map.
Qed.

Lemma subscript_equiv a b k x :
  json_equiv a b -> well_formed b = true -> subscript a k = Ok x ->
  exists y, subscript b k = Ok y /\ json_equiv x y /\ well_formed y = true.
Proof.
  intros E W S.
  destruct a as [| | | | | |l1]; try discriminate.
  destruct b as [| | | | | |l2]; try (inversion E; fail).
  simpl in S. destruct (dict_get k l1) as [v|] eqn:G; [|discriminate].
  injection S as <-. apply well_formed_obj in W. destruct W as [ND W].
  destruct (dict_get_equiv k l1 l2 v E ND G) as (v' & G' & Ev).
  exists v'. simpl. rewrite G'. repeat split; auto.
  apply (W (k, v')). now apply dict_get_in.
Qed.

Lemma as_number_equiv x y : json_equiv x y -> as_number x = as_number y.
Proof. intros E. inversion E; subst; reflexivity. Qed.

Lemma as_int_equiv x y : json_equiv x y -> as_int x = as_int y.
Proof. intros E. inversion E; subst; reflexivity. Qed.

Lemma dict_del_equiv k l1 l2 d1 :
  json_equiv (JObj l1) (JObj l2) -> NoDup (keys l2) ->
  dict_del k l1 = Ok d1 ->
  exists d2, dict_del k l2 = Ok d2 /\ json_equiv (JObj d1) (JObj d2).
Proof.
  intros E ND D. apply equiv_obj_inv in E. destruct E as (l2' & P & E).
  destruct (dict_del_split _ _ _ D) as (pre & v & post & -> & NI & ->).
  apply Forall2_app_inv_l in E. destruct E as (pre' & rest & Epre & Erest & ->).
  inversion Erest as [|a [k' v'] post0 post' [Ek Ev] Epost]; subst. simpl in Ek. subst k'.
  assert (I : In (k, v') l2).
  { eapply Permutation_in; [exact P|]. apply in_or_app. right. now left. }
  apply in_split in I. destruct I as (p2 & q2 & ->).
  assert (NI2 : ~ In k (keys p2)).
  { rewrite keys_app in ND. simpl in ND. apply NoDup_remove_2 in ND.
    intros C. apply ND. apply in_or_app. now left. }
  exists (p2 ++ q2). split; [now apply dict_del_app|].
  apply equiv_obj with (l2' := pre' ++ post').
  - eapply Permutation_app_inv. exact P.
  - now apply Forall2_app.
Qed.

Lemma well_formed_del k l r :
  well_formed (JObj l) = true -> dict_del k l = Ok r -> well_formed (JObj r) = true.
Proof.
  rewrite !well_formed_obj. intros [ND W] D.
  destruct (dict_del_gone _ _ _ ND D) as [_ ND'].
  split; [exact ND'|].
  destruct (dict_del_split _ _ _ D) as (pre & v & post & -> & _ & ->).
  intros kv I. apply W. apply in_app_or in I. apply in_or_app. simpl. tauto.
Qed.

Lemma equiv_distinct l1 l2 :
  json_equiv (JObj l1) (JObj l2) -> NoDup (keys l2) -> NoDup (keys l1).
Proof.
  intros E ND. apply equiv_obj_inv in E. destruct E as (l2' & P & E).
  unfold keys in *. rewrite (equiv_keys _ _ E).
  eapply Permutation_NoDup; [|exact ND].
  apply Permutation_sym. now apply Permutation_map.
Qed.

Lemma equiv_get_none k l1 l2 :
  json_equiv (JObj l1) (JObj l2) -> dict_get k l1 = None -> dict_get k l2 = None.
Proof.
  intros E G. apply equiv_obj_inv in E. destruct E as (l2' & P & E).
  apply dict_get_none_keys. apply dict_get_none_keys in G.
  intros I. apply G. unfold keys in *. rewrite (equiv_keys _ _ E).
  eapply Permutation_in; [|exact I]. apply Permutation_sym. now apply Permutation_map.
Qed.

(** *** The dictionary [save] writes *)

Lemma persisted_equiv k1 k2 d1 :
  json_equiv (JObj (view k1)) (JObj (view k2)) ->
  well_formed (JObj (view k2)) = true ->
  persisted k1 = Ok d1 ->
  exists d2, persisted k2 = Ok d2 /\ json_equiv (JObj d1) (JObj d2) /\
             well_formed (JObj d2) = true.
Proof.
  intros E W. unfold persisted.
  destruct (dict_del "food" (view k1)) as [a1|] eqn:D1; simpl; [|discriminate].
  intros D1'.
  pose proof W as W0. apply well_formed_obj in W0. destruct W0 as [ND _].
  destruct (dict_del_equiv _ _ _ _ E ND D1) as (a2 & D2 & E2).
  pose proof (well_formed_del _ _ _ W D2) as W2.
  pose proof W2 as W2'. apply well_formed_obj in W2'. destruct W2' as [ND2 _].
  destruct (dict_del_equiv _ _ _ _ E2 ND2 D1') as (d2 & D2' & E2').
  exists d2. rewrite D2. simpl. repeat split; auto.
  eapply well_formed_del; eauto.
Qed.

Lemma persisted_lacks k d :
  NoDup (keys (view k)) -> persisted k = Ok d ->
  dict_get "food" d = None /\ dict_get "max_scouters" d = None /\ NoDup (keys d).
Proof.
  intros ND. unfold persisted.
  destruct (dict_del "food" (view k)) as [a|] eqn:D1; simpl; [|discriminate].
  intros D2.
  destruct (dict_del_gone _ _ _ ND D1) as [G1 ND1].
  destruct (dict_del_gone _ _ _ ND1 D2) as [G2 ND2].
  repeat split; auto.
  rewrite (dict_get_del_other _ _ _ _ D2); auto. discriminate.
Qed.

Lemma persisted_get k d key j :
  persisted k = Ok d -> key <> "food" -> key <> "max_scouters" ->
  dict_get key k = Some (Loaded j) -> dict_get key d = Some j.
Proof.
  unfold persisted.
  destruct (dict_del "food" (view k)) as [a|] eqn:D1; simpl; [|discriminate].
  intros D2 N1 N2 G.
  rewrite (dict_get_del_other _ _ _ _ D2), (dict_get_del_other _ _ _ _ D1) by auto.
  unfold view. rewrite dict_get_map, G. reflexivity.
Qed.

Lemma view_loaded (doc : list (string * json)) : view (map (on_values Loaded) doc) = doc.
Proof.
  unfold view. rewrite map_map.
  induction doc as [|[k v] doc IH]; simpl; [reflexivity|]. now rewrite IH.
Qed.

(** [dict.update] on an empty dictionary keeps a list of items with
    distinct keys as it is. *)
Lemma loaded_distinct (doc : list (string * json)) : NoDup (keys doc) -> loaded doc = doc.
Proof.
  unfold loaded, dict_update.
  assert (G : forall acc : list (string * json),
             NoDup (keys (acc ++ doc)) ->
             fold_left (fun acc kv => dict_set (fst kv) (snd kv) acc) doc acc = acc ++ doc).
  { induction doc as [|[k v] doc IH]; simpl; intros acc ND.
    - now rewrite app_nil_r.
    - rewrite dict_set_absent.
      + rewrite IH; rewrite <- app_assoc; auto.
      + apply dict_get_none_keys. rewrite keys_app in ND. simpl in ND.
        apply NoDup_remove_2 in ND. intros C. apply ND. apply in_or_app. now left. }
  intros ND. now apply (G []).
Qed.


(** ** The decoder on the text of the encoder *)

Lemma append_assoc (a b c : string) : ((a ++ b) ++ c = a ++ (b ++ c))%string.
Proof. induction a as [|x a IH]; simpl; congruence. Qed.

Lemma length_append (a b : string) :
  String.length (a ++ b) = (String.length a + String.length b)%nat.
Proof. induction a as [|x a IH]; simpl; congruence. Qed.

Lemma skip_whitespace_spaces n s : skip_whitespace (spaces n ++ s) = skip_whitespace s.
Proof. induction n as [|n IH]; simpl; auto. Qed.

Lemma skip_whitespace_indent level s :
  skip_whitespace (newline_indent level ++ s) = skip_whitespace s.
Proof.
  unfold newline_indent. rewrite append_assoc. simpl. apply skip_whitespace_spaces.
Qed.

(** *** Strings *)

Lemma scan_string_escape_char c t :
  scan_string (escape_char c ++ t) = prepend c (scan_string t).
Proof.
  destruct c as [[] [] [] [] [] [] [] []]; reflexivity.
Qed.

Lemma scan_string_escape s rest :
  scan_string (escape s ++ quote ++ rest) = Some (s, rest).
Proof.
  induction s as [|c s IH].
  - reflexivity.
  - cbn [escape]. rewrite append_assoc, scan_string_escape_char, IH. reflexivity.
Qed.

(** *** Numbers *)

Lemma ends_value_cases rest :
  ends_value rest = true ->
  rest = "" \/ exists r, rest = String (ascii_of_nat 44) r \/ rest = String (ascii_of_nat 10) r.
Proof.
  destruct rest as [|c r]; simpl; [auto|]. intros H. right. exists r.
  apply orb_true_iff in H. destruct H as [H|H]; apply Nat.eqb_eq in H;
    rewrite <- (ascii_nat_embedding c), H; auto.
Qed.

Ltac ends_cases H :=
  apply ends_value_cases in H; destruct H as [->|(? & [->| ->])].

Lemma scan_digits_end rest : ends_value rest = true -> scan_digits rest = ("", rest).
Proof. intros H. ends_cases H; reflexivity. Qed.

Lemma scan_frac_end rest : ends_value rest = true -> scan_frac rest = ("", rest).
Proof. intros H. ends_cases H; reflexivity. Qed.

Lemma scan_exp_end rest : ends_value rest = true -> scan_exp rest = ("", rest).
Proof. intros H. ends_cases H; reflexivity. Qed.

Lemma scan_integer_end rest : ends_value rest = true -> scan_integer rest = None.
Proof. intros H. ends_cases H; reflexivity. Qed.

(** The scanners on a text followed by the end of a value. *)
Lemma scan_digits_app s rest d r :
  scan_digits s = (d, r) -> ends_value rest = true ->
  scan_digits (s ++ rest) = (d, (r ++ rest)%string).
Proof.
  intros E H. revert d r E. induction s as [|c s IH]; simpl; intros d r E.
  - injection E as <- <-. now apply scan_digits_end.
  - destruct (is_digit c).
    + destruct (scan_digits s) as [d' r'] eqn:S. injection E as <- <-.
      now rewrite (IH d' r' eq_refl).
    + injection E as <- <-. reflexivity.
Qed.

Lemma scan_digits_text s d r : scan_digits s = (d, r) -> s = (d ++ r)%string.
Proof.
  revert d r. induction s as [|c s IH]; simpl; intros d r E.
  - now injection E as <- <-.
  - destruct (is_digit c).
    + destruct (scan_digits s) as [d' r'] eqn:S. injection E as <- <-.
      simpl. f_equal. now apply IH.
    + now injection E as <- <-.
Qed.

Lemma scan_unsigned_app s rest i r :
  scan_unsigned s = Some (i, r) -> ends_value rest = true ->
  scan_unsigned (s ++ rest) = Some (i, (r ++ rest)%string).
Proof.
  intros E H. destruct s as [|c s]; [discriminate|].
  unfold scan_unsigned in *. cbn [append].
  destruct (Ascii.eqb c "0"); [now injection E as <- <-|].
  destruct (is_digit c); [|discriminate].
  injection E as E.
  change (String c (s ++ rest)) with (String c s ++ rest)%string.
  now rewrite (scan_digits_app (String c s) rest i r E H).
Qed.

Lemma scan_unsigned_text s i r : scan_unsigned s = Some (i, r) -> s = (i ++ r)%string.
Proof.
  destruct s as [|c s]; [discriminate|]. unfold scan_unsigned.
  destruct (Ascii.eqb_spec c "0") as [->|N]; [now intros [= <- <-]|].
  destruct (is_digit c); [|discriminate].
  intros [= E]. exact (scan_digits_text (String c s) i r E).
Qed.

Lemma scan_integer_app s rest i r :
  scan_integer s = Some (i, r) -> ends_value rest = true ->
  scan_integer (s ++ rest) = Some (i, (r ++ rest)%string).
Proof.
  intros E H. destruct s as [|c s]; [discriminate|].
  unfold scan_integer in *. cbn [append].
  destruct (Ascii.eqb c "-").
  - destruct (scan_unsigned s) as [[d r']|] eqn:U; [|discriminate].
    rewrite (scan_unsigned_app _ _ _ _ U H). now injection E as <- <-.
  - change (String c (s ++ rest)) with (String c s ++ rest)%string.
    now apply scan_unsigned_app.
Qed.

Lemma scan_integer_text s i r : scan_integer s = Some (i, r) -> s = (i ++ r)%string.
Proof.
  destruct s as [|c s]; [discriminate|]. unfold scan_integer.
  destruct (Ascii.eqb c "-").
  - destruct (scan_unsigned s) as [[d r']|] eqn:U; [|discriminate].
    apply scan_unsigned_text in U. intros [= <- <-]. simpl. congruence.
  - apply scan_unsigned_text.
Qed.

Lemma scan_frac_app s rest f r :
  scan_frac s = (f, r) -> ends_value rest = true ->
  scan_frac (s ++ rest) = (f, (r ++ rest)%string).
Proof.
  intros E H. destruct s as [|c s]; simpl in *.
  - injection E as <- <-. now apply scan_frac_end.
  - destruct (Ascii.eqb c ".").
    + destruct (scan_digits s) as [d' r'] eqn:S.
      rewrite (scan_digits_app _ _ _ _ S H).
      destruct d'; now injection E as <- <-.
    + now injection E as <- <-.
Qed.

Lemma scan_frac_text s f r : scan_frac s = (f, r) -> s = (f ++ r)%string.
Proof.
  destruct s as [|c s]; simpl; intros E.
  - now injection E as <- <-.
  - destruct (Ascii.eqb c ".").
    + destruct (scan_digits s) as [d' r'] eqn:S. apply scan_digits_text in S.
      destruct d'; injection E as <- <-; simpl in *; congruence.
    + now injection E as <- <-.
Qed.

Lemma scan_sign_app s rest g r :
  scan_sign s = (g, r) -> ends_value rest = true ->
  scan_sign (s ++ rest) = (g, (r ++ rest)%string).
Proof.
  intros E H. destruct s as [|c s]; simpl in *.
  - injection E as <- <-. ends_cases H; reflexivity.
  - destruct (Ascii.eqb c "+" || Ascii.eqb c "-"); now injection E as <- <-.
Qed.

Lemma scan_sign_text s g r : scan_sign s = (g, r) -> s = (g ++ r)%string.
Proof.
  destruct s as [|c s]; simpl; intros E.
  - now injection E as <- <-.
  - destruct (Ascii.eqb c "+" || Ascii.eqb c "-"); now injection E as <- <-.
Qed.

Lemma scan_exp_app s rest e r :
  scan_exp s = (e, r) -> ends_value rest = true ->
  scan_exp (s ++ rest) = (e, (r ++ rest)%string).
Proof.
  intros E H. destruct s as [|c s].
  - injection E as <- <-. now apply scan_exp_end.
  - unfold scan_exp in *. cbn [append].
    destruct (Ascii.eqb c "e" || Ascii.eqb c "E"); [|now injection E as <- <-].
    destruct (scan_sign s) as [g s2] eqn:G. rewrite (scan_sign_app _ _ _ _ G H).
    destruct (scan_digits s2) as [d' r'] eqn:S. rewrite (scan_digits_app _ _ _ _ S H).
    destruct d'; now injection E as <- <-.
Qed.

Lemma scan_exp_text s e r : scan_exp s = (e, r) -> s = (e ++ r)%string.
Proof.
  destruct s as [|c s]; unfold scan_exp; intros E.
  - now injection E as <- <-.
  - destruct (Ascii.eqb c "e" || Ascii.eqb c "E"); [|now injection E as <- <-].
    destruct (scan_sign s) as [g s2] eqn:G. apply scan_sign_text in G.
    destruct (scan_digits s2) as [d' r'] eqn:S. apply scan_digits_text in S.
    destruct d'; injection E as <- <-; [reflexivity|].
    subst s s2. simpl. f_equal. now rewrite append_assoc.
Qed.

Lemma match_number_app s rest i f e r :
  match_number s = Some (i, f, e, r) -> ends_value rest = true ->
  match_number (s ++ rest) = Some (i, f, e, (r ++ rest)%string).
Proof.
  unfold match_number. intros E H.
  destruct (scan_integer s) as [[i' s1]|] eqn:I; [|discriminate].
  rewrite (scan_integer_app _ _ _ _ I H).
  destruct (scan_frac s1) as [f' s2] eqn:F. rewrite (scan_frac_app _ _ _ _ F H).
  destruct (scan_exp s2) as [e' s3] eqn:X. rewrite (scan_exp_app _ _ _ _ X H).
  now injection E as <- <- <- <-.
Qed.

Lemma match_number_text s i f e r :
  match_number s = Some (i, f, e, r) -> s = (i ++ f ++ e ++ r)%string.
Proof.
  unfold match_number. intros E.
  destruct (scan_integer s) as [[i' s1]|] eqn:I; [|discriminate].
  destruct (scan_frac s1) as [f' s2] eqn:F.
  destruct (scan_exp s2) as [e' s3] eqn:X.
  injection E as <- <- <- <-.
  apply scan_integer_text in I. apply scan_frac_text in F. apply scan_exp_text in X.
  congruence.
Qed.

Lemma append_empty (s : string) : (s ++ "")%string = s.
Proof. induction s as [|c s IH]; simpl; congruence. Qed.

(** The digits of a number, as [encode_int] writes them. *)
Lemma scan_digits_uint d :
  scan_digits (NilEmpty.string_of_uint d) = (NilEmpty.string_of_uint d, "").
Proof. induction d; simpl; rewrite ?IHd; reflexivity. Qed.

Lemma to_uint_head p d : Pos.to_uint p <> Decimal.D0 d.
Proof.
  intros E.
  assert (N : Pos.to_uint p = Decimal.unorm (Pos.to_uint p)).
  { rewrite <- DecimalPos.Unsigned.to_of, DecimalPos.Unsigned.of_to. reflexivity. }
  rewrite E, DecimalFacts.unorm_D0 in N. unfold Decimal.unorm in N.
  destruct (Decimal.nzhead d) eqn:Z; try discriminate.
  - injection N as ->. apply (DecimalPos.Unsigned.to_uint_nonzero p). exact E.
  - apply (DecimalFacts.nzhead_nonzero d u). congruence.
Qed.

Lemma scan_unsigned_pos p :
  scan_unsigned (NilZero.string_of_uint (Pos.to_uint p))
  = Some (NilZero.string_of_uint (Pos.to_uint p), "").
Proof.
  pose proof (to_uint_head p) as H.
  pose proof (DecimalPos.Unsigned.to_uint_nonnil p) as N.
  destruct (Pos.to_uint p) as [|d|d|d|d|d|d|d|d|d|d]; try congruence;
    try (exfalso; apply (H d); reflexivity);
    unfold NilZero.string_of_uint, NilEmpty.string_of_uint; fold NilEmpty.string_of_uint;
    unfold scan_unsigned; simpl; rewrite scan_digits_uint; reflexivity.
Qed.

Lemma scan_integer_int z : scan_integer (encode_int z) = Some (encode_int z, "").
Proof.
  unfold encode_int. destruct z as [|p|p]; simpl.
  - reflexivity.
  - pose proof (scan_unsigned_pos p) as U.
    destruct (NilZero.string_of_uint (Pos.to_uint p)) as [|c s] eqn:E; [discriminate|].
    unfold scan_integer.
    destruct (Ascii.eqb_spec c "-") as [->|_]; [|exact U].
    simpl in U. discriminate.
  - unfold scan_integer. simpl. now rewrite scan_unsigned_pos.
Qed.

Lemma int_of_encode_int z : NilZero.int_of_string (encode_int z) = Some (Z.to_int z).
Proof.
  unfold encode_int. apply NilZero.isi.
  - destruct z; simpl; try discriminate.
    intros [= E]. exact (DecimalPos.Unsigned.to_uint_nonnil _ E).
  - destruct z; simpl; try discriminate.
    intros [= E]. exact (DecimalPos.Unsigned.to_uint_nonnil _ E).
Qed.

Section Numbers.
Variable float_of_string : string -> float.

Lemma scan_number_int z rest :
  ends_value rest = true ->
  scan_number float_of_string (encode_int z ++ rest) = Some (JInt z, rest).
Proof.
  intros H. unfold scan_number.
  assert (M : match_number (encode_int z) = Some (encode_int z, "", "", "")%string).
  { unfold match_number. now rewrite scan_integer_int. }
  rewrite (match_number_app _ _ _ _ _ _ M H). simpl.
  now rewrite int_of_encode_int, DecimalZ.of_to.
Qed.

Lemma scan_number_float s rest :
  float_literal s = true -> ends_value rest = true ->
  scan_number float_of_string (s ++ rest) = Some (JFloat (float_of_string s), rest).
Proof.
  unfold float_literal. intros L H.
  destruct (match_number s) as [[[[i f] e] r]|] eqn:M; [|discriminate].
  destruct r; [|discriminate].
  pose proof (match_number_text _ _ _ _ _ M) as T. rewrite append_empty in T.
  unfold scan_number. rewrite (match_number_app _ _ _ _ _ _ M H). simpl.
  destruct f as [|a f]; [destruct e as [|b e]; [discriminate|]|]; now rewrite T.
Qed.

Lemma scan_integer_head s r : scan_integer s = Some r -> number_head s = true.
Proof.
  destruct s as [|c s]; [discriminate|]. unfold scan_integer, number_head.
  destruct (Ascii.eqb c "-"); [now rewrite orb_true_r|].
  unfold scan_unsigned. destruct (Ascii.eqb_spec c "0") as [->|_]; [reflexivity|].
  destruct (is_digit c); [reflexivity | discriminate].
Qed.

Lemma number_head_app s rest : number_head s = true -> number_head (s ++ rest) = true.
Proof. destruct s; [discriminate | auto]. Qed.

Lemma parse_value_number fuel s :
  number_head s = true ->
  parse_value float_of_string (S fuel) s
  = match scan_number float_of_string s with
    | Some r => Some r
    | None => scan_float_constant s
    end.
Proof.
  destruct s as [|c s]; [discriminate|]. unfold number_head.
  destruct c as [[] [] [] [] [] [] [] []]; intros H; try discriminate H; reflexivity.
Qed.
End Numbers.

(** *** Floats *)

Lemma nan_unique f : is_nan f = true -> f = nan.
Proof.
  unfold is_nan. intros H. apply negb_true_iff in H. rewrite eqb_spec in H.
  rewrite <- (SF2Prim_Prim2SF f).
  destruct (Prim2SF f) as [[]|[]| |[] m e]; try discriminate H; try reflexivity;
    unfold SFeqb, SFcompare in H; rewrite Z.compare_refl in H;
    fold (Pos.compare m m) in H; rewrite Pos.compare_refl in H; discriminate.
Qed.

Lemma infinity_unique f : PrimFloat.eqb f infinity = true -> f = infinity.
Proof.
  rewrite eqb_spec. intros H. rewrite <- (SF2Prim_Prim2SF f).
  change (Prim2SF infinity) with (S754_infinity false) in H.
  destruct (Prim2SF f) as [[]|[]| |[] m e]; simpl in H; try discriminate. reflexivity.
Qed.

Lemma neg_infinity_unique f : PrimFloat.eqb f neg_infinity = true -> f = neg_infinity.
Proof.
  rewrite eqb_spec. intros H. rewrite <- (SF2Prim_Prim2SF f).
  change (Prim2SF neg_infinity) with (S754_infinity true) in H.
  destruct (Prim2SF f) as [[]|[]| |[] m e]; simpl in H; try discriminate. reflexivity.
Qed.

(** *** Values *)

(** The items of a dictionary in the order of their keys. *)
Lemma insert_item_permutation {V} (a : string * V) l : Permutation (insert_item a l) (a :: l).
Proof.
  induction l as [|b l IH]; simpl; [reflexivity|].
  destruct (String.leb (fst a) (fst b)); [reflexivity|].
  rewrite IH. apply perm_swap.
Qed.

Lemma sorted_items_all {V} (l : list (string * V)) : Permutation (sorted_items l) l.
Proof.
  induction l as [|a l IH]; simpl; [reflexivity|].
  rewrite insert_item_permutation. now constructor.
Qed.

Lemma insert_item_map {V W} (f : V -> W) a (l : list (string * V)) :
  insert_item (on_values f a) (map (on_values f) l) = map (on_values f) (insert_item a l).
Proof.
  induction l as [|b l IH]; simpl; [reflexivity|].
  destruct (String.leb (fst a) (fst b)); simpl; [reflexivity|]. now rewrite IH.
Qed.

Lemma sorted_items_map {V W} (f : V -> W) (l : list (string * V)) :
  sorted_items (map (on_values f) l) = map (on_values f) (sorted_items l).
Proof.
  induction l as [|a l IH]; simpl; [reflexivity|].
  unfold sorted_items in *. now rewrite IH, insert_item_map.
Qed.

Lemma concat_two sep (x y : string) l :
  String.concat sep (x :: y :: l) = (x ++ sep ++ String.concat sep (y :: l))%string.
Proof. reflexivity. Qed.

Lemma concat_length sep t (texts : list string) :
  (1 <= String.length sep)%nat -> In t texts ->
  (String.length t + List.length texts <= String.length (String.concat sep texts) + 1)%nat.
Proof.
  intros S. induction texts as [|x texts IH]; [intros []|].
  destruct texts as [|y texts].
  - intros [<-|[]]. simpl. lia.
  - rewrite concat_two, !length_append. intros [<-|I].
    + simpl List.length.
      assert (List.length (y :: texts) <= String.length (String.concat sep (y :: texts)) + 1)%nat.
      { clear - S. induction texts as [|z texts IH] in y |- *.
        - simpl. lia.
        - rewrite concat_two, !length_append. specialize (IH z). simpl in *. lia. }
      simpl in *. lia.
    + specialize (IH I). simpl List.length in *. lia.
Qed.

Lemma number_value_head s : number_head s = true -> value_head s = true.
Proof.
  destruct s as [|c s]; [discriminate|]. unfold number_head, value_head.
  destruct c as [[] [] [] [] [] [] [] []]; intros H; try discriminate H; reflexivity.
Qed.

Lemma skip_whitespace_value s : value_head s = true -> skip_whitespace s = s.
Proof.
  destruct s as [|c s]; [discriminate|]. simpl. intros H.
  apply andb_true_iff in H. destruct H as [H _]. apply negb_true_iff in H. now rewrite H.
Qed.

Section Values.
Variable float_repr : float -> string.
Variable float_of_string : string -> float.

Local Abbreviation enc := (encode float_repr).
Local Abbreviation parse := (parse_value float_of_string).
Local Abbreviation reading := (reads float_repr float_of_string).

Lemma encode_float_head f t :
  (finite f = true -> float_literal (float_repr f) = true) ->
  value_head (encode_float float_repr f ++ t) = true.
Proof.
  intros H. unfold encode_float, finite in *.
  destruct (is_nan f); [reflexivity|].
  destruct (PrimFloat.eqb f infinity); [reflexivity|].
  destruct (PrimFloat.eqb f neg_infinity); [reflexivity|].
  specialize (H eq_refl). unfold float_literal in H.
  destruct (match_number (float_repr f)) as [[[[i fr] e] r]|] eqn:M; [|discriminate].
  unfold match_number in M.
  destruct (scan_integer (float_repr f)) as [p|] eqn:I; [|discriminate].
  apply number_value_head, number_head_app. eapply scan_integer_head; eauto.
Qed.

Lemma parse_float fuel f rest :
  (finite f = true ->
   float_literal (float_repr f) = true /\ float_of_string (float_repr f) = f) ->
  ends_value rest = true ->
  parse (S fuel) (encode_float float_repr f ++ rest) = Some (JFloat f, rest).
Proof.
  intros H E. unfold encode_float, finite in *.
  destruct (is_nan f) eqn:N.
  { apply nan_unique in N. subst f. reflexivity. }
  destruct (PrimFloat.eqb f infinity) eqn:P.
  { apply infinity_unique in P. subst f. reflexivity. }
  destruct (PrimFloat.eqb f neg_infinity) eqn:Q.
  { apply neg_infinity_unique in Q. subst f. reflexivity. }
  destruct (H eq_refl) as (L & R).
  assert (Hd : number_head (float_repr f ++ rest) = true).
  { unfold float_literal in L.
    destruct (match_number (float_repr f)) as [[[[i fr] e] r]|] eqn:M; [|discriminate].
    unfold match_number in M.
    destruct (scan_integer (float_repr f)) as [p|] eqn:I; [|discriminate].
    apply number_head_app. eapply scan_integer_head; eauto. }
  rewrite (parse_value_number _ _ _ Hd), (scan_number_float _ _ _ L E), R. reflexivity.
Qed.

Lemma parse_int fuel z rest :
  ends_value rest = true -> parse (S fuel) (encode_int z ++ rest) = Some (JInt z, rest).
Proof.
  intros E.
  assert (Hd : number_head (encode_int z ++ rest) = true).
  { apply number_head_app. eapply scan_integer_head. apply scan_integer_int. }
  now rewrite (parse_value_number _ _ _ Hd), (scan_number_int _ _ _ E).
Qed.

Lemma parse_str fuel s rest :
  parse (S fuel) (encode_str s ++ rest) = Some (JStr s, rest).
Proof.
  unfold encode_str. rewrite !append_assoc.
  change (quote ++ escape s ++ quote ++ rest)%string
    with (String (ascii_of_nat 34) (escape s ++ quote ++ rest)).
  cbn [parse_value]. change (Nat.eqb (nat_of_ascii (ascii_of_nat 34)) 34) with true.
  cbv iota. now rewrite scan_string_escape.
Qed.

Lemma encode_head level j t :
  reads_back float_repr float_of_string j -> value_head (enc level j ++ t) = true.
Proof.
  intros R. destruct j as [|[]|z|f|s|[|v l]|[|kv l]]; try reflexivity.
  - apply number_value_head, number_head_app.
    eapply scan_integer_head. apply (scan_integer_int z).
  - apply encode_float_head. intros F. apply (R f); simpl; auto.
Qed.

Lemma parse_elements_step fuel s :
  parse_elements float_of_string (S fuel) s
  = match parse fuel s with
    | Some (value, rest) => after_element float_of_string fuel value rest
    | None => None
    end.
Proof. reflexivity. Qed.

Lemma after_element_last fuel value closing rest :
  after_element float_of_string fuel value (newline_indent closing ++ "]" ++ rest) = Some ([value], rest).
Proof. unfold after_element. rewrite skip_whitespace_indent. reflexivity. Qed.

Lemma after_element_more fuel value level s :
  value_head s = true ->
  after_element float_of_string fuel value ("," ++ newline_indent level ++ s)
  = match parse_elements float_of_string fuel s with
    | Some (values, r2) => Some (value :: values, r2)
    | None => None
    end.
Proof.
  intros H. unfold after_element.
  change (skip_whitespace ("," ++ newline_indent level ++ s))
    with (String "," (newline_indent level ++ s)).
  change (Nat.eqb (nat_of_ascii ",") 93) with false.
  change (Nat.eqb (nat_of_ascii ",") 44) with true. cbv iota.
  now rewrite skip_whitespace_indent, (skip_whitespace_value _ H).
Qed.

Lemma concat_head level l t :
  l <> [] -> (forall v, In v l -> reads_back float_repr float_of_string v) ->
  value_head (String.concat ("," ++ newline_indent level) (map (enc level) l) ++ t) = true.
Proof.
  intros N R. destruct l as [|v [|w l]]; [congruence| |].
  - cbn [String.concat map]. apply encode_head. apply R. simpl. auto.
  - cbn [map]. rewrite concat_two, append_assoc. apply encode_head. apply R. simpl. auto.
Qed.

Lemma parse_elements_encode l level closing rest fuel :
  Forall reading l -> l <> [] ->
  (forall v, In v l -> reads_back float_repr float_of_string v) ->
  (forall v, In v l ->
             String.length (enc level v) + List.length l + 1 <= fuel)%nat ->
  parse_elements float_of_string fuel
    (String.concat ("," ++ newline_indent level) (map (enc level) l)
     ++ newline_indent closing ++ "]" ++ rest)
  = Some (map normal l, rest).
Proof.
  intros IH. revert fuel. induction IH as [|v l Hv Hl IHl]; intros fuel N R F; [congruence|].
  assert (Fv := F v (or_introl eq_refl)). cbn [List.length] in Fv.
  destruct fuel as [|fuel]; [lia|].
  destruct fuel as [|fuel]; [lia|].
  rewrite parse_elements_step.
  destruct l as [|w l].
  - cbn [map String.concat].
    rewrite Hv; [| reflexivity | lia].
    now rewrite after_element_last.
  - cbn [map]. rewrite concat_two, !append_assoc.
    rewrite Hv; [| reflexivity | lia].
    change (enc level w :: map (enc level) l) with (map (enc level) (w :: l)).
    rewrite after_element_more.
    + rewrite IHl; [reflexivity | discriminate | |].
      * intros x I. apply R. now right.
      * intros x I. specialize (F x (or_intror I)). cbn [List.length] in *. lia.
    + apply concat_head; [discriminate|]. intros x I. apply R. now right.
Qed.

Lemma parse_members_step fuel s :
  parse_members float_of_string (S fuel) s
  = match scan_string s with
    | Some (key, r0) => after_key float_of_string fuel key r0
    | None => None
    end.
Proof. reflexivity. Qed.

Lemma after_key_value fuel key s :
  value_head s = true ->
  after_key float_of_string fuel key (": " ++ s)
  = match parse fuel s with
    | Some (value, r2) => after_member float_of_string fuel key value r2
    | None => None
    end.
Proof.
  intros H. unfold after_key.
  change (skip_whitespace (": " ++ s)) with (String ":" (String " " s)).
  change (Nat.eqb (nat_of_ascii ":") 58) with true. cbv iota.
  change (skip_whitespace (String " " s)) with (skip_whitespace s).
  now rewrite (skip_whitespace_value _ H).
Qed.

Lemma after_member_last fuel key value closing rest :
  after_member float_of_string fuel key value (newline_indent closing ++ "}" ++ rest)
  = Some ([(key, value)], rest).
Proof. unfold after_member. rewrite skip_whitespace_indent. reflexivity. Qed.

Lemma after_member_more fuel key value level s :
  after_member float_of_string fuel key value ("," ++ newline_indent level ++ quote ++ s)
  = match parse_members float_of_string fuel s with
    | Some (pairs, r5) => Some ((key, value) :: pairs, r5)
    | None => None
    end.
Proof.
  unfold after_member.
  change (skip_whitespace ("," ++ newline_indent level ++ quote ++ s))
    with (String "," (newline_indent level ++ quote ++ s)).
  change (Nat.eqb (nat_of_ascii ",") 125) with false.
  change (Nat.eqb (nat_of_ascii ",") 44) with true. cbv iota.
  rewrite skip_whitespace_indent. reflexivity.
Qed.

Lemma item_text_length level kv :
  (String.length (enc level (snd kv)) <= String.length (item_text float_repr level kv))%nat.
Proof. unfold item_text. rewrite !length_append. lia. Qed.

Lemma parse_members_encode l level closing rest :
  Forall (fun kv => reading (snd kv)) l -> l <> [] ->
  (forall kv, In kv l -> reads_back float_repr float_of_string (snd kv)) ->
  forall fuel,
    (forall kv, In kv l ->
                String.length (enc level (snd kv)) + List.length l + 1 <= fuel)%nat ->
    exists text,
      (String.concat ("," ++ newline_indent level) (map (item_text float_repr level) l)
       ++ newline_indent closing ++ "}" ++ rest = quote ++ text)%string /\
      parse_members float_of_string fuel text = Some (map (on_values normal) l, rest).
Proof.
  intros IH. induction IH as [|[k v] l Hv Hl IHl]; intros N R fuel F; [congruence|].
  assert (Fv := F (k, v) (or_introl eq_refl)). cbn [List.length snd] in Fv.
  destruct fuel as [|fuel]; [lia|].
  destruct fuel as [|fuel]; [lia|].
  simpl in Hv.
  destruct l as [|w l].
  - cbn [map String.concat]. unfold item_text at 1, encode_str. cbn [fst snd].
    rewrite !append_assoc. eexists. split; [reflexivity|].
    rewrite parse_members_step, scan_string_escape, after_key_value.
    + rewrite Hv; [| reflexivity | lia]. now rewrite after_member_last.
    + apply encode_head. apply (R (k, v)). now left.
  - destruct (IHl ltac:(discriminate) (fun kv I => R kv (or_intror I)) (S fuel))
      as (text & T & P).
    { intros x I. specialize (F x (or_intror I)). cbn [List.length] in *. lia. }
    cbn [map]. rewrite concat_two. unfold item_text at 1, encode_str. cbn [fst snd].
    rewrite !append_assoc.
    change (item_text float_repr level w :: map (item_text float_repr level) l)
      with (map (item_text float_repr level) (w :: l)).
    rewrite T. eexists. split; [reflexivity|].
    rewrite parse_members_step, scan_string_escape, after_key_value.
    + rewrite Hv; [| reflexivity | lia]. rewrite after_member_more, P. reflexivity.
    + apply encode_head. apply (R (k, v)). now left.
Qed.

Lemma parse_array_step fuel level s :
  value_head s = true ->
  parse (S fuel) ("[" ++ newline_indent level ++ s)
  = match parse_elements float_of_string fuel s with
    | Some (values, rest) => Some (JArr values, rest)
    | None => None
    end.
Proof.
  intros H.
  change (parse (S fuel) ("[" ++ newline_indent level ++ s))
    with (match skip_whitespace (newline_indent level ++ s) with
          | String c2 s3 =>
              if Nat.eqb (nat_of_ascii c2) 93 then Some (JArr [], s3)
              else
                match parse_elements float_of_string fuel (String c2 s3) with
                | Some (values, rest) => Some (JArr values, rest)
                | None => None
                end
          | EmptyString => None
          end).
  rewrite skip_whitespace_indent, (skip_whitespace_value _ H).
  destruct s as [|c s]; [discriminate|]. simpl in H.
  apply andb_true_iff in H. destruct H as [_ H]. apply negb_true_iff in H.
  now rewrite H.
Qed.

Lemma parse_object_step fuel level text :
  parse (S fuel) ("{" ++ newline_indent level ++ quote ++ text)
  = match parse_members float_of_string fuel text with
    | Some (pairs, rest) => Some (JObj (dict_update [] pairs), rest)
    | None => None
    end.
Proof.
  change (parse (S fuel) ("{" ++ newline_indent level ++ quote ++ text))
    with (match skip_whitespace (newline_indent level ++ quote ++ text) with
          | String c2 s3 =>
              if Nat.eqb (nat_of_ascii c2) 125 then Some (JObj [], s3)
              else if Nat.eqb (nat_of_ascii c2) 34 then
                match parse_members float_of_string fuel s3 with
                | Some (pairs, rest) => Some (JObj (dict_update [] pairs), rest)
                | None => None
                end
              else None
          | EmptyString => None
          end).
  rewrite skip_whitespace_indent. reflexivity.
Qed.

Lemma indent_length level : (1 <= String.length (newline_indent level))%nat.
Proof. unfold newline_indent. simpl. lia. Qed.

Lemma reads_back_arr l v :
  reads_back float_repr float_of_string (JArr l) -> In v l ->
  reads_back float_repr float_of_string v.
Proof.
  intros R I f F. apply R. simpl. apply in_flat_map. eauto.
Qed.

Lemma reads_back_obj l kv :
  reads_back float_repr float_of_string (JObj l) -> In kv l ->
  reads_back float_repr float_of_string (snd kv).
Proof.
  intros R I f F. apply R. simpl. apply in_flat_map. eauto.
Qed.

(** The decoder reads the text of a value back as the value, the items
    of its dictionaries in the order of their keys. *)
Lemma parse_encode j :
  well_formed j = true -> reads_back float_repr float_of_string j -> reading j.
Proof.
  induction j as [|b|z|f|s|l IH|l IH] using json_induction; intros W R level rest fuel E L.
  - reflexivity.
  - destruct b; reflexivity.
  - now apply parse_int.
  - apply parse_float; auto. intros F. apply (R f); simpl; auto.
  - apply parse_str.
  - rewrite well_formed_arr in W.
    assert (IH' : Forall reading l).
    { rewrite Forall_forall in *. intros v I. apply IH; auto.
      eapply reads_back_arr; eauto. }
    rewrite encode_arr in *. destruct l as [|v l]; [reflexivity|].
    set (l0 := v :: l) in *.
    rewrite !append_assoc. rewrite !length_append in L.
    pose proof (indent_length (S level)) as I1. pose proof (indent_length level) as I0.
    rewrite parse_array_step.
    + rewrite parse_elements_encode; auto.
      * discriminate.
      * intros x I. eapply reads_back_arr; eauto.
      * intros x I.
        pose proof (concat_length ("," ++ newline_indent (S level))
                      (enc (S level) x) (map (enc (S level)) l0)) as C.
        rewrite length_map in C. simpl String.length in *.
        specialize (C ltac:(lia) (in_map _ _ _ I)). lia.
    + apply concat_head; [discriminate|]. intros x I. eapply reads_back_arr; eauto.
  - rewrite well_formed_obj in W. destruct W as [ND W].
    pose proof (sorted_items_all l) as P.
    assert (IH' : Forall (fun kv => reading (snd kv)) (sorted_items l)).
    { rewrite Forall_forall in *. intros kv I.
      assert (I' : In kv l) by (eapply Permutation_in; eauto).
      apply IH; auto. eapply reads_back_obj; eauto. }
    assert (Nm : normal (JObj l) = JObj (map (on_values normal) (sorted_items l))).
    { simpl. now rewrite sorted_items_map. }
    rewrite Nm. rewrite encode_obj in *. destruct l as [|kv l]; [reflexivity|].
    set (l0 := kv :: l) in *.
    assert (N0 : sorted_items l0 <> []).
    { intros Z. rewrite Z in P. apply Permutation_nil in P. discriminate. }
    rewrite sorted_items_map, map_map in *.
    change (map (fun x => (encode_str (fst (on_values (enc (S level)) x)) ++ ": "
                           ++ snd (on_values (enc (S level)) x))%string) (sorted_items l0))
      with (map (item_text float_repr (S level)) (sorted_items l0)) in *.
    rewrite !append_assoc. rewrite !length_append in L.
    pose proof (indent_length (S level)) as I1. pose proof (indent_length level) as I0.
    destruct (parse_members_encode (sorted_items l0) (S level) level rest IH' N0)
      with (fuel := fuel) as (text & T & Pm).
    + intros x I. eapply reads_back_obj; eauto. eapply Permutation_in; eauto.
    + intros x I.
      pose proof (concat_length ("," ++ newline_indent (S level))
                    (item_text float_repr (S level) x) (map (item_text float_repr (S level)) (sorted_items l0))) as C.
      rewrite length_map in C.
      specialize (C ltac:(simpl; lia) (in_map _ _ _ I)).
      pose proof (item_text_length (S level) x) as X.
      change (String.length "{") with 1%nat in L. lia.
    + rewrite T, parse_object_step, Pm. f_equal. f_equal. f_equal.
      apply loaded_distinct.
      unfold keys. rewrite map_map. simpl.
      eapply Permutation_NoDup; [|exact ND].
      apply Permutation_sym, Permutation_map. exact P.
Qed.

(** [json.loads] reads what [json.dumps] writes of a value back as the
    value, the items of its dictionaries in the order of their keys. *)
Lemma json_loads_dumps j :
  well_formed j = true -> reads_back float_repr float_of_string j ->
  json_loads float_of_string (json_dumps float_repr j) = Ok (normal j).
Proof.
  intros W R. unfold json_loads, json_dumps.
  rewrite skip_whitespace_value.
  - pose proof (parse_encode j W R 0%nat ""%string (String.length (enc 0 j))
                  eq_refl (le_n _)) as P.
    rewrite append_empty in P. rewrite P. reflexivity.
  - rewrite <- (append_empty (enc 0 j)). now apply encode_head.
Qed.
End Values.

Lemma normal_equiv j : json_equiv j (normal j).
Proof.
  induction j as [|b|z|f|s|l IH|l IH] using json_induction; try apply equiv_same.
  - simpl. apply equiv_arr. induction IH; simpl; constructor; auto.
  - simpl. apply equiv_obj with (l2' := map (on_values normal) l).
    + apply Permutation_sym, sorted_items_all.
    + induction IH; simpl; constructor; auto.
Qed.

Lemma normal_well_formed j : well_formed j = true -> well_formed (normal j) = true.
Proof.
  induction j as [|b|z|f|s|l IH|l IH] using json_induction; auto.
  - rewrite well_formed_arr. intros W. simpl. apply well_formed_arr.
    intros j I. apply in_map_iff in I. destruct I as (v & <- & I).
    rewrite Forall_forall in IH. auto.
  - rewrite well_formed_obj. intros [ND W]. simpl. apply well_formed_obj.
    pose proof (sorted_items_all (map (on_values normal) l)) as P. split.
    + eapply Permutation_NoDup; [apply Permutation_sym, Permutation_map; exact P|].
      rewrite map_map. exact ND.
    + intros kv I. eapply Permutation_in in I; [|exact P].
      apply in_map_iff in I. destruct I as (x & <- & I).
      rewrite Forall_forall in IH. simpl. auto.
Qed.
(** *** What [save] writes, read back *)

Lemma Forall2_in_l {A B} (R : A -> B -> Prop) l1 l2 a :
  Forall2 R l1 l2 -> In a l1 -> exists b, In b l2 /\ R a b.
Proof.
  induction 1 as [|x y l1 l2 Rxy F IH]; intros I; [destruct I|].
  destruct I as [<-|I]; [exists y; simpl; auto|].
  destruct (IH I) as (b & Ib & Rb). exists b. simpl. auto.
Qed.

Lemma equiv_well_formed a :
  forall b, json_equiv a b -> well_formed b = true -> well_formed a = true.
Proof.
  induction a as [|b0|z|f|s|l1 IH|l1 IH] using json_induction; intros b E W; auto.
  - destruct b as [| | | | |l2|]; try (inversion E; fail).
    apply equiv_arr_inv in E. rewrite well_formed_arr in *.
    rewrite Forall_forall in IH. intros j I.
    destruct (Forall2_in_l _ _ _ j E I) as (j' & I' & Ej). eauto.
  - destruct b as [| | | | | |l2]; try (inversion E; fail).
    pose proof E as E'. apply equiv_obj_inv in E'. destruct E' as (l2' & P & F).
    rewrite well_formed_obj in *. destruct W as [ND W]. split.
    + exact (equiv_distinct _ _ E ND).
    + rewrite Forall_forall in IH. intros kv I.
      destruct (Forall2_in_l _ _ _ kv F I) as (kv' & I' & _ & Ej).
      apply (IH kv I (snd kv')); auto. apply W. eapply Permutation_in; eauto.
Qed.

Lemma reads_back_persisted float_repr float_of_string (k : dict) d :
  reads_back float_repr float_of_string (JObj (view k)) -> persisted k = Ok d ->
  reads_back float_repr float_of_string (JObj d).
Proof.
  unfold persisted. intros R P.
  destruct (dict_del "food" (view k)) as [d1|] eqn:D1; [|discriminate]. simpl in P.
  destruct (dict_del_split _ _ _ D1) as (pre1 & v1 & post1 & E1 & _ & ->).
  destruct (dict_del_split _ _ _ P) as (pre2 & v2 & post2 & E2 & _ & ->).
  intros f I. apply R. rewrite E1. simpl in *.
  rewrite flat_map_app in *. simpl. rewrite !in_app_iff.
  assert (I' : In f (flat_map (fun kv => floats_of (snd kv)) (pre1 ++ post1))).
  { rewrite E2, flat_map_app. simpl. rewrite !in_app_iff in *. tauto. }
  rewrite flat_map_app, in_app_iff in I'. tauto.
Qed.

(** ** Lists of positions *)

Lemma pos_eqb_eq p q : pos_eqb p q = true <-> p = q.
Proof.
  destruct p, q. unfold pos_eqb. simpl.
  rewrite andb_true_iff, !Z.eqb_eq. split; [intros [-> ->]|intros [= -> ->]]; auto.
Qed.

Lemma pos_eqb_refl p : pos_eqb p p = true.
Proof. now apply pos_eqb_eq. Qed.

Lemma pos_eqb_neq p q : pos_eqb p q = false <-> p <> q.
Proof.
  rewrite <- pos_eqb_eq. destruct (pos_eqb p q); split; congruence.
Qed.

Lemma pos_dec (p q : Z * Z) : {p = q} + {p <> q}.
Proof. decide equality; apply Z.eq_dec. Qed.

Lemma remove_first_absent p l : ~ In p l <-> remove_first p l = Raise ValueError.
Proof.
  induction l as [|q l IH]; simpl.
  - tauto.
  - destruct (pos_eqb q p) eqn:E.
    + apply pos_eqb_eq in E. subst. split; [intros G; exfalso; auto | discriminate].
    + apply pos_eqb_neq in E.
      destruct (remove_first p l) as [r|e]; simpl.
      * split; [|discriminate]. intros G. exfalso.
        assert (~ In p l) as G' by tauto. apply IH in G'. discriminate.
      * split; intros G.
        -- assert (~ In p l) as G' by tauto. apply IH in G'. congruence.
        -- injection G as ->. intros [C|C]; [congruence|]. now apply IH in C.
  Qed.

Lemma remove_first_present p l :
  In p l ->
  exists l1 l2, l = l1 ++ p :: l2 /\ ~ In p l1 /\ remove_first p l = Ok (l1 ++ l2).
Proof.
  induction l as [|q l IH]; simpl; [tauto|]. intros G.
  destruct (pos_eqb q p) eqn:E.
  - apply pos_eqb_eq in E. subst. exists [], l. simpl. auto.
  - apply pos_eqb_neq in E. destruct G as [G|G]; [congruence|].
    destruct (IH G) as (l1 & l2 & -> & N & ->). simpl.
    exists (q :: l1), l2. simpl. repeat split; auto. intros [C|C]; auto.
Qed.

Lemma without_absent p l : ~ In p l -> without p l = l.
Proof.
  induction l as [|q l IH]; simpl; intros N; auto.
  destruct (pos_eqb q p) eqn:E; simpl.
  - apply pos_eqb_eq in E. tauto.
  - rewrite IH; tauto.
Qed.

Lemma without_not_in p l : ~ In p (without p l).
Proof.
  unfold without. rewrite filter_In. intros [_ E].
  now rewrite pos_eqb_refl in E.
Qed.

Lemma occurrences_app p l1 l2 :
  occurrences p (l1 ++ l2) = (occurrences p l1 + occurrences p l2)%nat.
Proof. unfold occurrences. now rewrite filter_app, length_app. Qed.

(** ** Numbers and ranges *)

Lemma in_range x n : In x (range n) <-> 0 <= x < n.
Proof.
  unfold range. rewrite in_map_iff. split.
  - intros (i & <- & I). apply in_seq in I. lia.
  - intros R. exists (Z.to_nat x). rewrite in_seq. split; lia.
Qed.

Lemma py_int_floor q : (0 <= q)%Q -> py_int q = Qfloor q.
Proof.
  destruct q as [a b]. unfold Qle, py_int, Qfloor. simpl. intros G.
  apply Z.quot_div_nonneg; lia.
Qed.

Lemma py_int_nonpos q : (q <= 0)%Q -> py_int q <= 0.
Proof.
  destruct q as [a b]. unfold Qle, py_int. simpl. intros G.
  assert (A : a <= 0) by lia.
  rewrite <- (Z.opp_involutive a), Z.quot_opp_l by lia.
  assert (0 <= Z.quot (- a) (Z.pos b)) by (apply Z.quot_pos; lia). lia.
Qed.

Lemma py_int_le q : (0 <= q)%Q -> (inject_Z (py_int q) <= q)%Q.
Proof. intros G. rewrite py_int_floor by exact G. apply Qfloor_le. Qed.

Lemma py_int_pos q : (1 <= q)%Q -> 1 <= py_int q.
Proof.
  intros G. rewrite py_int_floor by lra.
  change 1 with (Qfloor 1). now apply Qfloor_resp_le.
Qed.

(** The truncation and the floor give the same quota unless both the
    formula and the minimum are negative. *)
Lemma quota_floor minimum q :
  (0 <= q)%Q \/ 0 <= minimum ->
  Z.max minimum (py_int q) = Z.max minimum (Qfloor q).
Proof.
  intros [G|G].
  - now rewrite py_int_floor.
  - destruct (Qlt_le_dec q 0) as [N|P].
    + assert (py_int q <= 0) by (apply py_int_nonpos; lra).
      assert (Qfloor q <= 0).
      { change 0 with (Qfloor 0). apply Qfloor_resp_le. lra. }
      lia.
    + now rewrite py_int_floor.
Qed.

(** ** The accumulation of weights *)

Lemma total_weight_from (l : list weighted) (acc : Q) :
  (forall a, In a l -> 0 <= snd a)%Q ->
  (acc <= fold_left (fun t a => t + snd a) l acc)%Q.
Proof.
  revert acc. induction l as [|a l IH]; simpl; intros acc G.
  - lra.
  - assert (0 <= snd a)%Q by (apply G; auto).
    specialize (IH (acc + snd a)%Q (fun b I => G b (or_intror I))). lra.
Qed.

Lemma total_weight_pos (l : list weighted) :
  l <> [] ->
  (forall a, In a l -> 1 <= snd a)%Q ->
  (1 <= total_weight l)%Q.
Proof.
  destruct l as [|a l]; [congruence|]. intros _ G. unfold total_weight. simpl.
  assert (1 <= snd a)%Q by (apply G; simpl; auto).
  assert (0 + snd a <= fold_left (fun t a => t + snd a) l (0 + snd a))%Q.
  { apply total_weight_from. intros b I.
    assert (1 <= snd b)%Q by (apply G; simpl; auto). lra. }
  lra.
Qed.

(** The loop selects a square of the list as soon as the draw does not
    exceed the total it accumulates. *)
Lemma pick_selects (l : list weighted) (acc : Q) (index_pond : Z) :
  l <> [] ->
  (inject_Z index_pond <= fold_left (fun t a => t + snd a) l acc)%Q ->
  exists sq, pick l acc index_pond = Some sq /\ In sq (map fst l).
Proof.
  revert acc. induction l as [|[sq qt] l IH]; intros acc N G; [congruence|].
  simpl in *.
  destruct (Qle_bool (inject_Z index_pond) (acc + qt)) eqn:E.
  - exists sq. auto.
  - destruct l as [|a l].
    + simpl in G. apply Qle_bool_iff in G. congruence.
    + destruct (IH (acc + qt)%Q) as (sq' & P & I); [congruence|exact G|].
      exists sq'. auto.
Qed.

(** ** Methods of the manager *)

(** ** Updates of a dictionary *)

Section DictUpdates.
Context {V : Type}.
Implicit Types (d : list (string * V)) (k : string) (v : V).

Lemma dict_set_same_value k v d : dict_get k d = Some v -> dict_set k v d = d.
Proof.
  induction d as [|[k' v'] d IH]; simpl; [discriminate|].
  destruct (String.eqb k k') eqn:E.
  - now intros [= ->].
  - intros G. now rewrite IH.
Qed.

Lemma dict_set_set k v v' d : dict_set k v' (dict_set k v d) = dict_set k v' d.
Proof.
  induction d as [|[k' v0] d IH]; simpl.
  - now rewrite String.eqb_refl.
  - destruct (String.eqb k k') eqn:E; simpl; rewrite E; [reflexivity | now rewrite IH].
Qed.

Lemma dict_set_comm k k' v v' d :
  k <> k' -> dict_get k d <> None ->
  dict_set k v (dict_set k' v' d) = dict_set k' v' (dict_set k v d).
Proof.
  intros N. induction d as [|[k0 v0] d IH]; simpl; [congruence|].
  destruct (String.eqb k k0) eqn:E, (String.eqb k' k0) eqn:E'; simpl; rewrite ?E, ?E'.
  - apply String.eqb_eq in E, E'. congruence.
  - reflexivity.
  - reflexivity.
  - intros G. now rewrite IH.
Qed.

Lemma dict_del_set_same k v d :
  dict_get k d <> None -> dict_del k (dict_set k v d) = dict_del k d.
Proof.
  induction d as [|[k' v0] d IH]; simpl; [congruence|].
  destruct (String.eqb k k') eqn:E; simpl; rewrite E; [reflexivity|].
  intros G. now rewrite IH.
Qed.

Lemma dict_del_set_other k k' v d :
  k <> k' ->
  dict_del k (dict_set k' v d) = result_bind (dict_del k d) (fun r => Ok (dict_set k' v r)).
Proof.
  intros N. induction d as [|[k0 v0] d IH]; simpl.
  - destruct (String.eqb k k') eqn:E; [apply String.eqb_eq in E; congruence | reflexivity].
  - destruct (String.eqb k' k0) eqn:E'; simpl.
    + destruct (String.eqb k k0) eqn:E.
      * apply String.eqb_eq in E, E'. congruence.
      * destruct (dict_del k d); simpl; [now rewrite E' | reflexivity].
    + destruct (String.eqb k k0) eqn:E; [reflexivity|].
      rewrite IH. destruct (dict_del k d); simpl; [now rewrite E' | reflexivity].
Qed.

End DictUpdates.

(** What [save] writes does not depend on the two derived entries. *)
Lemma view_set k v (d : dict) : view (dict_set k v d) = dict_set k (entry_json v) (view d).
Proof.
  unfold view. induction d as [|[k' v'] d IH]; simpl; [reflexivity|].
  destruct (String.eqb k k'); simpl; [reflexivity | now rewrite IH].
Qed.

Lemma view_get k (d : dict) : dict_get k (view d) = option_map entry_json (dict_get k d).
Proof.
  unfold view. induction d as [|[k' v'] d IH]; simpl; [reflexivity|].
  destruct (String.eqb k k'); simpl; auto.
Qed.

Lemma persisted_set_food v (d : dict) :
  dict_get "food" d <> None -> persisted (dict_set "food" v d) = persisted d.
Proof.
  intros G. unfold persisted. rewrite view_set, dict_del_set_same; [reflexivity|].
  rewrite view_get. destruct (dict_get "food" d); simpl; congruence.
Qed.

Lemma persisted_set_max v (d : dict) :
  dict_get "max_scouters" d <> None -> persisted (dict_set "max_scouters" v d) = persisted d.
Proof.
  intros G. unfold persisted. rewrite view_set, dict_del_set_other by discriminate.
  destruct (dict_del "food" (view d)) as [r|] eqn:D; simpl; [|reflexivity].
  apply dict_del_set_same.
  rewrite (dict_get_del_other _ _ _ _ D) by discriminate.
  rewrite view_get. destruct (dict_get "max_scouters" d); simpl; congruence.
Qed.

(** ** Lists *)

Lemma remove_nth_split {A} (i : nat) (xs : list A) :
  (i < List.length xs)%nat ->
  exists l1 a l2, xs = l1 ++ a :: l2 /\ List.length l1 = i /\ remove_nth i xs = l1 ++ l2.
Proof.
  revert i. induction xs as [|a xs IH]; simpl; intros i L; [lia|].
  destruct i as [|i].
  - exists [], a, xs. auto.
  - destruct (IH i) as (l1 & b & l2 & -> & <- & R); [lia|].
    exists (a :: l1), b, l2. simpl. now rewrite R.
Qed.

Section ManagerFacts.
Context {Board Ant : Type} {BO : BoardOps Board} {AO : AntOps Board Ant}.

Abbreviation Manager := (@BlobManager Board Ant).
Implicit Types (m : Manager) (x y : Z) (l : list (Z * Z)).

Lemma get_food_ok m l :
  dict_get "food" (knowledge m) = Some (FoodList l) -> get_food m = Ok (l, m).
Proof. intros G. unfold get_food, bind, gets, ret. now rewrite G. Qed.

Lemma get_max_ok m n :
  dict_get "max_scouters" (knowledge m) = Some (Count n) -> get_max m = Ok (n, m).
Proof. intros G. unfold get_max, bind, gets, ret. now rewrite G. Qed.

Lemma set_food_same_but m l l0 :
  dict_get "food" (knowledge m) = Some (FoodList l0) ->
  same_but "food" m (set_knowledge (dict_set "food" (FoodList l) (knowledge m)) m).
Proof.
  intros G. unfold same_but. simpl. repeat split; auto.
  - apply keys_set_present. congruence.
  - intros k N. now apply dict_get_set_other.
Qed.

(** C2, as amended: [food_discovered] appends the position to the list
    of known food whether it is there or not: every call adds one
    occurrence of it and changes nothing else.  The list stays free of
    duplicates exactly when the position was not in it, which is what
    [move] checks before it calls. *)
Theorem food_discovered_appends m x y l :
  dict_get "food" (knowledge m) = Some (FoodList l) ->
  exists m',
    food_discovered x y m = Ok (tt, m') /\
    dict_get "food" (knowledge m') = Some (FoodList (l ++ [(x, y)])) /\
    occurrences (x, y) (l ++ [(x, y)]) = S (occurrences (x, y) l) /\
    (NoDup l -> (NoDup (l ++ [(x, y)]) <-> ~ In (x, y) l)) /\
    same_but "food" m m'.
Proof.
  intros G. eexists. split; [|split; [|split; [|split]]].
  - unfold food_discovered, bind. rewrite (get_food_ok _ _ G). reflexivity.
  - simpl. apply dict_get_set_same.
  - rewrite occurrences_app. unfold occurrences at 2. simpl.
    rewrite pos_eqb_refl. simpl. lia.
  - intros ND. split.
    + intros ND' I. apply NoDup_remove_2 in ND'. rewrite app_nil_r in ND'. auto.
    + intros NI. apply NoDup_app; auto.
      * repeat constructor. simpl. tauto.
      * intros a Ia [<-|[]]. auto.
  - eapply set_food_same_but; eauto.
Qed.

(** C9: [food_destroyed] raises exactly when the position is not a known
    food; otherwise it removes one occurrence of the position, the
    first, from the list and changes nothing else. *)
Theorem food_destroyed_spec m x y l :
  dict_get "food" (knowledge m) = Some (FoodList l) ->
  (fails (food_destroyed x y m) <-> ~ In (x, y) l) /\
  (~ In (x, y) l -> food_destroyed x y m = Raise ValueError) /\
  (In (x, y) l ->
   exists l1 l2 m',
     l = l1 ++ (x, y) :: l2 /\ ~ In (x, y) l1 /\
     food_destroyed x y m = Ok (tt, m') /\
     dict_get "food" (knowledge m') = Some (FoodList (l1 ++ l2)) /\
     same_but "food" m m').
Proof.
  intros G.
  assert (A : ~ In (x, y) l -> food_destroyed x y m = Raise ValueError).
  { intros N. unfold food_destroyed, bind. rewrite (get_food_ok _ _ G).
    apply remove_first_absent in N. unfold lift. now rewrite N. }
  assert (B : In (x, y) l ->
    exists l1 l2 m',
     l = l1 ++ (x, y) :: l2 /\ ~ In (x, y) l1 /\
     food_destroyed x y m = Ok (tt, m') /\
     dict_get "food" (knowledge m') = Some (FoodList (l1 ++ l2)) /\
     same_but "food" m m').
  { intros I. destruct (remove_first_present _ _ I) as (l1 & l2 & E & N & R).
    exists l1, l2, (set_knowledge (dict_set "food" (FoodList (l1 ++ l2)) (knowledge m)) m).
    repeat apply conj; auto.
    - unfold food_destroyed, bind. rewrite (get_food_ok _ _ G).
      unfold lift. rewrite R. reflexivity.
    - simpl. apply dict_get_set_same.
    - simpl. apply keys_set_present. congruence.
    - intros k Nk. simpl. now apply dict_get_set_other. }
  split; [|split]; auto.
  split.
  - intros F I. destruct (B I) as (l1 & l2 & m' & _ & _ & E & _).
    rewrite E in F. exact F.
  - intros N. rewrite (A N). exact I.
Qed.

(** C10: [save] leaves the manager as it is: the state after the call
    is the state before it, so the knowledge still holds its ['food']
    and ['max_scouters'] entries, and the scouters and the board are
    unchanged. *)
Theorem save_leaves_manager (float_repr : float -> string) m f c :
  dict_get "food" (knowledge m) = Some f ->
  dict_get "max_scouters" (knowledge m) = Some c ->
  exists text m',
    save float_repr m = Ok (text, m') /\ m' = m /\
    dict_get "food" (knowledge m') = Some f /\
    dict_get "max_scouters" (knowledge m') = Some c /\
    scouters m' = scouters m /\ board m' = board m.
Proof.
  intros F C.
  destruct (dict_del_present _ _ _ F) as [d1 D1].
  assert (C1 : dict_get "max_scouters" d1 = Some c).
  { rewrite (dict_get_del_other _ _ _ _ D1); auto. discriminate. }
  destruct (dict_del_present _ _ _ C1) as [d2 D2].
  eexists. exists m. split; [|auto 6].
  unfold save, bind, gets, lift, ret. rewrite D1, D2. reflexivity.
Qed.

(** *** [reset] *)

Lemma set_scouters_id m : set_scouters (scouters m) m = m.
Proof. now destruct m. Qed.

Lemma set_knowledge_id m : set_knowledge (knowledge m) m = m.
Proof. now destruct m. Qed.

Lemma remove_object_app (pre rest : list (@scouter Ant)) s :
  (forall t, In t pre -> sid t <> sid s) ->
  remove_object (sid s) (pre ++ s :: rest) = Ok (pre ++ rest).
Proof.
  induction pre as [|t pre IH]; simpl; intros N.
  - now rewrite Nat.eqb_refl.
  - destruct (Nat.eqb_spec (sid t) (sid s)) as [E|_].
    + exfalso. apply (N t); auto.
    + rewrite IH; auto.
Qed.

Lemma remove_first_app p (pre rest : list (Z * Z)) :
  ~ In p pre -> remove_first p (pre ++ p :: rest) = Ok (pre ++ rest).
Proof.
  induction pre as [|q pre IH]; simpl; intros N.
  - now rewrite pos_eqb_refl.
  - destruct (pos_eqb q p) eqn:E.
    + apply pos_eqb_eq in E. tauto.
    + rewrite IH; tauto.
Qed.

Lemma reset_scouters_loop x y (todo pre : list (@scouter Ant)) m :
  scouters m = pre ++ todo ->
  NoDup (map sid (pre ++ todo)) ->
  for_each todo (reset_scouter_body x y) m
  = Ok (tt, set_scouters (pre ++ filter (fun s => negb (at_pos x y s)) todo) m).
Proof.
  revert pre m. induction todo as [|s todo IH]; intros pre m E ND; simpl.
  - rewrite app_nil_r in *. rewrite <- E, set_scouters_id. reflexivity.
  - unfold reset_scouter_body at 1. unfold bind.
    destruct (at_pos x y s) eqn:A; simpl.
    + unfold remove_from_scouters, bind, gets, lift, modify. rewrite E.
      rewrite remove_object_app.
      * rewrite (IH pre); simpl; auto.
        rewrite map_app in *. simpl in ND. now apply NoDup_remove_1 in ND.
      * intros t I C. rewrite map_app in ND. simpl in ND.
        apply NoDup_remove_2 in ND. apply ND. apply in_or_app. left.
        rewrite <- C. now apply in_map.
    + unfold ret. rewrite (IH (pre ++ [s])).
      * now rewrite <- app_assoc.
      * now rewrite <- app_assoc.
      * now rewrite <- app_assoc.
Qed.

Lemma reset_food_loop_absent x y (todo : list (Z * Z)) m :
  ~ In (x, y) todo -> for_each todo (reset_food_body x y) m = Ok (tt, m).
Proof.
  induction todo as [|q todo IH]; simpl; intros N; auto.
  unfold reset_food_body at 1. unfold bind.
  destruct (pos_eqb q (x, y)) eqn:E.
  - apply pos_eqb_eq in E. tauto.
  - unfold ret. apply IH. tauto.
Qed.

Lemma reset_food_loop x y (todo pre : list (Z * Z)) m n :
  dict_get "food" (knowledge m) = Some (FoodList (pre ++ todo)) ->
  dict_get "max_scouters" (knowledge m) = Some (Count n) ->
  NoDup (pre ++ todo) ->
  In (x, y) todo ->
  for_each todo (reset_food_body x y) m
  = Ok (tt, set_knowledge
              (dict_set "max_scouters" (Count (n - 1))
                 (dict_set "food" (FoodList (pre ++ without (x, y) todo))
                    (knowledge m))) m).
Proof.
  revert pre. induction todo as [|q todo IH]; intros pre F C ND I; simpl; [destruct I|].
  unfold reset_food_body at 1. unfold bind.
  destruct (pos_eqb q (x, y)) eqn:E.
  - apply pos_eqb_eq in E. subst q.
    assert (NI : ~ In (x, y) todo /\ ~ In (x, y) pre).
    { apply NoDup_remove_2 in ND. split; intros H; apply ND; apply in_or_app; auto. }
    rewrite (get_food_ok _ _ F). unfold lift.
    rewrite remove_first_app by tauto.
    unfold set_food, modify.
    rewrite (get_max_ok _ n).
    + unfold set_max, modify. simpl.
      rewrite reset_food_loop_absent by tauto.
      rewrite without_absent by tauto. reflexivity.
    + simpl. rewrite dict_get_set_other by discriminate. exact C.
  - apply pos_eqb_neq in E. destruct I as [I|I]; [congruence|].
    unfold ret. rewrite (IH (pre ++ [q])).
    + simpl. now rewrite <- app_assoc.
    + now rewrite <- app_assoc.
    + exact C.
    + now rewrite <- app_assoc.
    + exact I.
Qed.

(** C8: on a manager whose known food holds no position twice,
    [reset x y] removes every scouter at (x, y); if (x, y) is a known
    food it is taken out of the list and the stored quota goes down by
    one, with no other change of the knowledge; if it is not, the
    knowledge is left as it is; and when moreover no scouter stands
    there the whole state is unchanged. *)
Theorem reset_spec m x y l n :
  dict_get "food" (knowledge m) = Some (FoodList l) ->
  dict_get "max_scouters" (knowledge m) = Some (Count n) ->
  NoDup l ->
  NoDup (map sid (scouters m)) ->
  exists m',
    reset x y m = Ok (tt, m') /\
    scouters m' = filter (fun s => negb (at_pos x y s)) (scouters m) /\
    board m' = board m /\
    (In (x, y) l ->
       dict_get "food" (knowledge m') = Some (FoodList (without (x, y) l)) /\
       dict_get "max_scouters" (knowledge m') = Some (Count (n - 1)) /\
       keys (knowledge m') = keys (knowledge m) /\
       forall k, k <> "food" -> k <> "max_scouters" ->
                 dict_get k (knowledge m') = dict_get k (knowledge m)) /\
    (~ In (x, y) l -> knowledge m' = knowledge m) /\
    (~ In (x, y) l -> forallb (fun s => negb (at_pos x y s)) (scouters m) = true ->
     m' = m).
Proof.
  intros F C NDl NDs.
  pose (kept := filter (fun s => negb (at_pos x y s)) (scouters m)).
  assert (L1 : for_each (scouters m) (reset_scouter_body x y) m
               = Ok (tt, set_scouters kept m)).
  { apply (reset_scouters_loop x y (scouters m) [] m); auto. }
  destruct (in_dec pos_dec (x, y) l) as [I|NI].
  - eexists. split.
    + unfold reset. unfold bind at 1. unfold gets at 1.
      unfold bind at 1. rewrite L1.
      unfold bind. rewrite (get_food_ok _ l) by exact F.
      apply (reset_food_loop x y l [] _ n); auto.
    + simpl. repeat apply conj; auto; try tauto.
      intros _. repeat apply conj.
      * rewrite dict_get_set_other by discriminate. apply dict_get_set_same.
      * apply dict_get_set_same.
      * rewrite !keys_set_present; auto.
        -- congruence.
        -- rewrite dict_get_set_other by discriminate. congruence.
      * intros k N1 N2. rewrite !dict_get_set_other; auto.
  - exists (set_scouters kept m). split.
    + unfold reset. unfold bind at 1. unfold gets at 1.
      unfold bind at 1. rewrite L1.
      unfold bind. rewrite (get_food_ok _ l) by exact F.
      now apply reset_food_loop_absent.
    + simpl. repeat apply conj; auto; try tauto.
      intros _ A. unfold kept.
      replace (filter (fun s => negb (at_pos x y s)) (scouters m)) with (scouters m).
      * apply set_scouters_id.
      * symmetry. apply forallb_filter_id. exact A.
Qed.

(** *** [compute_max_scouters] *)

Lemma item_state k m j m' : item k m = Ok (j, m') -> m' = m.
Proof.
  unfold item, bind, gets, ret, raise.
  destruct (dict_get k (knowledge m)) as [[]|]; congruence.
Qed.

Lemma computing_entry_state name m v m' : computing_entry name m = Ok (v, m') -> m' = m.
Proof.
  unfold computing_entry, bind, lift.
  destruct (item "Computing" m) as [[c m1]|] eqn:E; [|discriminate].
  apply item_state in E. subst m1.
  destruct (subscript c name); congruence.
Qed.

Lemma min_entry_state m v m' : min_entry m = Ok (v, m') -> m' = m.
Proof.
  unfold min_entry, bind, lift.
  destruct (item "Scouters" m) as [[c m1]|] eqn:E; [|discriminate].
  apply item_state in E. subst m1.
  destruct (subscript c "Min"); congruence.
Qed.

(** A factor is an entry that is a number. *)
Lemma factor_entry name m v m' :
  factor name m = Ok (v, m') <->
  exists j, computing_entry name m = Ok (j, m) /\ as_number j = Ok v /\ m' = m.
Proof.
  unfold factor, computing_entry, bind, lift.
  destruct (item "Computing" m) as [[c m1]|] eqn:E.
  - apply item_state in E. subst m1. destruct (subscript c name) as [j|].
    + split.
      * destruct (as_number j) eqn:N; [|discriminate]. intros [= <- <-]. eauto.
      * intros (j' & [= <-] & -> & ->). reflexivity.
    + split; [discriminate | intros (j' & C & _); discriminate].
  - split; [discriminate | intros (j' & C & _); discriminate].
Qed.

Lemma scouters_min_entry m v m' :
  scouters_min m = Ok (v, m') <->
  exists j, min_entry m = Ok (j, m) /\ as_int j = Ok v /\ m' = m.
Proof.
  unfold scouters_min, min_entry, bind, lift.
  destruct (item "Scouters" m) as [[c m1]|] eqn:E.
  - apply item_state in E. subst m1. destruct (subscript c "Min") as [j|].
    + split.
      * destruct (as_int j) eqn:N; [|discriminate]. intros [= <- <-]. eauto.
      * intros (j' & [= <-] & -> & ->). reflexivity.
    + split; [discriminate | intros (j' & C & _); discriminate].
  - split; [discriminate | intros (j' & C & _); discriminate].
Qed.

Lemma factor_state name m v m' : factor name m = Ok (v, m') -> m' = m.
Proof. intros E. apply factor_entry in E. now destruct E as (_ & _ & _ & ->). Qed.

Lemma scouters_min_state m v m' : scouters_min m = Ok (v, m') -> m' = m.
Proof. intros E. apply scouters_min_entry in E. now destruct E as (_ & _ & _ & ->). Qed.

Lemma get_food_state m l m' : get_food m = Ok (l, m') -> m' = m.
Proof.
  unfold get_food, bind, gets, ret, raise.
  destruct (dict_get "food" (knowledge m)) as [[]|]; congruence.
Qed.

Lemma get_max_state m n m' : get_max m = Ok (n, m') -> m' = m.
Proof.
  unfold get_max, bind, gets, ret, raise.
  destruct (dict_get "max_scouters" (knowledge m)) as [[]|]; congruence.
Qed.

Lemma get_food_entry m l m' :
  get_food m = Ok (l, m') -> dict_get "food" (knowledge m) = Some (FoodList l).
Proof.
  unfold get_food, bind, gets, ret, raise.
  destruct (dict_get "food" (knowledge m)) as [[]|]; congruence.
Qed.

Lemma get_max_entry m n m' :
  get_max m = Ok (n, m') -> dict_get "max_scouters" (knowledge m) = Some (Count n).
Proof.
  unfold get_max, bind, gets, ret, raise.
  destruct (dict_get "max_scouters" (knowledge m)) as [[]|]; congruence.
Qed.

(** With its entries read, [compute_max_scouters] returns or raises as
    the formula and [int] do. *)
Lemma compute_max_scouters_run m blob_size covering known_foods global minimum l :
  factor "Blob Size Factor" m = Ok (blob_size, m) ->
  factor "Covering Factor" m = Ok (covering, m) ->
  factor "Known Foods Factor" m = Ok (known_foods, m) ->
  factor "Global Factor" m = Ok (global, m) ->
  scouters_min m = Ok (minimum, m) ->
  dict_get "food" (knowledge m) = Some (FoodList l) ->
  compute_max_scouters m
  = match result_bind (total_scouters (board m) blob_size covering known_foods global l) int_of
    with
    | Ok n => Ok (Z.max minimum n, m)
    | Raise e => Raise e
    end.
Proof.
  intros B C K G S L.
  apply factor_entry in K. destruct K as (jk & K & Nk & _).
  apply scouters_min_entry in S. destruct S as (jm & S & Nm & _).
  unfold compute_max_scouters, total_scouters, bind, gets.
  rewrite B. unfold lift at 1.
  destruct (mul blob_size (get_blob_total (board m))) as [blob|]; simpl; [|reflexivity].
  rewrite C. unfold lift at 1.
  destruct (mul covering (get_cover (board m))) as [cover|]; simpl; [|reflexivity].
  unfold lift at 1. destruct (add blob cover) as [total|]; simpl; [|reflexivity].
  rewrite K, (get_food_ok _ _ L). unfold lift at 1. rewrite Nk.
  unfold lift at 1.
  destruct (mul known_foods (Int (Z.of_nat (List.length l)))) as [known|]; simpl;
    [|reflexivity].
  unfold lift at 1. destruct (add total known) as [total'|]; simpl; [|reflexivity].
  rewrite G. unfold lift at 1.
  destruct (true_div (height (board m) * width (board m)) 100000) as [area|]; simpl;
    [|reflexivity].
  unfold lift at 1. destruct (mul global (Float area)) as [scale|]; simpl; [|reflexivity].
  unfold lift at 1. destruct (mul total' scale) as [t|]; simpl; [|reflexivity].
  rewrite S. unfold lift at 1. destruct (int_of t) as [n|]; simpl; [|reflexivity].
  unfold lift. rewrite Nm. reflexivity.
Qed.

Lemma compute_max_scouters_value m blob_size covering known_foods global minimum l t n :
  factor "Blob Size Factor" m = Ok (blob_size, m) ->
  factor "Covering Factor" m = Ok (covering, m) ->
  factor "Known Foods Factor" m = Ok (known_foods, m) ->
  factor "Global Factor" m = Ok (global, m) ->
  scouters_min m = Ok (minimum, m) ->
  dict_get "food" (knowledge m) = Some (FoodList l) ->
  total_scouters (board m) blob_size covering known_foods global l = Ok t ->
  int_of t = Ok n ->
  compute_max_scouters m = Ok (Z.max minimum n, m).
Proof.
  intros B C K G S L T N.
  rewrite (compute_max_scouters_run _ _ _ _ _ _ _ B C K G S L), T. simpl. now rewrite N.
Qed.

Lemma compute_max_scouters_inv m q m' :
  compute_max_scouters m = Ok (q, m') ->
  m' = m /\
  exists blob_size covering known_foods global minimum l t n,
    factor "Blob Size Factor" m = Ok (blob_size, m) /\
    factor "Covering Factor" m = Ok (covering, m) /\
    factor "Known Foods Factor" m = Ok (known_foods, m) /\
    factor "Global Factor" m = Ok (global, m) /\
    scouters_min m = Ok (minimum, m) /\
    dict_get "food" (knowledge m) = Some (FoodList l) /\
    total_scouters (board m) blob_size covering known_foods global l = Ok t /\
    int_of t = Ok n /\
    q = Z.max minimum n.
Proof.
  unfold compute_max_scouters, bind, gets.
  destruct (factor "Blob Size Factor" m) as [[v1 m1]|] eqn:E1; [|discriminate].
  pose proof (factor_state _ _ _ _ E1). subst m1.
  unfold lift at 1.
  destruct (mul v1 (get_blob_total (board m))) as [blob|] eqn:A1; [|discriminate].
  destruct (factor "Covering Factor" m) as [[v2 m2]|] eqn:E2; [|discriminate].
  pose proof (factor_state _ _ _ _ E2). subst m2.
  unfold lift at 1.
  destruct (mul v2 (get_cover (board m))) as [cover|] eqn:A2; [|discriminate].
  unfold lift at 1. destruct (add blob cover) as [total|] eqn:A3; [|discriminate].
  destruct (computing_entry "Known Foods Factor" m) as [[j3 m3]|] eqn:E3; [|discriminate].
  pose proof (computing_entry_state _ _ _ _ E3). subst m3.
  destruct (get_food m) as [[l m4]|] eqn:E4; [|discriminate].
  pose proof (get_food_state _ _ _ E4). subst m4.
  unfold lift at 1. destruct (as_number j3) as [v3|] eqn:N3; [|discriminate].
  unfold lift at 1.
  destruct (mul v3 (Int (Z.of_nat (List.length l)))) as [known|] eqn:A4; [|discriminate].
  unfold lift at 1. destruct (add total known) as [total'|] eqn:A5; [|discriminate].
  destruct (factor "Global Factor" m) as [[v5 m5]|] eqn:E5; [|discriminate].
  pose proof (factor_state _ _ _ _ E5). subst m5.
  unfold lift at 1.
  destruct (true_div (height (board m) * width (board m)) 100000) as [area|] eqn:A6;
    [|discriminate].
  unfold lift at 1. destruct (mul v5 (Float area)) as [scale|] eqn:A7; [|discriminate].
  unfold lift at 1. destruct (mul total' scale) as [t|] eqn:A8; [|discriminate].
  destruct (min_entry m) as [[j6 m6]|] eqn:E6; [|discriminate].
  pose proof (min_entry_state _ _ _ E6). subst m6.
  unfold lift at 1. destruct (int_of t) as [n|] eqn:A9; [|discriminate].
  unfold lift. destruct (as_int j6) as [v6|] eqn:N6; [|discriminate].
  unfold ret. intros [= <- <-]. split; auto.
  exists v1, v2, v3, v5, v6, l, t, n. apply get_food_entry in E4.
  repeat apply conj; auto.
  - apply factor_entry. eauto.
  - apply scouters_min_entry. eauto.
  - unfold total_scouters. rewrite A1. simpl. rewrite A2. simpl. rewrite A3. simpl.
    rewrite A4. simpl. rewrite A5. simpl. rewrite A6. simpl. rewrite A7. simpl. exact A8.
Qed.

(** The quota is at least the minimum. *)
Lemma compute_above_minimum m q m' :
  compute_max_scouters m = Ok (q, m') ->
  exists minimum, scouters_min m = Ok (minimum, m) /\ minimum <= q.
Proof.
  intros C. apply compute_max_scouters_inv in C.
  destruct C as (_ & v1 & v2 & v3 & v5 & minimum & l & t & n &
                 _ & _ & _ & _ & A6 & _ & _ & _ & ->).
  exists minimum. split; [exact A6 | lia].
Qed.

(** The exact value of a float that [int] accepts. *)
Lemma int_of_float f n :
  int_of (Float f) = Ok n <-> exists q, float_value f = Some q /\ n = py_int q.
Proof.
  simpl. destruct (float_value f) as [q|].
  - split; [intros [= <-]; eauto | intros (q' & [= <-] & ->); reflexivity].
  - split; [discriminate | intros (q' & C & _); discriminate].
Qed.

(** A product with a float is a float. *)
Lemma mul_float a f t : mul a (Float f) = Ok t -> exists g, t = Float g.
Proof.
  destruct a as [z|x]; simpl.
  - destruct (float_of_int z); simpl; [|discriminate]. intros [= <-]. eauto.
  - intros [= <-]. eauto.
Qed.

Lemma total_scouters_float (b : Board) blob_size covering known_foods global l t :
  total_scouters b blob_size covering known_foods global l = Ok t -> exists f, t = Float f.
Proof.
  unfold total_scouters.
  destruct (mul blob_size (get_blob_total b)); simpl; [|discriminate].
  destruct (mul covering (get_cover b)); simpl; [|discriminate].
  destruct (add a a0); simpl; [|discriminate].
  destruct (mul known_foods _); simpl; [|discriminate].
  destruct (add a1 a2); simpl; [|discriminate].
  destruct (true_div _ _) as [area|]; simpl; [|discriminate].
  destruct (mul global (Float area)) as [scale|] eqn:S; simpl; [|discriminate].
  apply mul_float in S. destruct S as (g & ->). apply mul_float.
Qed.

(** C4, as amended: with its entries read, [compute_max_scouters] leaves
    the state as it is and returns the larger of the minimum and
    [int(F)], where [F] is the formula evaluated in Python's arithmetic:
    a float, each operation on floats rounded.  It raises what the
    arithmetic raises, [OverflowError] when [F] is an infinity and
    [ValueError] when [F] is a NaN.  [int] truncates the exact value of
    [F] toward zero, which gives the larger of the minimum and the floor
    of [F] whenever [F] or the minimum is not negative. *)
Theorem compute_max_scouters_spec m blob_size covering known_foods global minimum l :
  factor "Blob Size Factor" m = Ok (blob_size, m) ->
  factor "Covering Factor" m = Ok (covering, m) ->
  factor "Known Foods Factor" m = Ok (known_foods, m) ->
  factor "Global Factor" m = Ok (global, m) ->
  scouters_min m = Ok (minimum, m) ->
  dict_get "food" (knowledge m) = Some (FoodList l) ->
  let F := total_scouters (board m) blob_size covering known_foods global l in
  (forall e, F = Raise e -> compute_max_scouters m = Raise e) /\
  (forall t, F = Ok t ->
     exists f, t = Float f /\
       match float_value f with
       | Some q =>
           compute_max_scouters m = Ok (Z.max minimum (py_int q), m) /\
           ((0 <= q)%Q \/ 0 <= minimum ->
            compute_max_scouters m = Ok (Z.max minimum (Qfloor q), m))
       | None =>
           compute_max_scouters m
           = Raise (if is_nan f then ValueError else OverflowError)
       end).
Proof.
  intros B C K G S L F.
  pose proof (compute_max_scouters_run _ _ _ _ _ _ _ B C K G S L) as E. fold F in E.
  split.
  - intros e Fe. now rewrite E, Fe.
  - intros t Ft. destruct (total_scouters_float _ _ _ _ _ _ _ Ft) as (f & ->).
    exists f. split; [reflexivity|]. rewrite E, Ft. simpl.
    destruct (float_value f) as [q|]; [|reflexivity].
    split; [reflexivity|]. intros H. now rewrite quota_floor.
Qed.

(** *** [find_blob_square] *)

Lemma availables_in (b : Board) sq w :
  In (sq, w) (availables_of b) <->
  0 <= fst sq < width b /\ 0 <= snd sq < height b /\
  is_touched b (fst sq) (snd sq) = true /\
  w = (get_blob b (fst sq) (snd sq) + 1)%Q.
Proof.
  unfold availables_of. rewrite in_flat_map. split.
  - intros (x0 & Ix & I). rewrite in_flat_map in I. destruct I as (y0 & Iy & I).
    apply in_range in Ix, Iy.
    destruct (is_touched b x0 y0) eqn:T; simpl in I; [|tauto].
    destruct I as [I|[]]. injection I as <- <-. simpl. auto.
  - intros (Rx & Ry & T & ->). exists (fst sq). split; [now apply in_range|].
    rewrite in_flat_map. exists (snd sq). split; [now apply in_range|].
    rewrite T. left. now destruct sq.
Qed.

(** C6: on a board whose touched squares carry no negative blob,
    [find_blob_square] returns a square under every state of the random
    source: a touched square of the board when there is one, and (0, 0),
    without drawing, when there is none. *)
Theorem find_blob_square_total m :
  (forall x y, is_touched (board m) x y = true -> 0 <= get_blob (board m) x y)%Q ->
  exists sq m',
    find_blob_square m = Ok (Some sq, m') /\
    board m' = board m /\ knowledge m' = knowledge m /\ scouters m' = scouters m /\
    ((exists x y, 0 <= x < width (board m) /\ 0 <= y < height (board m) /\
                  is_touched (board m) x y = true) ->
     0 <= fst sq < width (board m) /\ 0 <= snd sq < height (board m) /\
     is_touched (board m) (fst sq) (snd sq) = true) /\
    ((forall x y, 0 <= x < width (board m) -> 0 <= y < height (board m) ->
                  is_touched (board m) x y = false) ->
     sq = (0, 0) /\ m' = m).
Proof.
  intros NN. unfold find_blob_square, bind, gets.
  destruct (availables_of (board m)) as [|a l] eqn:E.
  - exists (0, 0), m. simpl. unfold ret. repeat apply conj; auto.
    intros (x0 & y0 & Rx & Ry & T). exfalso.
    assert (I : In ((x0, y0), (get_blob (board m) x0 y0 + 1)%Q) (availables_of (board m))).
    { apply availables_in. simpl. auto. }
    rewrite E in I. exact I.
  - rewrite <- E. replace (Nat.eqb (List.length (availables_of (board m))) 0) with false
      by (now rewrite E).
    assert (W : forall a, In a (availables_of (board m)) -> (1 <= snd a)%Q).
    { intros [sq w] I. apply availables_in in I. destruct I as (_ & _ & T & ->).
      simpl. specialize (NN _ _ T). lra. }
    assert (P : (1 <= total_weight (availables_of (board m)))%Q).
    { apply total_weight_pos; auto. rewrite E. discriminate. }
    pose proof (py_int_pos _ P) as P1.
    unfold randrange.
    destruct (Z.leb_spec (py_int (total_weight (availables_of (board m)))) 0) as [C|_]; [lia|].
    set (draw := rng m (rng_pos m) mod py_int (total_weight (availables_of (board m)))).
    assert (D : 0 <= draw < py_int (total_weight (availables_of (board m))))
      by (apply Z.mod_pos_bound; lia).
    destruct (pick_selects (availables_of (board m)) 0%Q draw) as (sq & S & I).
    + rewrite E. discriminate.
    + fold (total_weight (availables_of (board m))).
      assert (inject_Z draw <= inject_Z (py_int (total_weight (availables_of (board m)))))%Q
        by (rewrite <- Zle_Qle; lia).
      pose proof (py_int_le (total_weight (availables_of (board m)))). lra.
    + exists sq. eexists. unfold ret. rewrite S. split; [reflexivity|]. simpl.
      apply in_map_iff in I. destruct I as ([sq' w] & <- & I). simpl.
      pose proof I as I'. apply availables_in in I'. simpl in I'.
      repeat apply conj; auto; try tauto.
      intros A. exfalso. destruct I' as (Rx & Ry & T & _).
      rewrite A in T; auto. discriminate.
Qed.

(** *** What the methods keep of the state *)

Section Keeps.
Variable R : Manager -> Manager -> Prop.
Hypothesis R_refl : forall m, R m m.
Hypothesis R_trans : forall m1 m2 m3, R m1 m2 -> R m2 m3 -> R m1 m3.

Lemma keeps_ret {A} (a : A) : keeps R (ret a).
Proof. intros m a' m' E. injection E as _ <-. apply R_refl. Qed.

Lemma keeps_bind {A B} (c : M A) (f : A -> M B) :
  keeps R c -> (forall a, keeps R (f a)) -> keeps R (bind c f).
Proof.
  intros Hc Hf m b m' E. unfold bind in E.
  destruct (c m) as [[a m1]|] eqn:E1; [|discriminate].
  eapply R_trans; [eapply Hc; eauto | eapply Hf; eauto].
Qed.

Lemma keeps_raise {A} e : keeps R (@raise Board Ant A e).
Proof. intros m a m' E. discriminate. Qed.

Lemma keeps_lift {A} (r : result A) : keeps R (lift r).
Proof.
  intros m a m' E. unfold lift in E. destruct r; [|discriminate].
  injection E as _ <-. apply R_refl.
Qed.

Lemma keeps_gets {A} (f : Manager -> A) : keeps R (gets f).
Proof. intros m a m' E. injection E as _ <-. apply R_refl. Qed.

Lemma keeps_modify (f : Manager -> Manager) :
  (forall m, R m (f m)) -> keeps R (modify f).
Proof. intros H m a m' E. injection E as _ <-. apply H. Qed.

Lemma keeps_for_each {A} (l : list A) (body : A -> M unit) :
  (forall a, keeps R (body a)) -> keeps R (for_each l body).
Proof.
  intros H. induction l as [|a l IH]; simpl.
  - apply keeps_ret.
  - apply keeps_bind; auto.
Qed.

Lemma keeps_repeat n (body : M unit) : keeps R body -> keeps R (repeat_m n body).
Proof.
  intros H. induction n as [|n IH]; simpl.
  - apply keeps_ret.
  - apply keeps_bind; auto.
Qed.
End Keeps.

Lemma config_kept_refl m : config_kept m m.
Proof. intros k _ _. reflexivity. Qed.

Lemma config_kept_trans m1 m2 m3 :
  config_kept m1 m2 -> config_kept m2 m3 -> config_kept m1 m3.
Proof. intros H1 H2 k N1 N2. rewrite H2, H1; auto. Qed.

Lemma only_random_refl m : only_random m m.
Proof. unfold only_random. auto. Qed.

Lemma only_random_trans m1 m2 m3 :
  only_random m1 m2 -> only_random m2 m3 -> only_random m1 m3.
Proof. unfold only_random. intuition congruence. Qed.

#[local] Hint Resolve config_kept_refl config_kept_trans
  only_random_refl only_random_trans : frame.

(** One step of a proof that a method keeps a relation: a method known
    to keep it, or the rule of the construct at the head. *)
Ltac frame_step :=
  first
    [ solve [auto 2 with frame]
    | apply keeps_ret; solve [auto with frame]
    | apply keeps_gets; solve [auto with frame]
    | apply keeps_lift; solve [auto with frame]
    | apply keeps_raise
    | apply keeps_bind; [solve [eauto with frame] | | intros ?]
    | apply keeps_for_each; [solve [auto with frame] | solve [eauto with frame] | intros ?]
    | apply keeps_repeat; [solve [auto with frame] | solve [eauto with frame] | ]
    | match goal with
      | |- keeps _ (if ?b then _ else _) => destruct b
      | |- keeps _ (match ?x with _ => _ end) => destruct x
      end ].

Ltac frame := repeat frame_step.

Abbreviation framed := (keeps (@config_kept Board Ant)).
Abbreviation pure := (keeps (@only_random Board Ant)).

Lemma frame_modify (f : Manager -> Manager) :
  (forall m, forall k, k <> "food" -> k <> "max_scouters" ->
             dict_get k (knowledge (f m)) = dict_get k (knowledge m)) ->
  framed (modify f).
Proof. intros H. apply keeps_modify. intros m k N1 N2. now apply H. Qed.

Lemma only_random_config m m' : only_random m m' -> config_kept m m'.
Proof. intros (_ & K & _) k _ _. now rewrite K. Qed.

Lemma pure_framed {A} (c : M A) : pure c -> framed c.
Proof. intros H m a m' E. eapply only_random_config, H, E. Qed.

(** Methods that read the state and the random source, and change
    nothing else. *)

Lemma pure_randrange n : pure (randrange n).
Proof.
  intros m a m' E. unfold randrange in E. destruct (n <=? 0); [discriminate|].
  injection E as _ <-. unfold only_random. simpl. auto.
Qed.

Lemma pure_item k : pure (item k).
Proof. unfold item. frame. Qed.

Lemma pure_get_food : pure get_food.
Proof. unfold get_food. frame. Qed.

Lemma pure_get_max : pure get_max.
Proof. unfold get_max. frame. Qed.

Lemma pure_scouters_len : pure scouters_len.
Proof. unfold scouters_len. frame. Qed.

#[local] Hint Resolve pure_randrange pure_item pure_get_food pure_get_max
  pure_scouters_len : frame.

Lemma pure_compute : pure compute_max_scouters.
Proof. unfold compute_max_scouters, factor, scouters_min. frame. Qed.

Lemma pure_find_blob_square : pure find_blob_square.
Proof. unfold find_blob_square. frame. Qed.

#[local] Hint Resolve pure_compute pure_find_blob_square : frame.

Lemma pure_spawn_square : pure spawn_square.
Proof. unfold spawn_square. frame. Qed.

#[local] Hint Resolve pure_spawn_square : frame.

(** Methods that keep the entries of the file. *)

Lemma frame_gets {A} (f : Manager -> A) : framed (gets f).
Proof. frame. Qed.

Lemma frame_randrange n : framed (randrange n).
Proof. apply pure_framed, pure_randrange. Qed.

Lemma frame_item k : framed (item k).
Proof. apply pure_framed, pure_item. Qed.

Lemma frame_get_food : framed get_food.
Proof. apply pure_framed, pure_get_food. Qed.

Lemma frame_get_max : framed get_max.
Proof. apply pure_framed, pure_get_max. Qed.

Lemma frame_scouters_len : framed scouters_len.
Proof. apply pure_framed, pure_scouters_len. Qed.

Lemma frame_compute : framed compute_max_scouters.
Proof. apply pure_framed, pure_compute. Qed.

Lemma frame_find_blob_square : framed find_blob_square.
Proof. apply pure_framed, pure_find_blob_square. Qed.

Lemma frame_spawn_square : framed spawn_square.
Proof. apply pure_framed, pure_spawn_square. Qed.

Lemma frame_set_food l : framed (set_food l).
Proof.
  apply frame_modify. intros m k N1 N2. simpl. now apply dict_get_set_other.
Qed.

Lemma frame_set_max n : framed (set_max n).
Proof.
  apply frame_modify. intros m k N1 N2. simpl. now apply dict_get_set_other.
Qed.

Lemma frame_append_scouter x y : framed (append_scouter x y).
Proof. apply frame_modify. reflexivity. Qed.

#[local] Hint Resolve frame_randrange frame_item frame_get_food frame_get_max
  frame_scouters_len frame_compute frame_find_blob_square frame_spawn_square
  frame_set_food frame_set_max
  frame_append_scouter : frame.

Lemma frame_add_scouter : framed add_scouter.
Proof. unfold add_scouter. frame. Qed.

Lemma frame_remove_scouter : framed remove_scouter.
Proof. unfold remove_scouter. frame. apply frame_modify. reflexivity. Qed.

Lemma frame_remove_from_scouters i : framed (remove_from_scouters i).
Proof. unfold remove_from_scouters. frame. apply frame_modify. reflexivity. Qed.

Lemma frame_food_discovered x y : framed (food_discovered x y).
Proof. unfold food_discovered. frame. Qed.

#[local] Hint Resolve frame_add_scouter frame_remove_scouter frame_remove_from_scouters
  frame_food_discovered : frame.

Lemma frame_move_scouter i deads : framed (move_scouter i deads).
Proof.
  unfold move_scouter.
  frame; try (apply frame_modify; reflexivity).
  intros m r m' E. injection E as _ <-. intros k _ _. reflexivity.
Qed.

#[local] Hint Resolve frame_move_scouter : frame.

Lemma frame_move_scouters indices deads : framed (move_scouters indices deads).
Proof.
  revert deads. induction indices as [|i rest IH]; intros deads; simpl; frame.
Qed.

Lemma frame_spawn_loop fuel : framed (spawn_loop fuel).
Proof. induction fuel as [|fuel IH]; simpl; frame. Qed.

#[local] Hint Resolve frame_move_scouters frame_spawn_loop : frame.

(** *** [__init__] on a defective source *)

Lemma holds_kept doc m m' : holds doc m -> config_kept m m' -> holds doc m'.
Proof. intros H K k N1 N2. rewrite K, H; auto. Qed.

Lemma fails_bind {A B} (c : M A) (f : A -> M B) m :
  (forall a m', c m = Ok (a, m') -> fails (f a m')) -> fails (bind c f m).
Proof.
  intros H. unfold bind. destruct (c m) as [[a m']|e]; simpl; auto.
Qed.

Lemma item_held doc m k j m' :
  holds doc m -> k <> "food" -> k <> "max_scouters" ->
  item k m = Ok (j, m') -> dict_get k (loaded doc) = Some j.
Proof.
  intros H N1 N2. unfold item, bind, gets, ret, raise. rewrite H by auto.
  destruct (dict_get k (loaded doc)); simpl; congruence.
Qed.

Lemma item_missing doc m k :
  holds doc m -> k <> "food" -> k <> "max_scouters" ->
  fails (field (loaded doc) [k]) -> fails (item k m).
Proof.
  intros H N1 N2. unfold item, bind, gets, raise, field. simpl. rewrite H by auto.
  destruct (dict_get k (loaded doc)); simpl; tauto.
Qed.

Lemma factor_held doc m name v m' :
  holds doc m -> factor name m = Ok (v, m') ->
  exists j, field (loaded doc) ["Computing"; name] = Ok j.
Proof.
  intros H. unfold factor, bind.
  destruct (item "Computing" m) as [[c m1]|] eqn:E; [|discriminate].
  apply (item_held doc) in E; auto; try discriminate.
  unfold lift. destruct (subscript c name) as [j|] eqn:S; [|discriminate].
  intros _. exists j. unfold field. simpl. now rewrite E.
Qed.

Lemma scouters_min_held doc m v m' :
  holds doc m -> scouters_min m = Ok (v, m') ->
  exists j, field (loaded doc) ["Scouters"; "Min"] = Ok j.
Proof.
  intros H. unfold scouters_min, bind.
  destruct (item "Scouters" m) as [[c m1]|] eqn:E; [|discriminate].
  apply (item_held doc) in E; auto; try discriminate.
  unfold lift. destruct (subscript c "Min") as [j|] eqn:S; [|discriminate].
  intros _. exists j. unfold field. simpl. now rewrite E.
Qed.

Lemma compute_held doc m q m' path :
  holds doc m -> compute_max_scouters m = Ok (q, m') ->
  In path quota_fields -> exists j, field (loaded doc) path = Ok j.
Proof.
  intros H E I. apply compute_max_scouters_inv in E.
  destruct E as (_ & v1 & v2 & v3 & v5 & v6 & l & t & n & E1 & E2 & E3 & E5 & E6 & _).
  simpl in I.
  destruct I as [<-|[<-|[<-|[<-|[<-|[]]]]]];
    eauto using factor_held, scouters_min_held.
Qed.

(** The state the constructor computes the quota in. *)
Lemma init_unfold (b : Board) doc rnd :
  init (Document doc) (@blank Board Ant b rnd) =
  bind compute_max_scouters (fun mx => bind (set_max mx) (fun _ => spawn_loop (Z.to_nat mx)))
    (set_knowledge
       (dict_set "food" (FoodList (board_food b)) (map (on_values Loaded) (loaded doc)))
       (@blank Board Ant b rnd)).
Proof.
  unfold init, bind at 1, lift, load. unfold bind at 1, modify. unfold bind at 1, gets.
  unfold bind at 1, set_food, modify. simpl.
  change (@nil (string * entry)) with (map (on_values Loaded) (@nil (string * json))).
  rewrite dict_update_map. reflexivity.
Qed.

Lemma init_holds (b : Board) doc rnd :
  holds doc (set_knowledge
       (dict_set "food" (FoodList (board_food b)) (map (on_values Loaded) (loaded doc)))
       (@blank Board Ant b rnd)).
Proof.
  intros k N1 N2. simpl. rewrite dict_get_set_other by auto. apply dict_get_map.
Qed.

Lemma new_manager_holds (b : Board) doc rnd m :
  new_manager b (Document doc) rnd = Ok m -> holds doc m.
Proof.
  unfold new_manager. rewrite init_unfold.
  set (m1 := set_knowledge _ _). pose proof (init_holds b doc rnd) as H. fold m1 in H.
  destruct (bind _ _ m1) as [[u m']|] eqn:E; [|discriminate].
  intros [= ->]. eapply holds_kept; [exact H|].
  revert E. generalize m1 u m. fold (keeps (@config_kept Board Ant)
    (bind compute_max_scouters
       (fun mx => bind (set_max mx) (fun _ => spawn_loop (Z.to_nat mx))))).
  frame.
Qed.

(** C3, as amended: the constructor raises when the source cannot be
    read, is not JSON, or lacks one of the fields the quota is computed
    from (the four factors under [Computing] and [Scouters.Min]).  It
    does not look at [Global Decrease] and [Remaining Blob on Food]: a
    manager built from a document that lacks one of them raises in its
    first tick. *)
Theorem construction_checks_quota_fields_only (b : Board) src rnd :
  (defective src -> fails (new_manager b src rnd)) /\
  (lacks_decay src -> forall m, new_manager b src rnd = Ok m -> fails (move m)).
Proof.
  split.
  - destruct src as [| |doc]; simpl; auto.
    intros (path & I & F). unfold new_manager. rewrite init_unfold.
    unfold bind at 1.
    destruct (compute_max_scouters _) as [[q m1]|] eqn:E; simpl; auto.
    destruct (compute_held doc _ _ _ path (init_holds b doc rnd) E I) as [j J].
    rewrite J in F. destruct F.
  - destruct src as [| |doc]; simpl; try tauto.
    intros (path & I & F) m N. apply new_manager_holds in N.
    unfold move.
    apply fails_bind. intros n m1 E1. apply frame_gets in E1.
    apply fails_bind. intros deads m2 E2. apply frame_move_scouters in E2.
    apply fails_bind. intros new_max m3 E3. apply frame_compute in E3.
    apply fails_bind. intros old m4 E4. apply frame_get_max in E4.
    apply fails_bind. intros u5 m5 E5. apply frame_set_max in E5.
    apply fails_bind. intros qt m6 E6. apply frame_gets in E6.
    apply fails_bind. intros mx m7 E7. apply frame_get_max in E7.
    apply fails_bind. intros u8 m8 E8.
    assert (K8 : config_kept m7 m8).
    { revert E8. generalize m7 u8 m8.
      fold (keeps (@config_kept Board Ant)
              (if 0 <? mx - qt then repeat_m (Z.to_nat (mx - qt)) add_scouter
               else if mx - qt <? 0 then repeat_m (Z.to_nat (- (mx - qt))) remove_scouter
               else ret tt)).
      frame. }
    apply fails_bind. intros u9 m9 E9.
    assert (K9 : config_kept m8 m9).
    { revert E9. generalize m8 u9 m9.
      fold (keeps (@config_kept Board Ant)
              (for_each deads (fun dead => bind (remove_from_scouters dead) (fun _ => add_scouter)))).
      frame. }
    assert (H9 : holds doc m9).
    { repeat (eapply holds_kept; [|eassumption]). exact N. }
    simpl in I. destruct I as [<-|[<-|[]]].
    + apply fails_bind. intros j m10 E10. exfalso.
      pose proof (item_missing doc m9 "Global Decrease" H9) as X.
      rewrite E10 in X. apply X; auto; discriminate.
    + apply fails_bind. intros j m10 E10.
      pose proof (item_state _ _ _ _ E10). subst m10.
      apply fails_bind. intros j' m11 E11. exfalso.
      pose proof (item_missing doc m9 "Remaining Blob on Food" H9) as X.
      rewrite E11 in X. apply X; auto; discriminate.
Qed.

(** *** [save], and the constructor on a blank board *)

Lemma save_persisted float_repr m :
  save float_repr m =
  match persisted (knowledge m) with
  | Ok d => Ok (json_dumps float_repr (JObj d), m)
  | Raise e => Raise e
  end.
Proof.
  unfold save, persisted, bind, gets, lift, ret, view.
  rewrite dict_del_map. destruct (dict_del "food" (knowledge m)) as [d1|]; simpl; auto.
  rewrite dict_del_map. destruct (dict_del "max_scouters" d1); reflexivity.
Qed.

Lemma persisted_fresh doc f c :
  dict_get "food" doc = None -> dict_get "max_scouters" doc = None ->
  persisted (dict_set "max_scouters" (Count c)
               (dict_set "food" (FoodList f) (map (on_values Loaded) doc)))
  = Ok doc.
Proof.
  intros G1 G2.
  assert (N1 : ~ In "food" (keys doc)) by now apply dict_get_none_keys.
  assert (N2 : ~ In "max_scouters" (keys doc)) by now apply dict_get_none_keys.
  rewrite (dict_set_absent "food") by (rewrite dict_get_map, G1; reflexivity).
  rewrite (dict_set_absent "max_scouters").
  - unfold persisted, view. rewrite !map_app. fold (view (map (on_values Loaded) doc)).
    rewrite view_loaded. simpl. rewrite <- app_assoc. simpl. unfold on_values. simpl.
    rewrite dict_del_app by exact N1. simpl.
    rewrite dict_del_app by exact N2. now rewrite app_nil_r.
  - apply dict_get_none_keys. rewrite keys_app. intros I. apply in_app_or in I.
    destruct I as [I|I].
    + apply N2. unfold keys in *. rewrite map_map in I. exact I.
    + simpl in I. destruct I as [I|[]]. discriminate.
Qed.

Lemma flat_map_nil {A B} (f : A -> list B) (xs : list A) :
  (forall a, In a xs -> f a = []) -> flat_map f xs = [].
Proof.
  induction xs as [|a xs IH]; simpl; intros H; auto.
  rewrite H by auto. simpl. auto.
Qed.

Lemma availables_blank (b : Board) : blank_board b -> availables_of b = [].
Proof.
  intros H. unfold availables_of. apply flat_map_nil. intros x _.
  apply flat_map_nil. intros y _. now rewrite H.
Qed.

Lemma board_food_blank (b : Board) : blank_board b -> board_food b = [].
Proof.
  intros H. unfold board_food. apply flat_map_nil. intros x _.
  apply flat_map_nil. intros y _. now rewrite H, andb_false_r.
Qed.

Lemma add_scouter_blank m mx :
  blank_board (board m) ->
  dict_get "food" (knowledge m) = Some (FoodList []) ->
  dict_get "max_scouters" (knowledge m) = Some (Count mx) ->
  exists m', add_scouter m = Ok (tt, m') /\ knowledge m' = knowledge m /\ board m' = board m.
Proof.
  intros B F C. unfold add_scouter, bind, scouters_len, gets. rewrite (get_max_ok _ _ C).
  destruct (Z.of_nat (List.length (scouters m)) <? mx).
  - unfold spawn_square, bind. rewrite (get_food_ok _ _ F). simpl.
    unfold find_blob_square, bind, gets. rewrite availables_blank by auto. simpl.
    unfold ret, append_scouter, modify. eexists. split; [reflexivity|]. simpl. auto.
  - exists m. unfold ret. auto.
Qed.

Lemma spawn_loop_blank fuel m mx :
  blank_board (board m) ->
  dict_get "food" (knowledge m) = Some (FoodList []) ->
  dict_get "max_scouters" (knowledge m) = Some (Count mx) ->
  exists m', spawn_loop fuel m = Ok (tt, m') /\ knowledge m' = knowledge m /\ board m' = board m.
Proof.
  revert m. induction fuel as [|fuel IH]; intros m B F C; simpl.
  - exists m. unfold ret. auto.
  - unfold bind, scouters_len, gets. rewrite (get_max_ok _ _ C).
    destruct (Z.of_nat (List.length (scouters m)) <? mx).
    + destruct (add_scouter_blank m mx B F C) as (m1 & E & K & Bd). rewrite E.
      destruct (IH m1) as (m' & E' & K' & Bd'); rewrite ?K, ?Bd; auto.
      exists m'. rewrite E', K', Bd', K, Bd. auto.
    + exists m. unfold ret. auto.
Qed.

Lemma item_entry k m j m' :
  item k m = Ok (j, m') -> dict_get k (knowledge m) = Some (Loaded j).
Proof.
  unfold item, bind, gets, ret, raise.
  destruct (dict_get k (knowledge m)) as [[]|]; congruence.
Qed.

(** What a manager reads under a key of the file, a manager that holds
    the reloaded document reads too, up to the order of keys. *)
Lemma item_transfer m m' d doc k j :
  persisted (knowledge m) = Ok d ->
  json_equiv (JObj d) (JObj doc) -> well_formed (JObj doc) = true ->
  holds doc m' ->
  k <> "food" -> k <> "max_scouters" ->
  item k m = Ok (j, m) ->
  exists j', item k m' = Ok (j', m') /\ json_equiv j j' /\ well_formed j' = true.
Proof.
  intros P E W H N1 N2 I. apply item_entry in I.
  pose proof (persisted_get _ _ _ _ P N1 N2 I) as G.
  pose proof W as W'. apply well_formed_obj in W'. destruct W' as [ND Wv].
  destruct (dict_get_equiv _ _ _ _ E ND G) as (j' & G' & Ej).
  exists j'. repeat split; auto.
  - unfold item, bind, gets, ret. rewrite H by auto.
    rewrite loaded_distinct by exact ND. now rewrite G'.
  - apply (Wv (k, j')). now apply dict_get_in.
Qed.

Lemma factor_transfer m m' d doc name v :
  persisted (knowledge m) = Ok d ->
  json_equiv (JObj d) (JObj doc) -> well_formed (JObj doc) = true ->
  holds doc m' ->
  factor name m = Ok (v, m) -> factor name m' = Ok (v, m').
Proof.
  intros P E W H. unfold factor, bind.
  destruct (item "Computing" m) as [[c m1]|] eqn:I; [|discriminate].
  pose proof (item_state _ _ _ _ I). subst m1.
  destruct (item_transfer m m' d doc "Computing" c P E W H) as (c' & I' & Ec & Wc);
    try discriminate; auto.
  rewrite I'. unfold lift.
  destruct (subscript c name) as [x|] eqn:S; [|discriminate].
  destruct (subscript_equiv _ _ _ _ Ec Wc S) as (y & S' & Exy & _).
  rewrite S', <- (as_number_equiv _ _ Exy).
  destruct (as_number x); congruence.
Qed.

Lemma scouters_min_transfer m m' d doc v :
  persisted (knowledge m) = Ok d ->
  json_equiv (JObj d) (JObj doc) -> well_formed (JObj doc) = true ->
  holds doc m' ->
  scouters_min m = Ok (v, m) -> scouters_min m' = Ok (v, m').
Proof.
  intros P E W H. unfold scouters_min, bind.
  destruct (item "Scouters" m) as [[c m1]|] eqn:I; [|discriminate].
  pose proof (item_state _ _ _ _ I). subst m1.
  destruct (item_transfer m m' d doc "Scouters" c P E W H) as (c' & I' & Ec & Wc);
    try discriminate; auto.
  rewrite I'. unfold lift.
  destruct (subscript c "Min") as [x|] eqn:S; [|discriminate].
  destruct (subscript_equiv _ _ _ _ Ec Wc S) as (y & S' & Exy & _).
  rewrite S', <- (as_int_equiv _ _ Exy).
  destruct (as_int x); congruence.
Qed.

Lemma persisted_ok k f c :
  dict_get "food" k = Some f -> dict_get "max_scouters" k = Some c ->
  exists d, persisted k = Ok d.
Proof.
  intros F C. unfold persisted, view.
  destruct (dict_del_present "food" (entry_json f) (map (on_values entry_json) k))
    as [d1 D1]; [now rewrite dict_get_map, F|].
  rewrite D1. simpl.
  destruct (dict_del_present "max_scouters" (entry_json c) d1) as [d D]; eauto.
  rewrite (dict_get_del_other _ _ _ _ D1) by discriminate.
  now rewrite dict_get_map, C.
Qed.

(** A manager built on a blank board from a document that agrees with
    what [save] writes, up to the order of keys, writes the same text. *)
Lemma reload_saves float_repr (b : Board) m1 d doc rnd q f :
  dict_get "food" (knowledge m1) = Some f ->
  persisted (knowledge m1) = Ok d ->
  dict_get "food" d = None -> dict_get "max_scouters" d = None ->
  json_equiv (JObj d) (JObj doc) -> well_formed (JObj doc) = true ->
  blank_board b -> quota_on b [] m1 = Ok q ->
  exists m', new_manager b (Document doc) rnd = Ok m' /\
             save float_repr m' = Ok (json_dumps float_repr (JObj d), m').
Proof.
  intros F1 P1 G1 G2 Ed Wd Bl Q.
  unfold quota_on in Q.
  set (m0 := set_knowledge _ (set_board b m1)) in Q.
  destruct (compute_max_scouters m0) as [[q0 m0']|] eqn:C0; [|discriminate].
  apply compute_max_scouters_inv in C0.
  destruct C0 as (_ & v1 & v2 & v3 & v5 & mn & l & t & n &
                  A1 & A2 & A3 & A5 & A6 & F0 & T0 & N0 & _).
  assert (L0 : l = []).
  { unfold m0 in F0. simpl in F0. rewrite dict_get_set_same in F0. congruence. }
  subst l.
  assert (P0 : persisted (knowledge m0) = Ok d).
  { unfold m0. simpl. rewrite persisted_set_food; [exact P1 | congruence]. }
  pose proof Wd as Wd'. apply well_formed_obj in Wd'. destruct Wd' as [NDdoc _].
  pose proof (equiv_get_none _ _ _ Ed G1) as D1.
  pose proof (equiv_get_none _ _ _ Ed G2) as D2.
  unfold new_manager. rewrite init_unfold.
  pose proof (init_holds b doc rnd) as H.
  set (mi := set_knowledge _ (blank b rnd)) in *.
  assert (Fi : dict_get "food" (knowledge mi) = Some (FoodList [])).
  { unfold mi. simpl. rewrite dict_get_set_same, board_food_blank; auto. }
  pose proof (compute_max_scouters_value mi _ _ _ _ _ _ t n
                (factor_transfer _ _ _ _ _ _ P0 Ed Wd H A1)
                (factor_transfer _ _ _ _ _ _ P0 Ed Wd H A2)
                (factor_transfer _ _ _ _ _ _ P0 Ed Wd H A3)
                (factor_transfer _ _ _ _ _ _ P0 Ed Wd H A5)
                (scouters_min_transfer _ _ _ _ _ P0 Ed Wd H A6) Fi T0 N0) as Ci.
  unfold bind at 1. rewrite Ci.
  set (q' := Z.max mn _).
  unfold bind at 1, set_max at 1, modify.
  set (mj := set_knowledge _ mi).
  destruct (spawn_loop_blank (Z.to_nat q') mj q') as (m' & L & K & _).
  - exact Bl.
  - unfold mj. simpl. rewrite dict_get_set_other by discriminate.
    rewrite dict_get_set_same, board_food_blank; auto.
  - unfold mj. simpl. apply dict_get_set_same.
  - rewrite L. exists m'. split; [reflexivity|].
    rewrite save_persisted, K. unfold mj, mi. simpl.
    rewrite loaded_distinct by exact NDdoc.
    rewrite persisted_fresh by auto. unfold json_dumps.
    now rewrite (encode_equiv float_repr _ _ 0%nat Ed Wd).
Qed.

(** C7: on a manager with its derived entries, [save] returns a text:
    the knowledge without its ['food'] and ['max_scouters'] entries, keys
    sorted at every level.  A manager whose knowledge agrees with it up
    to the order of keys returns the same text.  [json.loads] reads the
    text back as a document, and a manager built from this document on
    a blank board returns the same text again.  The interpreter is taken
    to read the floats of the knowledge back from what it writes for
    them, and the quota of the knowledge to have a value on the blank
    board: the constructor raises otherwise. *)
Theorem save_round_trips float_repr float_of_string (b : Board) m1 m2 rnd q n f :
  dict_get "food" (knowledge m1) = Some f ->
  dict_get "max_scouters" (knowledge m1) = Some (Count n) ->
  json_equiv (JObj (view (knowledge m1))) (JObj (view (knowledge m2))) ->
  well_formed (JObj (view (knowledge m2))) = true ->
  reads_back float_repr float_of_string (JObj (view (knowledge m1))) ->
  blank_board b -> quota_on b [] m1 = Ok q ->
  exists text d doc,
    save float_repr m1 = Ok (text, m1) /\
    persisted (knowledge m1) = Ok d /\
    text = json_dumps float_repr (JObj d) /\
    dict_get "food" d = None /\ dict_get "max_scouters" d = None /\
    save float_repr m2 = Ok (text, m2) /\
    json_loads float_of_string text = Ok (JObj doc) /\
    exists m', new_manager b (Document doc) rnd = Ok m' /\
               save float_repr m' = Ok (text, m').
Proof.
  intros F1 M1 E12 W2 Rb Bl Q.
  destruct (persisted_ok _ _ _ F1 M1) as [d P1].
  exists (json_dumps float_repr (JObj d)), d,
    (sorted_items (map (on_values normal) d)).
  pose proof W2 as W2'. apply well_formed_obj in W2'. destruct W2' as [ND2 _].
  pose proof (equiv_distinct _ _ E12 ND2) as ND1.
  destruct (persisted_lacks _ _ ND1 P1) as (G1 & G2 & NDd).
  assert (Wd : well_formed (JObj d) = true).
  { pose proof (equiv_well_formed _ _ E12 W2) as W1. unfold persisted in P1.
    destruct (dict_del "food" (view (knowledge m1))) as [d1|] eqn:D1; [|discriminate].
    simpl in P1. eapply well_formed_del; [|exact P1]. eapply well_formed_del; eauto. }
  split; [now rewrite save_persisted, P1|].
  split; [exact P1|]. split; [reflexivity|]. split; [exact G1|]. split; [exact G2|].
  split; [|split].
  - destruct (persisted_equiv _ _ _ E12 W2 P1) as (d2 & P2 & E2 & Wd2).
    rewrite save_persisted, P2. unfold json_dumps.
    now rewrite (encode_equiv float_repr _ _ 0%nat E2 Wd2).
  - apply (json_loads_dumps float_repr float_of_string (JObj d) Wd).
    eapply reads_back_persisted; eauto.
  - eapply reload_saves; eauto.
    + exact (normal_equiv (JObj d)).
    + exact (normal_well_formed (JObj d) Wd).
Qed.

(** *** The population after a tick *)

Lemma remove_nth_length {A} (i : nat) (xs : list A) :
  (i < List.length xs)%nat -> S (List.length (remove_nth i xs)) = List.length xs.
Proof.
  revert i. induction xs as [|a xs IH]; simpl; intros i L; [lia|].
  destruct i as [|i]; simpl; auto. rewrite IH; auto. lia.
Qed.

Lemma remove_object_length i (xs ys : list (@scouter Ant)) :
  remove_object i xs = Ok ys -> S (List.length ys) = List.length xs.
Proof.
  revert ys. induction xs as [|s xs IH]; simpl; intros ys E; [discriminate|].
  destruct (Nat.eqb (sid s) i).
  - now injection E as <-.
  - destruct (remove_object i xs) as [r|]; simpl in E; [|discriminate].
    injection E as <-. simpl. now rewrite (IH r).
Qed.

(** [add_scouter] appends one scouter when the population is below the
    quota and does nothing otherwise; it never touches the knowledge or
    the board. *)
Lemma add_scouter_inv m m' :
  add_scouter m = Ok (tt, m') ->
  board m' = board m /\ knowledge m' = knowledge m /\
  exists quota,
    dict_get "max_scouters" (knowledge m) = Some (Count quota) /\
    ((population m < quota /\ population m' = population m + 1) \/
     (quota <= population m /\ m' = m)).
Proof.
  unfold add_scouter, bind, scouters_len, gets.
  destruct (get_max m) as [[quota m1]|] eqn:G; [|discriminate].
  pose proof (get_max_state _ _ _ G). subst m1. apply get_max_entry in G.
  fold (population m).
  destruct (Z.ltb_spec (population m) quota) as [L|L].
  - destruct (spawn_square m) as [[xy m2]|] eqn:X; [|discriminate].
    apply pure_spawn_square in X. destruct X as (Bd & K & S & N & _).
    unfold append_scouter, modify. intros [= <-]. simpl.
    repeat split; auto. exists quota. split; auto. left. split; auto.
    unfold population. simpl. rewrite S, length_app. simpl. lia.
  - unfold ret. intros [= <-]. repeat split; auto. exists quota. auto.
Qed.

(** [remove_scouter] raises on an empty list and removes one scouter
    otherwise. *)
Lemma remove_scouter_inv m m' :
  remove_scouter m = Ok (tt, m') ->
  board m' = board m /\ knowledge m' = knowledge m /\
  population m' = population m - 1.
Proof.
  unfold remove_scouter, bind, scouters_len, gets, randrange, modify.
  fold (population m).
  destruct (Z.leb_spec (population m) 0) as [L|L]; [discriminate|].
  intros [= <-]. simpl. repeat split; auto.
  pose proof (Z.mod_pos_bound (rng m (rng_pos m)) (population m) L) as B.
  pose proof (remove_nth_length
                (Z.to_nat (rng m (rng_pos m) mod population m)) (scouters m)) as R.
  unfold population in *. simpl. lia.
Qed.

Lemma remove_from_scouters_inv i m m' :
  remove_from_scouters i m = Ok (tt, m') ->
  board m' = board m /\ knowledge m' = knowledge m /\
  population m' = population m - 1.
Proof.
  unfold remove_from_scouters, bind, gets, lift, modify.
  destruct (remove_object i (scouters m)) as [ys|] eqn:R; [|discriminate].
  intros [= <-]. simpl. repeat split; auto.
  unfold population. simpl. apply remove_object_length in R. lia.
Qed.

Lemma repeat_add_scouter k m m' quota :
  repeat_m k add_scouter m = Ok (tt, m') ->
  dict_get "max_scouters" (knowledge m) = Some (Count quota) ->
  population m + Z.of_nat k <= quota ->
  board m' = board m /\ knowledge m' = knowledge m /\
  population m' = population m + Z.of_nat k.
Proof.
  revert m. induction k as [|k IH]; simpl; intros m E Q L.
  - injection E as <-. repeat split; auto. lia.
  - unfold bind in E. destruct (add_scouter m) as [[[] m1]|] eqn:A; [|discriminate].
    apply add_scouter_inv in A. destruct A as (B1 & K1 & quota' & Q' & A).
    assert (quota' = quota) by congruence. subst quota'.
    destruct A as [[_ P1]|[G _]]; [|lia].
    destruct (IH m1 E) as (B2 & K2 & P2); [congruence | lia |].
    repeat split; try congruence. lia.
Qed.

Lemma repeat_remove_scouter k m m' :
  repeat_m k remove_scouter m = Ok (tt, m') ->
  board m' = board m /\ knowledge m' = knowledge m /\
  population m' = population m - Z.of_nat k.
Proof.
  revert m. induction k as [|k IH]; simpl; intros m E.
  - injection E as <-. repeat split; auto. lia.
  - unfold bind in E. destruct (remove_scouter m) as [[[] m1]|] eqn:A; [|discriminate].
    apply remove_scouter_inv in A. destruct A as (B1 & K1 & P1).
    destruct (IH m1 E) as (B2 & K2 & P2).
    repeat split; try congruence. lia.
Qed.

(** The pass over the dead scouters keeps the population at the quota. *)
Lemma replace_deads deads m m' quota :
  for_each deads (fun dead => bind (remove_from_scouters dead) (fun _ => add_scouter)) m
  = Ok (tt, m') ->
  dict_get "max_scouters" (knowledge m) = Some (Count quota) ->
  population m = quota ->
  board m' = board m /\ knowledge m' = knowledge m /\ population m' = quota.
Proof.
  revert m. induction deads as [|d deads IH]; simpl; intros m E Q P.
  - injection E as <-. auto.
  - unfold bind in E.
    destruct (remove_from_scouters d m) as [[[] m1]|] eqn:R; [|discriminate].
    apply remove_from_scouters_inv in R. destruct R as (B1 & K1 & P1).
    destruct (add_scouter m1) as [[[] m2]|] eqn:A; [|discriminate].
    apply add_scouter_inv in A. destruct A as (B2 & K2 & quota' & Q' & A).
    assert (quota' = quota) by congruence. subst quota'.
    destruct A as [[_ P2]|[G _]]; [|lia].
    destruct (IH m2 E) as (B3 & K3 & P3); [congruence | lia |].
    repeat split; congruence.
Qed.

Lemma scouters_min_kept m m' v :
  config_kept m m' -> scouters_min m = Ok (v, m) -> scouters_min m' = Ok (v, m').
Proof.
  intros K. unfold scouters_min, item. unfold bind, gets, ret, raise, lift. cbv beta.
  rewrite (K "Scouters") by discriminate.
  destruct (dict_get "Scouters" (knowledge m)) as [[j| |]|]; try discriminate.
  destruct (subscript j "Min") as [x|]; [|discriminate].
  destruct (as_int x); congruence.
Qed.

Lemma bind_inv {A B} (c : M A) (f : A -> M B) m b m' :
  bind c f m = Ok (b, m') -> exists a m1, c m = Ok (a, m1) /\ f a m1 = Ok (b, m').
Proof.
  unfold bind. destruct (c m) as [[a m1]|]; [|discriminate]. eauto.
Qed.

(** The population and the quota after a tick. *)
Lemma move_population m m' :
  move m = Ok (tt, m') ->
  exists quota minimum,
    get_max m' = Ok (quota, m') /\
    scouters_min m' = Ok (minimum, m') /\
    population m' = quota /\ minimum <= quota.
Proof.
  unfold move. intros E.
  apply bind_inv in E. destruct E as (n & m1 & E1 & E).
  injection E1 as <- <-.
  apply bind_inv in E. destruct E as (deads & m2 & E2 & E).
  apply bind_inv in E. destruct E as (new_max & m3 & E3 & E).
  apply compute_max_scouters_inv in E3.
  destruct E3 as (-> & v1 & v2 & v3 & v5 & minimum & l & t & n0 &
                  _ & _ & _ & _ & Min & _ & _ & _ & ->).
  set (quota := Z.max minimum n0) in *.
  apply bind_inv in E. destruct E as (old & m4 & E4 & E).
  apply get_max_state in E4. subst m4.
  apply bind_inv in E. destruct E as ([] & m5 & E5 & E).
  injection E5 as <-.
  set (m5 := set_knowledge _ m2) in *.
  assert (Q5 : dict_get "max_scouters" (knowledge m5) = Some (Count quota))
    by apply dict_get_set_same.
  apply bind_inv in E. destruct E as (qt & m6 & E6 & E).
  injection E6 as <- <-. fold (population m5) in E.
  apply bind_inv in E. destruct E as (mx & m7 & E7 & E).
  rewrite (get_max_ok _ _ Q5) in E7. injection E7 as <- <-.
  apply bind_inv in E. destruct E as ([] & m8 & E8 & E).
  assert (R8 : board m8 = board m5 /\ knowledge m8 = knowledge m5 /\ population m8 = quota).
  { change (Z.of_nat (List.length (scouters m2))) with (population m5) in E8.
    destruct (Z.ltb_spec 0 (quota - population m5)) as [G|G].
    - apply repeat_add_scouter with (quota := quota) in E8; auto; [|lia].
      destruct E8 as (B & K & P). repeat split; auto. lia.
    - destruct (Z.ltb_spec (quota - population m5) 0) as [L|L].
      + apply repeat_remove_scouter in E8. destruct E8 as (B & K & P).
        repeat split; auto. lia.
      + injection E8 as <-. repeat split; auto. lia. }
  destruct R8 as (B8 & K8 & P8).
  apply bind_inv in E. destruct E as ([] & m9 & E9 & E).
  apply replace_deads with (quota := quota) in E9; [|congruence|exact P8].
  destruct E9 as (B9 & K9 & P9).
  apply bind_inv in E. destruct E as (decrease & m10 & E10 & E).
  apply item_state in E10. subst m10.
  apply bind_inv in E. destruct E as (remaining & m11 & E11 & E).
  apply item_state in E11. subst m11.
  apply bind_inv in E. destruct E as (d & m12 & E12 & E).
  unfold lift in E12. destruct (as_number decrease); [|discriminate]. injection E12 as _ <-.
  apply bind_inv in E. destruct E as (r & m13 & E13 & E).
  unfold lift in E13. destruct (as_number remaining); [|discriminate]. injection E13 as _ <-.
  injection E as <-.
  exists quota, minimum.
  match goal with |- context [set_board ?b m9] => set (mf := set_board b m9) end.
  assert (K' : knowledge mf = knowledge m5)
    by (transitivity (knowledge m9); [reflexivity | congruence]).
  repeat split.
  - apply get_max_ok. now rewrite K'.
  - apply scouters_min_kept with (m := m2); auto.
    intros k N1 N2. rewrite K'. unfold m5. simpl. now apply dict_get_set_other.
  - exact P9.
  - unfold quota. lia.
Qed.

(** X1: a tick that returns leaves exactly as many scouters as the
    stored quota, and this quota is not below the configured minimum. *)
Theorem move_reaches_quota m m' :
  move m = Ok (tt, m') ->
  exists quota minimum,
    get_max m' = Ok (quota, m') /\
    scouters_min m' = Ok (minimum, m') /\
    population m' = quota /\ minimum <= quota.
Proof.
  intros E. destruct (move_population m m' E) as (quota & minimum & G & S & P & L).
  exists quota, minimum. auto.
Qed.

(** *** The state after construction *)

Lemma spawn_loop_fills fuel m m' quota :
  spawn_loop fuel m = Ok (tt, m') ->
  dict_get "max_scouters" (knowledge m) = Some (Count quota) ->
  quota - population m <= Z.of_nat fuel ->
  board m' = board m /\ knowledge m' = knowledge m /\
  population m' = Z.max (population m) quota.
Proof.
  revert m. induction fuel as [|fuel IH]; simpl; intros m E Q L.
  - injection E as <-. repeat split; auto. lia.
  - apply bind_inv in E. destruct E as (n & m1 & E1 & E). injection E1 as <- <-.
    apply bind_inv in E. destruct E as (mx & m2 & E2 & E).
    rewrite (get_max_ok _ _ Q) in E2. injection E2 as <- <-.
    fold (population m) in E.
    destruct (Z.ltb_spec (population m) quota) as [G|G].
    + apply bind_inv in E. destruct E as ([] & m3 & E3 & E).
      apply add_scouter_inv in E3. destruct E3 as (B3 & K3 & quota' & Q' & A).
      assert (quota' = quota) by congruence. subst quota'.
      destruct A as [[_ P3]|[G' _]]; [|lia].
      destruct (IH m3 E) as (B & K & P); [congruence | lia |].
      repeat split; try congruence. lia.
    + injection E as <-. repeat split; auto. lia.
Qed.

Lemma factor_kept m m' name v :
  config_kept m m' -> factor name m = Ok (v, m) -> factor name m' = Ok (v, m').
Proof.
  intros K. unfold factor, item. unfold bind, gets, ret, raise, lift. cbv beta.
  rewrite (K "Computing") by discriminate.
  destruct (dict_get "Computing" (knowledge m)) as [[j| |]|]; try discriminate.
  destruct (subscript j name) as [x|]; [|discriminate].
  destruct (as_number x); congruence.
Qed.

(** The quota depends on the board, the known food and the entries of
    the file only. *)
Lemma compute_kept m m' q :
  config_kept m m' -> board m' = board m ->
  dict_get "food" (knowledge m') = dict_get "food" (knowledge m) ->
  compute_max_scouters m = Ok (q, m) -> compute_max_scouters m' = Ok (q, m').
Proof.
  intros K B F C. apply compute_max_scouters_inv in C.
  destruct C as (_ & v1 & v2 & v3 & v5 & mn & l & t & n &
                 A1 & A2 & A3 & A5 & A6 & Fl & T & N & ->).
  rewrite <- B in T.
  eapply compute_max_scouters_value;
    eauto using factor_kept, scouters_min_kept. congruence.
Qed.

Lemma NoDup_range n : NoDup (range n).
Proof.
  unfold range. apply Finite.Injective_map_NoDup.
  - intros a b. apply Nat2Z.inj.
  - apply seq_NoDup.
Qed.

Lemma NoDup_flat_map {A B} (f : A -> list B) (xs : list A) :
  NoDup xs -> (forall a, NoDup (f a)) ->
  (forall a a' b, In b (f a) -> In b (f a') -> a = a') ->
  NoDup (flat_map f xs).
Proof.
  intros NX NF Inj. induction NX as [|a xs NI NX IH]; simpl; [constructor|].
  apply NoDup_app; auto.
  intros b I1 I2. apply in_flat_map in I2. destruct I2 as (a' & Ia' & Ib).
  assert (a = a') by eauto. subst. tauto.
Qed.

Lemma board_food_distinct (b : Board) : NoDup (board_food b).
Proof.
  unfold board_food. apply NoDup_flat_map.
  - apply NoDup_range.
  - intros x. apply NoDup_flat_map.
    + apply NoDup_range.
    + intros y. destruct (has_food b x y && is_touched b x y); repeat constructor. simpl. tauto.
    + intros y y' p I1 I2.
      destruct (has_food b x y && is_touched b x y); simpl in I1; [|tauto].
      destruct (has_food b x y' && is_touched b x y'); simpl in I2; [|tauto].
      destruct I1 as [<-|[]]. destruct I2 as [I2|[]]. congruence.
  - intros x x' p I1 I2. apply in_flat_map in I1, I2.
    destruct I1 as (y & _ & I1). destruct I2 as (y' & _ & I2).
    destruct (has_food b x y && is_touched b x y); simpl in I1; [|tauto].
    destruct (has_food b x' y' && is_touched b x' y'); simpl in I2; [|tauto].
    destruct I1 as [<-|[]]. destruct I2 as [I2|[]]. congruence.
Qed.

(** The food of the board: the squares of the board that have food and
    are touched. *)
Lemma board_food_in (b : Board) x y :
  In (x, y) (board_food b) <->
  0 <= x < width b /\ 0 <= y < height b /\
  has_food b x y = true /\ is_touched b x y = true.
Proof.
  unfold board_food. rewrite in_flat_map. split.
  - intros (x' & Ix & I). apply in_flat_map in I. destruct I as (y' & Iy & I).
    apply in_range in Ix, Iy.
    destruct (has_food b x' y' && is_touched b x' y') eqn:E; [|destruct I].
    destruct I as [[= <- <-]|[]]. apply andb_true_iff in E. tauto.
  - intros (Ix & Iy & F & T). exists x. split; [now apply in_range|].
    apply in_flat_map. exists y. split; [now apply in_range|].
    rewrite F, T. now left.
Qed.

Lemma scouters_min_of_field doc m j z :
  holds doc m ->
  field (loaded doc) ["Scouters"; "Min"] = Ok j -> as_int j = Ok z ->
  scouters_min m = Ok (z, m).
Proof.
  intros H Fd N. unfold field in Fd. simpl in Fd.
  destruct (dict_get "Scouters" (loaded doc)) as [c|] eqn:D; [|discriminate].
  simpl in Fd.
  unfold scouters_min, item, bind, gets, ret, lift. rewrite H by discriminate.
  rewrite D. simpl. now rewrite Fd, N.
Qed.

(** X2: after construction from a document with an integer minimum, the
    manager holds the entries of the document, the food found on the
    board (the squares of the board that have food and are touched,
    each once) and the quota computed from them, which is not below the
    minimum, and as many scouters as the quota (none when the quota is
    negative). *)
Theorem new_manager_ready (b : Board) doc rnd m minimum :
  field (loaded doc) ["Scouters"; "Min"] = Ok (JInt minimum) ->
  new_manager b (Document doc) rnd = Ok m ->
  board m = b /\ holds doc m /\
  dict_get "food" (knowledge m) = Some (FoodList (board_food b)) /\
  NoDup (board_food b) /\
  (forall x y,
     In (x, y) (board_food b) <->
     0 <= x < width b /\ 0 <= y < height b /\
     has_food b x y = true /\ is_touched b x y = true) /\
  exists quota,
    dict_get "max_scouters" (knowledge m) = Some (Count quota) /\
    compute_max_scouters m = Ok (quota, m) /\
    minimum <= quota /\
    population m = Z.max 0 quota.
Proof.
  intros Mn N. pose proof (new_manager_holds _ _ _ _ N) as H.
  unfold new_manager in N. rewrite init_unfold in N.
  set (mi := set_knowledge _ _) in *.
  destruct (bind _ _ mi) as [[[] m']|] eqn:E; [|discriminate]. injection N as ->.
  apply bind_inv in E. destruct E as (quota & m1 & C & E).
  pose proof C as C'. apply compute_max_scouters_inv in C'. destruct C' as [-> _].
  apply bind_inv in E. destruct E as ([] & m2 & E2 & E). injection E2 as <-.
  set (mj := set_knowledge _ mi) in *.
  assert (Q : dict_get "max_scouters" (knowledge mj) = Some (Count quota))
    by apply dict_get_set_same.
  apply spawn_loop_fills with (quota := quota) in E; auto.
  - destruct E as (B & K & P).
    assert (F : dict_get "food" (knowledge m) = Some (FoodList (board_food b))).
    { rewrite K. unfold mj, mi. simpl. rewrite dict_get_set_other by discriminate.
      apply dict_get_set_same. }
    assert (C1 : compute_max_scouters m = Ok (quota, m)).
    { apply compute_kept with (m := mi); auto.
      - intros k N1 N2. rewrite K. unfold mj. simpl. now apply dict_get_set_other.
      - rewrite F. unfold mi. simpl. now rewrite dict_get_set_same. }
    split; [exact B|]. split; [exact H|]. split; [exact F|].
    split; [apply board_food_distinct|]. split; [apply board_food_in|].
    exists quota. split; [now rewrite K|]. split; [exact C1|]. split; [|exact P].
    destruct (compute_above_minimum _ _ _ C1) as (minimum' & S & L).
    rewrite (scouters_min_of_field doc m (JInt minimum) minimum H Mn eq_refl) in S.
    injection S as <-. exact L.
  - unfold population. simpl. lia.
Qed.

(** *** The known food over the ticks *)

Lemma keeps_distinct_refl m : keeps_distinct m m.
Proof. unfold keeps_distinct. auto. Qed.

Lemma keeps_distinct_trans m1 m2 m3 :
  keeps_distinct m1 m2 -> keeps_distinct m2 m3 -> keeps_distinct m1 m3.
Proof. unfold keeps_distinct. auto. Qed.

#[local] Hint Resolve keeps_distinct_refl keeps_distinct_trans : frame.

Abbreviation careful := (keeps (@keeps_distinct Board Ant)).

Lemma same_knowledge_distinct m m' : knowledge m' = knowledge m -> keeps_distinct m m'.
Proof. intros K D l. rewrite K. apply D. Qed.

Lemma pure_careful {A} (c : M A) : pure c -> careful c.
Proof. intros H m a m' E. apply same_knowledge_distinct. eapply H; eauto. Qed.

Lemma careful_modify (f : Manager -> Manager) :
  (forall m, dict_get "food" (knowledge (f m)) = dict_get "food" (knowledge m)) ->
  careful (modify f).
Proof.
  intros H. apply keeps_modify. intros m D l. rewrite H. apply D.
Qed.

Lemma careful_add_scouter : careful add_scouter.
Proof.
  intros m [] m' E. apply add_scouter_inv in E.
  apply same_knowledge_distinct. tauto.
Qed.

Lemma careful_remove_scouter : careful remove_scouter.
Proof.
  intros m [] m' E. apply remove_scouter_inv in E.
  apply same_knowledge_distinct. tauto.
Qed.

Lemma careful_remove_from_scouters i : careful (remove_from_scouters i).
Proof.
  intros m [] m' E. apply remove_from_scouters_inv in E.
  apply same_knowledge_distinct. tauto.
Qed.

Lemma careful_set_max n : careful (set_max n).
Proof.
  apply careful_modify. intros m. simpl. apply dict_get_set_other. discriminate.
Qed.

(** The discovery as [move] runs it: only for a position that is not
    known yet. *)
Lemma careful_discovery x y :
  careful (bind get_food (fun food =>
             if negb (existsb (pos_eqb (x, y)) food)
             then food_discovered x y else ret tt)).
Proof.
  intros m a m' E. apply bind_inv in E. destruct E as (food & m1 & E1 & E).
  pose proof (get_food_state _ _ _ E1). subst m1. apply get_food_entry in E1.
  destruct (existsb (pos_eqb (x, y)) food) eqn:X; simpl in E.
  - injection E as _ <-. apply keeps_distinct_refl.
  - unfold food_discovered, bind in E. rewrite (get_food_ok _ _ E1) in E.
    injection E as _ <-. intros D l. simpl. rewrite dict_get_set_same.
    intros [= <-]. apply NoDup_app; auto.
    + repeat constructor. simpl. tauto.
    + intros p I [<-|[]].
      assert (existsb (pos_eqb (x, y)) food = true); [|congruence].
      apply existsb_exists. exists (x, y). split; auto. apply pos_eqb_refl.
Qed.

#[local] Hint Resolve careful_add_scouter careful_remove_scouter
  careful_remove_from_scouters careful_set_max careful_discovery : frame.

Lemma careful_move_scouter i deads : careful (move_scouter i deads).
Proof.
  unfold move_scouter.
  frame; try (apply careful_modify; reflexivity);
    try (apply pure_careful; solve [frame]).
  intros m r m' E. injection E as _ <-. apply same_knowledge_distinct. reflexivity.
Qed.

#[local] Hint Resolve careful_move_scouter : frame.

Lemma careful_move_scouters indices deads : careful (move_scouters indices deads).
Proof.
  revert deads. induction indices as [|i rest IH]; intros deads; simpl; frame.
Qed.

#[local] Hint Resolve careful_move_scouters : frame.

(** X3: a tick does not introduce a duplicate in the known food:
    [move] discovers a position only when the list does not hold it. *)
Theorem move_keeps_food_distinct m m' :
  food_distinct m -> move m = Ok (tt, m') -> food_distinct m'.
Proof.
  intros D E. revert D.
  assert (C : careful move).
  { unfold move.
    frame; try (apply careful_modify; reflexivity);
      try (apply pure_careful; solve [frame]). }
  exact (C m tt m' E).
Qed.

(** ** More on the methods *)

(** The steps of a method that returned, one after the other. *)
Ltac bind_step E :=
  apply bind_inv in E;
  let a := fresh "a" in let m := fresh "m" in let H := fresh "E" in
  destruct E as (a & m & H & E).

Tactic Notation "bind_open" hyp(E) "as" simple_intropattern(a) ident(m) ident(H) :=
  apply bind_inv in E; destruct E as (a & m & H & E).

(** The conjuncts of the goal, without unfolding a definition. *)
Ltac conj_split := repeat match goal with |- _ /\ _ => split end.

(** *** The outcomes of [find_blob_square] *)

Lemma find_blob_square_unfold m :
  find_blob_square m =
  match availables_of (board m) with
  | [] => Ok (Some (0, 0), m)
  | _ :: _ =>
      if py_int (total_weight (availables_of (board m))) <=? 0 then Raise ValueError
      else Ok (pick (availables_of (board m)) 0%Q
                 (rng m (rng_pos m) mod py_int (total_weight (availables_of (board m)))),
               set_rng_pos (S (rng_pos m)) m)
  end.
Proof.
  unfold find_blob_square, bind, gets, randrange, ret. cbv beta.
  destruct (availables_of (board m)) as [|a l]; simpl; [reflexivity|].
  destruct (py_int (total_weight (a :: l)) <=? 0); reflexivity.
Qed.

(** The draw of [find_blob_square] is below the total weight, which the
    accumulation reaches at the last square. *)
Lemma pick_total (l : list weighted) (r : Z) :
  l <> [] -> 0 < py_int (total_weight l) ->
  exists sq, pick l 0%Q (r mod py_int (total_weight l)) = Some sq /\ In sq (map fst l).
Proof.
  intros N P. apply pick_selects; auto.
  pose proof (Z.mod_pos_bound r _ P) as B.
  assert (G : (0 <= total_weight l)%Q).
  { destruct (Qlt_le_dec (total_weight l) 0) as [L|L]; auto.
    apply Qlt_le_weak, py_int_nonpos in L. lia. }
  apply py_int_le in G. fold (total_weight l).
  apply Qle_trans with (inject_Z (py_int (total_weight l))); auto.
  rewrite <- Zle_Qle. lia.
Qed.

(** X4: [find_blob_square] raises exactly when some square is touched
    and the truncated total weight is not positive, and then a
    [ValueError]; when it returns, it returns a square: (0, 0) when no
    square is touched and one of the touched squares otherwise, after
    one draw. *)
Theorem find_blob_square_outcome m :
  let availables := availables_of (board m) in
  let total_blob := total_weight availables in
  (fails (find_blob_square m) <-> availables <> [] /\ py_int total_blob <= 0) /\
  (fails (find_blob_square m) -> find_blob_square m = Raise ValueError) /\
  (forall r m', find_blob_square m = Ok (r, m') ->
     exists sq, r = Some sq /\
       (availables = [] -> sq = (0, 0) /\ m' = m) /\
       (availables <> [] ->
        In sq (map fst availables) /\ m' = set_rng_pos (S (rng_pos m)) m)).
Proof.
  intros availables total_blob. subst availables total_blob.
  rewrite find_blob_square_unfold.
  destruct (availables_of (board m)) as [|a l] eqn:A.
  - split; [|split].
    + simpl. split; [tauto|]. intros [N _]. now apply N.
    + simpl. tauto.
    + intros r m' [= <- <-]. exists (0, 0). repeat split; congruence.
  - assert (N : a :: l <> []) by discriminate.
    destruct (Z.leb_spec (py_int (total_weight (a :: l))) 0) as [L|L].
    + split; [|split].
      * simpl. tauto.
      * reflexivity.
      * discriminate.
    + destruct (pick_total (a :: l) (rng m (rng_pos m)) N L) as (sq & P & I).
      rewrite P. split; [|split].
      * simpl. split; [tauto|]. intros [_ G]. lia.
      * simpl. tauto.
      * intros r m' [= <- <-]. exists sq. repeat split; auto; discriminate.
Qed.

(** *** [remove_scouter] *)

Lemma remove_scouter_run m :
  scouters m <> [] ->
  exists pre s post m',
    remove_scouter m = Ok (tt, m') /\
    scouters m = pre ++ s :: post /\ scouters m' = pre ++ post /\
    Z.of_nat (List.length pre) = rng m (rng_pos m) mod population m /\
    board m' = board m /\ knowledge m' = knowledge m /\
    next_id m' = next_id m /\ rng_pos m' = S (rng_pos m).
Proof.
  intros N. unfold remove_scouter, bind, scouters_len, gets, randrange, modify.
  fold (population m).
  assert (P : 0 < population m).
  { unfold population. destruct (scouters m); simpl; [congruence | lia]. }
  destruct (Z.leb_spec (population m) 0) as [L|_]; [lia|].
  pose proof (Z.mod_pos_bound (rng m (rng_pos m)) _ P) as B.
  destruct (remove_nth_split (Z.to_nat (rng m (rng_pos m) mod population m)) (scouters m))
    as (pre & s & post & S1 & L1 & R).
  { unfold population in *. lia. }
  exists pre, s, post. eexists. split; [reflexivity|]. simpl.
  conj_split; auto. lia.
Qed.

(** X5: [remove_scouter] raises a [ValueError] on a manager without
    scouters; otherwise it takes exactly one scouter out of the list, at
    the index drawn, and keeps the others in their order, the board and
    the knowledge. *)
Theorem remove_scouter_spec m :
  (scouters m = [] <-> fails (remove_scouter m)) /\
  (scouters m = [] -> remove_scouter m = Raise ValueError) /\
  (scouters m <> [] ->
   exists pre s post m',
     remove_scouter m = Ok (tt, m') /\
     scouters m = pre ++ s :: post /\ scouters m' = pre ++ post /\
     Z.of_nat (List.length pre) = rng m (rng_pos m) mod population m /\
     board m' = board m /\ knowledge m' = knowledge m /\
     rng_pos m' = S (rng_pos m)).
Proof.
  assert (E : scouters m = [] -> remove_scouter m = Raise ValueError).
  { intros S0. unfold remove_scouter, bind, scouters_len, gets, randrange.
    rewrite S0. reflexivity. }
  split; [|split].
  - split.
    + intros S0. rewrite (E S0). exact I.
    + intros Fl. destruct (scouters m) as [|s0 rest] eqn:S0; auto.
      destruct (remove_scouter_run m) as (pre & s & post & m' & R & _).
      * rewrite S0. discriminate.
      * rewrite R in Fl. destruct Fl.
  - exact E.
  - intros N. destruct (remove_scouter_run m N)
      as (pre & s & post & m' & R & S & S' & L & B & K & _ & P).
    exists pre, s, post, m'. auto 10.
Qed.

(** *** [save] without the derived entries *)

(** X6: [save] raises a [KeyError] for the first of ['food'] and
    ['max_scouters'] that the knowledge lacks, and returns a text when
    it has both. *)
Theorem save_raises_on_missing_entry (float_repr : float -> string) m :
  (dict_get "food" (knowledge m) = None -> save float_repr m = Raise (KeyError "food")) /\
  (dict_get "food" (knowledge m) <> None -> dict_get "max_scouters" (knowledge m) = None ->
   save float_repr m = Raise (KeyError "max_scouters")) /\
  (fails (save float_repr m) <->
   dict_get "food" (knowledge m) = None \/ dict_get "max_scouters" (knowledge m) = None).
Proof.
  rewrite save_persisted. unfold persisted.
  destruct (dict_get "food" (knowledge m)) as [f|] eqn:F.
  - assert (Fv : dict_get "food" (view (knowledge m)) = Some (entry_json f))
      by (rewrite view_get, F; reflexivity).
    destruct (dict_del_present _ _ _ Fv) as (d & D). rewrite D. simpl.
    assert (Mv : dict_get "max_scouters" d
                 = option_map entry_json (dict_get "max_scouters" (knowledge m))).
    { rewrite (dict_get_del_other _ _ _ _ D) by discriminate. apply view_get. }
    destruct (dict_get "max_scouters" (knowledge m)) as [c|] eqn:C; simpl in Mv.
    + destruct (dict_del_present _ _ _ Mv) as (d' & D'). rewrite D'.
      repeat split; simpl; try congruence; try tauto. intros [|]; discriminate.
    + rewrite (dict_del_absent _ _ Mv).
      repeat split; simpl; auto; congruence.
  - assert (Fv : dict_get "food" (view (knowledge m)) = None)
      by (rewrite view_get, F; reflexivity).
    rewrite (dict_del_absent _ _ Fv). simpl.
    repeat split; auto; congruence.
Qed.

(** *** A discovery undone *)

(** X7: [food_destroyed] after [food_discovered] at the same position
    always returns; it restores the state when the position was not
    known, and otherwise moves the first occurrence of the position to
    the end of the list. *)
Theorem food_discovered_then_destroyed m x y l :
  dict_get "food" (knowledge m) = Some (FoodList l) ->
  exists m1 m2,
    food_discovered x y m = Ok (tt, m1) /\
    food_destroyed x y m1 = Ok (tt, m2) /\
    (~ In (x, y) l -> m2 = m) /\
    (In (x, y) l ->
     exists before after,
       l = before ++ (x, y) :: after /\ ~ In (x, y) before /\
       dict_get "food" (knowledge m2) = Some (FoodList (before ++ after ++ [(x, y)]))) /\
    same_but "food" m m2.
Proof.
  intros G.
  assert (R : exists l', remove_first (x, y) (l ++ [(x, y)]) = Ok l' /\
                (~ In (x, y) l -> l' = l) /\
                (In (x, y) l ->
                 exists before after,
                   l = before ++ (x, y) :: after /\ ~ In (x, y) before /\
                   l' = before ++ after ++ [(x, y)])).
  { destruct (in_dec pos_dec (x, y) l) as [I|N].
    - destruct (remove_first_present _ _ I) as (k1 & k2 & E & N & _).
      exists (k1 ++ k2 ++ [(x, y)]). split; [|split].
      + rewrite E, <- app_assoc. simpl. now apply remove_first_app.
      + tauto.
      + intros _. exists k1, k2. auto.
    - exists l. split; [|split]; auto; [|tauto].
      rewrite <- (app_nil_r (l ++ [(x, y)])), <- app_assoc. simpl.
      rewrite (remove_first_app (x, y) l []) by exact N. now rewrite app_nil_r. }
  destruct R as (l' & R & A & B).
  eexists. eexists.
  split; [unfold food_discovered, bind; rewrite (get_food_ok _ _ G); reflexivity|].
  unfold set_food, modify.
  split.
  { unfold food_destroyed, bind, lift, set_food, modify.
    rewrite (get_food_ok _ (l ++ [(x, y)])) by apply dict_get_set_same.
    rewrite R. reflexivity. }
  simpl. rewrite dict_set_set. split; [|split; [|repeat split]]; simpl; auto.
  - intros N. rewrite (A N). unfold set_knowledge. simpl.
    rewrite (dict_set_same_value _ _ _ G). now destruct m.
  - intros I. destruct (B I) as (before & after & E & N & ->).
    exists before, after. rewrite dict_get_set_same. auto.
  - apply keys_set_present. congruence.
  - intros k N. now apply dict_get_set_other.
Qed.

(** *** Where a new scouter is put *)

Lemma find_blob_square_inv m r m' :
  find_blob_square m = Ok (r, m') ->
  exists p, r = Some p /\ spawn_place (board m) [] p /\
            board m' = board m /\ knowledge m' = knowledge m /\
            scouters m' = scouters m /\ next_id m' = next_id m.
Proof.
  rewrite find_blob_square_unfold.
  destruct (availables_of (board m)) as [|a rest] eqn:A.
  - intros [= <- <-]. exists (0, 0). repeat split; auto; try congruence.
    intros _. right. split; auto. intros x y Rx Ry.
    destruct (is_touched (board m) x y) eqn:T; auto.
    assert (I : In ((x, y), (get_blob (board m) x y + 1)%Q) (availables_of (board m)))
      by (apply availables_in; simpl; auto).
    rewrite A in I. destruct I.
  - destruct (Z.leb_spec (py_int (total_weight (a :: rest))) 0) as [L|L]; [discriminate|].
    assert (N : a :: rest <> []) by discriminate.
    destruct (pick_total (a :: rest) (rng m (rng_pos m)) N L) as (sq & P & I).
    rewrite P. intros [= <- <-]. exists sq. repeat split; auto; try congruence.
    intros _. left. rewrite <- A in I. apply in_map_iff in I.
    destruct I as ([sq' w] & <- & I). apply availables_in in I. simpl. tauto.
Qed.

Lemma spawn_square_inv m p m' :
  spawn_square m = Ok (p, m') ->
  exists food,
    dict_get "food" (knowledge m) = Some (FoodList food) /\
    spawn_place (board m) food p /\
    board m' = board m /\ knowledge m' = knowledge m /\
    scouters m' = scouters m /\ next_id m' = next_id m.
Proof.
  unfold spawn_square. intros E. bind_step E.
  pose proof (get_food_state _ _ _ E0). subst m0. apply get_food_entry in E0.
  exists a. split; auto.
  destruct a as [|q food]; simpl in E.
  - bind_step E. apply find_blob_square_inv in E1.
    destruct E1 as (p' & -> & S & B & K & Sc & Nx). injection E as <- <-. auto.
  - bind_step E. unfold randrange in E1.
    match type of E1 with (if ?c then _ else _) = _ => destruct c end; [discriminate|].
    injection E1 as <- <-.
    destruct (nth_error (q :: food) _) as [p'|] eqn:Nth; [|discriminate].
    injection E as <- <-. apply nth_error_In in Nth.
    repeat split; auto. discriminate.
Qed.

Lemma add_scouter_grows m m' quota :
  add_scouter m = Ok (tt, m') ->
  dict_get "max_scouters" (knowledge m) = Some (Count quota) ->
  population m < quota ->
  exists food p,
    dict_get "food" (knowledge m) = Some (FoodList food) /\
    spawn_place (board m) food p /\
    scouters m'
    = scouters m ++ [{| sid := next_id m;
                        sant := FSMAnt (board m) (knowledge m) (fst p) (snd p) |}] /\
    next_id m' = S (next_id m) /\
    board m' = board m /\ knowledge m' = knowledge m.
Proof.
  unfold add_scouter, bind, scouters_len, gets. intros E Q L.
  rewrite (get_max_ok _ _ Q) in E. fold (population m) in E.
  destruct (Z.ltb_spec (population m) quota) as [_|G]; [|lia].
  destruct (spawn_square m) as [[p m1]|] eqn:X; [|discriminate].
  apply spawn_square_inv in X. destruct X as (food & F & S & B & K & Sc & Nx).
  unfold append_scouter, modify in E. injection E as <-. simpl.
  exists food, p. rewrite B, K, Sc, Nx. auto 10.
Qed.

(** X8: [add_scouter] does nothing when the population has reached the
    quota; below the quota it appends one scouter, built on the board
    and the knowledge of the manager at a known food, or without known
    food at a touched square (at the origin when the board has none),
    and keeps the scouters it had, the board and the knowledge. *)
Theorem add_scouter_spec m m' :
  add_scouter m = Ok (tt, m') ->
  exists quota,
    dict_get "max_scouters" (knowledge m) = Some (Count quota) /\
    (quota <= population m -> m' = m) /\
    (population m < quota ->
     exists food p,
       dict_get "food" (knowledge m) = Some (FoodList food) /\
       spawn_place (board m) food p /\
       scouters m'
       = scouters m ++ [{| sid := next_id m;
                           sant := FSMAnt (board m) (knowledge m) (fst p) (snd p) |}] /\
       board m' = board m /\ knowledge m' = knowledge m).
Proof.
  intros E. pose proof E as E'. apply add_scouter_inv in E'.
  destruct E' as (_ & _ & quota & Q & A). exists quota. split; auto. split.
  - intros G. destruct A as [[L _]|[_ A]]; [lia | exact A].
  - intros L. destruct (add_scouter_grows _ _ _ E Q L) as (food & p & F & S & Sc & _ & B & K).
    exists food, p. auto.
Qed.

(** *** The scouters of a new manager *)

Lemma new_manager_inv (b : Board) doc rnd m :
  new_manager b (Document doc) rnd = Ok m ->
  exists quota,
    let loaded_food :=
      dict_set "food" (FoodList (board_food b)) (map (on_values Loaded) (loaded doc)) in
    compute_max_scouters (set_knowledge loaded_food (@blank Board Ant b rnd))
    = Ok (quota, set_knowledge loaded_food (@blank Board Ant b rnd)) /\
    spawn_loop (Z.to_nat quota)
      (set_knowledge (dict_set "max_scouters" (Count quota) loaded_food)
         (@blank Board Ant b rnd))
    = Ok (tt, m).
Proof.
  intros N. unfold new_manager in N. rewrite init_unfold in N.
  set (mi := set_knowledge _ _) in *.
  destruct (bind _ _ mi) as [[[] m']|] eqn:E; [|discriminate]. injection N as ->.
  bind_step E. pose proof E0 as C. apply compute_max_scouters_inv in C.
  destruct C as [-> _]. bind_step E. unfold set_max, modify in E1.
  injection E1 as E1. subst m0.
  exists a. split; [exact E0 | exact E].
Qed.

Lemma spawn_loop_places fuel m m' food :
  spawn_loop fuel m = Ok (tt, m') ->
  dict_get "food" (knowledge m) = Some (FoodList food) ->
  exists new,
    scouters m' = scouters m ++ new /\
    Forall (fun s => exists p, sant s = FSMAnt (board m) (knowledge m) (fst p) (snd p) /\
                               spawn_place (board m) food p) new /\
    map sid new = seq (next_id m) (List.length new) /\
    next_id m' = (next_id m + List.length new)%nat.
Proof.
  revert m. induction fuel as [|fuel IH]; simpl; intros m E F.
  - injection E as <-. exists []. simpl. rewrite app_nil_r. repeat split; auto.
  - bind_step E. injection E0 as <- <-. bind_step E.
    pose proof (get_max_state _ _ _ E0). subst m0. apply get_max_entry in E0.
    fold (population m) in E.
    destruct (Z.ltb_spec (population m) a) as [L|L].
    + bind_step E. destruct a0.
      destruct (add_scouter_grows _ _ _ E1 E0 L) as (food' & p & F' & S & Sc & Nx & B & K).
      assert (food' = food) by congruence. subst food'.
      destruct (IH m0 E) as (new & Sc' & Fa & Ids & Nx'); [congruence|].
      exists ({| sid := next_id m;
                 sant := FSMAnt (board m) (knowledge m) (fst p) (snd p) |} :: new).
      rewrite Sc', Sc, <- app_assoc. simpl. repeat split; auto.
      * constructor; [exists p; auto|]. now rewrite B, K in Fa.
      * now rewrite Ids, Nx.
      * lia.
    + injection E as <-. exists []. simpl. rewrite app_nil_r. repeat split; auto.
Qed.

(** X9: every scouter of a new manager is an ant built on the board
    and the knowledge of the manager, at a food found on the board, or,
    when the board shows no food, at a touched square (at the origin
    when the board has none); the scouters are distinct objects. *)
Theorem new_manager_places_scouters (b : Board) doc rnd m :
  new_manager b (Document doc) rnd = Ok m ->
  Forall (fun s => exists p, sant s = FSMAnt b (knowledge m) (fst p) (snd p) /\
                             spawn_place b (board_food b) p) (scouters m) /\
  NoDup (map sid (scouters m)).
Proof.
  intros N. apply new_manager_inv in N. destruct N as (quota & _ & S).
  cbv zeta in S. pose proof S as S'.
  apply spawn_loop_fills with (quota := quota) in S'.
  - destruct S' as (_ & K & _).
    apply spawn_loop_places with (food := board_food b) in S.
    + destruct S as (new & Sc & Fa & Ids & _). simpl in Sc. rewrite Sc. split.
      * rewrite K. exact Fa.
      * rewrite Ids. apply seq_NoDup.
    + simpl. rewrite dict_get_set_other by discriminate. apply dict_get_set_same.
  - apply dict_get_set_same.
  - unfold population. simpl. lia.
Qed.

(** *** [reset] with repeated food positions *)

Lemma occurrences_in p l : (0 < occurrences p l)%nat -> In p l.
Proof.
  unfold occurrences. induction l as [|q l IH]; simpl; [lia|].
  destruct (pos_eqb p q) eqn:E.
  - apply pos_eqb_eq in E. auto.
  - auto.
Qed.

Lemma occurrences_zero p l : occurrences p l = 0%nat -> ~ In p l.
Proof.
  unfold occurrences. induction l as [|q l IH]; simpl; [tauto|].
  destruct (pos_eqb p q) eqn:E; simpl; [discriminate|].
  apply pos_eqb_neq in E. intros Z0 [C|C]; [congruence | now apply IH].
Qed.

Lemma occurrences_without p l : occurrences p (without p l) = 0%nat.
Proof.
  pose proof (without_not_in p l) as N.
  destruct (occurrences p (without p l)) eqn:E; auto.
  exfalso. apply N, occurrences_in. lia.
Qed.

Lemma occurrences_without_other p q l :
  p <> q -> occurrences p (without q l) = occurrences p l.
Proof.
  intros N. unfold occurrences, without. induction l as [|r l IH]; simpl; auto.
  destruct (pos_eqb r q) eqn:E; simpl.
  - apply pos_eqb_eq in E. subst r.
    destruct (pos_eqb p q) eqn:E'; [apply pos_eqb_eq in E'; congruence | exact IH].
  - destruct (pos_eqb p r); simpl; now rewrite IH.
Qed.

Lemma without_app p l1 l2 : without p (l1 ++ l2) = without p l1 ++ without p l2.
Proof. apply filter_app. Qed.

Lemma without_head p l : without p (p :: l) = without p l.
Proof. unfold without. simpl. now rewrite pos_eqb_refl. Qed.

Lemma without_comm p q l : without p (without q l) = without q (without p l).
Proof.
  unfold without. induction l as [|r l IH]; simpl; auto.
  destruct (pos_eqb r q) eqn:E, (pos_eqb r p) eqn:E'; simpl; rewrite ?E, ?E'; simpl;
    now rewrite IH.
Qed.

Lemma filter_comm {A} (f g : A -> bool) (xs : list A) :
  filter f (filter g xs) = filter g (filter f xs).
Proof.
  induction xs as [|a xs IH]; simpl; auto.
  destruct (f a) eqn:F, (g a) eqn:G; simpl; rewrite ?F, ?G; now rewrite IH.
Qed.

Lemma filter_twice {A} (f : A -> bool) (xs : list A) :
  filter f (filter f xs) = filter f xs.
Proof.
  induction xs as [|a xs IH]; simpl; auto.
  destruct (f a) eqn:F; simpl; rewrite ?F; now rewrite IH.
Qed.

Lemma NoDup_sid_filter (f : @scouter Ant -> bool) (xs : list (@scouter Ant)) :
  NoDup (map sid xs) -> NoDup (map sid (filter f xs)).
Proof.
  induction xs as [|s xs IH]; simpl; intros ND; auto.
  inversion ND as [|? ? NI ND']; subst.
  destruct (f s); simpl; auto. constructor; auto.
  intros I. apply NI. apply in_map_iff in I. destruct I as (t & E & I).
  apply filter_In in I. apply in_map_iff. exists t. tauto.
Qed.

(** The second loop of [reset] over a copy [todo] of the food, on a
    state whose food list [cur] still holds the occurrences to come:
    every occurrence met takes the first one left out of the list and
    one off the quota. *)
Lemma reset_food_loop_any x y (todo : list (Z * Z)) m cur n (K0 : dict) :
  knowledge m = dict_set "max_scouters" (Count n) (dict_set "food" (FoodList cur) K0) ->
  dict_get "food" K0 <> None ->
  (occurrences (x, y) todo <= occurrences (x, y) cur)%nat ->
  exists cur',
    for_each todo (reset_food_body x y) m
    = Ok (tt, set_knowledge
                (dict_set "max_scouters" (Count (n - Z.of_nat (occurrences (x, y) todo)))
                   (dict_set "food" (FoodList cur') K0)) m) /\
    without (x, y) cur' = without (x, y) cur /\
    (occurrences (x, y) cur' + occurrences (x, y) todo = occurrences (x, y) cur)%nat.
Proof.
  revert m cur n. induction todo as [|q todo IH]; intros m cur n K F L.
  - exists cur. simpl. rewrite Z.sub_0_r, <- K, set_knowledge_id.
    unfold occurrences. simpl. repeat split; auto.
  - simpl. unfold reset_food_body at 1.
    assert (O : occurrences (x, y) (q :: todo)
                = ((if pos_eqb (x, y) q then 1 else 0) + occurrences (x, y) todo)%nat).
    { unfold occurrences. simpl. destruct (pos_eqb (x, y) q); reflexivity. }
    destruct (pos_eqb q (x, y)) eqn:E.
    + apply pos_eqb_eq in E. subst q. rewrite pos_eqb_refl in O.
      assert (I : In (x, y) cur) by (apply occurrences_in; lia).
      destruct (remove_first_present _ _ I) as (pre & post & Ec & N & R).
      assert (Fm : dict_get "food" (knowledge m) = Some (FoodList cur)).
      { rewrite K, dict_get_set_other by discriminate. apply dict_get_set_same. }
      assert (Mm : dict_get "max_scouters" (knowledge m) = Some (Count n)).
      { rewrite K. apply dict_get_set_same. }
      assert (Oc : occurrences (x, y) cur = S (occurrences (x, y) (pre ++ post))).
      { rewrite Ec, !occurrences_app. unfold occurrences at 2. simpl.
        rewrite pos_eqb_refl. simpl. unfold occurrences. lia. }
      set (m1 := set_knowledge
                   (dict_set "max_scouters" (Count (n - 1))
                      (dict_set "food" (FoodList (pre ++ post)) K0)) m).
      assert (Step : bind get_food (fun l0 =>
                bind (lift (remove_first (x, y) l0)) (fun l' =>
                bind (set_food l') (fun _ =>
                bind get_max (fun n0 => set_max (n0 - 1))))) m = Ok (tt, m1)).
      { unfold bind at 1. rewrite (get_food_ok _ _ Fm).
        unfold bind at 1. unfold lift. rewrite R.
        unfold bind at 1. unfold set_food, modify.
        unfold bind. rewrite (get_max_ok _ n)
          by (simpl; rewrite dict_get_set_other by discriminate; exact Mm).
        unfold set_max, modify, m1, set_knowledge. simpl. do 2 f_equal. f_equal.
        rewrite K.
        rewrite (dict_set_comm "food" "max_scouters")
          by (try discriminate; rewrite dict_get_set_same; discriminate).
        now rewrite !dict_set_set. }
      unfold bind at 1. rewrite Step.
      destruct (IH m1 (pre ++ post) (n - 1)) as (cur' & Run & W & Occ); auto; [lia|].
      exists cur'. split; [|split].
      * rewrite Run, O. unfold m1. simpl.
        replace (n - 1 - Z.of_nat (occurrences (x, y) todo))
          with (n - Z.of_nat (1 + occurrences (x, y) todo)) by lia.
        reflexivity.
      * rewrite W, Ec, !without_app, without_head. reflexivity.
      * lia.
    + assert (E' : pos_eqb (x, y) q = false).
      { apply pos_eqb_neq. apply pos_eqb_neq in E. congruence. }
      rewrite E' in O. simpl in O. rewrite O in *.
      unfold bind at 1. unfold ret at 1. now apply IH.
Qed.

(** The state [reset] leaves. *)
Lemma reset_run m x y l n :
  dict_get "food" (knowledge m) = Some (FoodList l) ->
  dict_get "max_scouters" (knowledge m) = Some (Count n) ->
  NoDup (map sid (scouters m)) ->
  reset x y m
  = Ok (tt, set_knowledge
              (dict_set "max_scouters" (Count (n - Z.of_nat (occurrences (x, y) l)))
                 (dict_set "food" (FoodList (without (x, y) l)) (knowledge m)))
              (set_scouters (filter (fun s => negb (at_pos x y s)) (scouters m)) m)).
Proof.
  intros F C ND.
  pose (kept := filter (fun s => negb (at_pos x y s)) (scouters m)).
  assert (L1 : for_each (scouters m) (reset_scouter_body x y) m
               = Ok (tt, set_scouters kept m)).
  { apply (reset_scouters_loop x y (scouters m) [] m); auto. }
  unfold reset. unfold bind at 1. unfold gets at 1. unfold bind at 1. rewrite L1.
  unfold bind. rewrite (get_food_ok _ l) by exact F.
  destruct (reset_food_loop_any x y l (set_scouters kept m) l n (knowledge m))
    as (cur' & Run & W & Occ).
  - simpl. rewrite (dict_set_same_value _ _ _ F). now rewrite (dict_set_same_value _ _ _ C).
  - congruence.
  - lia.
  - rewrite Run. do 4 f_equal.
    assert (Z0 : occurrences (x, y) cur' = 0%nat) by lia.
    apply occurrences_zero, without_absent in Z0. congruence.
Qed.

(** X10: [reset] returns whatever the food list holds: it takes every
    scouter at the position out of the list, every occurrence of the
    position out of the known food, and one off ['max_scouters'] per
    occurrence, and keeps the board and the entries of the file. *)
Theorem reset_with_repeated_food m x y l n :
  dict_get "food" (knowledge m) = Some (FoodList l) ->
  dict_get "max_scouters" (knowledge m) = Some (Count n) ->
  NoDup (map sid (scouters m)) ->
  exists m',
    reset x y m = Ok (tt, m') /\
    scouters m' = filter (fun s => negb (at_pos x y s)) (scouters m) /\
    dict_get "food" (knowledge m') = Some (FoodList (without (x, y) l)) /\
    dict_get "max_scouters" (knowledge m')
    = Some (Count (n - Z.of_nat (occurrences (x, y) l))) /\
    board m' = board m /\ config_kept m m' /\
    keys (knowledge m') = keys (knowledge m).
Proof.
  intros F C ND. eexists. split; [apply (reset_run m x y l n); assumption|].
  simpl. split; [reflexivity|]. split; [|split; [|split; [|split]]].
  - rewrite dict_get_set_other by discriminate. apply dict_get_set_same.
  - apply dict_get_set_same.
  - reflexivity.
  - intros k N1 N2. simpl. rewrite !dict_get_set_other; auto.
  - rewrite !keys_set_present; auto; [congruence|].
    rewrite dict_get_set_other by discriminate. congruence.
Qed.

(** X11: [reset] is idempotent: a second call at the same position
    returns and changes nothing. *)
Theorem reset_idempotent m x y l n :
  dict_get "food" (knowledge m) = Some (FoodList l) ->
  dict_get "max_scouters" (knowledge m) = Some (Count n) ->
  NoDup (map sid (scouters m)) ->
  exists m', reset x y m = Ok (tt, m') /\ reset x y m' = Ok (tt, m').
Proof.
  intros F C ND. eexists. split; [apply (reset_run m x y l n); assumption|].
  erewrite reset_run.
  - simpl. rewrite occurrences_without, Z.sub_0_r, filter_twice.
    rewrite without_absent by apply without_not_in.
    rewrite (dict_set_comm "food" "max_scouters")
      by (try discriminate; rewrite dict_get_set_same; discriminate).
    rewrite !dict_set_set. reflexivity.
  - simpl. rewrite dict_get_set_other by discriminate. apply dict_get_set_same.
  - simpl. apply dict_get_set_same.
  - simpl. now apply NoDup_sid_filter.
Qed.

(** X12: two calls of [reset] commute: at any two positions, both
    orders return and leave the same state. *)
Theorem reset_commutes m x y x' y' l n :
  dict_get "food" (knowledge m) = Some (FoodList l) ->
  dict_get "max_scouters" (knowledge m) = Some (Count n) ->
  NoDup (map sid (scouters m)) ->
  exists m1 m2 m3,
    reset x y m = Ok (tt, m1) /\ reset x' y' m1 = Ok (tt, m3) /\
    reset x' y' m = Ok (tt, m2) /\ reset x y m2 = Ok (tt, m3).
Proof.
  intros F C ND.
  assert (Two : forall a b a' b',
    exists k,
      reset a b m = Ok (tt, k) /\
      reset a' b' k
      = Ok (tt, set_knowledge
                  (dict_set "max_scouters"
                     (Count (n - Z.of_nat (occurrences (a, b) l)
                             - Z.of_nat (occurrences (a', b') (without (a, b) l))))
                     (dict_set "food" (FoodList (without (a', b') (without (a, b) l)))
                        (knowledge m)))
                  (set_scouters
                     (filter (fun s => negb (at_pos a' b' s))
                        (filter (fun s => negb (at_pos a b s)) (scouters m))) m))).
  { intros a b a' b'. eexists. split; [apply (reset_run m a b l n); assumption|].
    erewrite reset_run.
    - simpl.
      rewrite (dict_set_comm "food" "max_scouters")
        by (try discriminate; rewrite dict_get_set_same; discriminate).
      rewrite !dict_set_set. reflexivity.
    - simpl. rewrite dict_get_set_other by discriminate. apply dict_get_set_same.
    - simpl. apply dict_get_set_same.
    - simpl. now apply NoDup_sid_filter. }
  destruct (Two x y x' y') as (m1 & R1 & R12).
  destruct (Two x' y' x y) as (m2 & R2 & R21).
  exists m1, m2. eexists. split; [exact R1|]. split; [exact R12|]. split; [exact R2|].
  rewrite R21. do 3 f_equal.
  - f_equal; [|f_equal; f_equal; apply without_comm].
    f_equal.
    destruct (pos_dec (x, y) (x', y')) as [E|N].
    + injection E as -> ->. reflexivity.
    + rewrite !occurrences_without_other by congruence. lia.
  - f_equal. apply filter_comm.
Qed.

(** *** What a tick keeps *)

(** A relation between states that holds across every step that keeps
    the knowledge, across the update of the quota and across a
    discovery as [move] runs it, holds across a tick. *)
Section MoveKeeps.
Variable R : Manager -> Manager -> Prop.
Hypothesis R_trans : forall m1 m2 m3, R m1 m2 -> R m2 m3 -> R m1 m3.
Hypothesis R_knowledge : forall m m', knowledge m' = knowledge m -> R m m'.
Hypothesis R_set_max : forall n, keeps R (set_max n).
Hypothesis R_discovery : forall x y,
  keeps R (bind get_food (fun food =>
             if negb (existsb (pos_eqb (x, y)) food)
             then food_discovered x y else ret tt)).

Lemma R_refl m : R m m.
Proof. now apply R_knowledge. Qed.

Lemma keeps_pure {A} (c : M A) : pure c -> keeps R c.
Proof. intros H m a m' E. apply R_knowledge. eapply H; eauto. Qed.

Lemma keeps_same_knowledge (f : Manager -> Manager) :
  (forall m, knowledge (f m) = knowledge m) -> keeps R (modify f).
Proof. intros H. apply keeps_modify. intros m. now apply R_knowledge. Qed.

Lemma keeps_add_scouter : keeps R add_scouter.
Proof.
  intros m [] m' E. apply add_scouter_inv in E. apply R_knowledge. tauto.
Qed.

Lemma keeps_remove_scouter : keeps R remove_scouter.
Proof.
  intros m [] m' E. apply remove_scouter_inv in E. apply R_knowledge. tauto.
Qed.

Lemma keeps_remove_from_scouters i : keeps R (remove_from_scouters i).
Proof.
  intros m [] m' E. apply remove_from_scouters_inv in E. apply R_knowledge. tauto.
Qed.

Hint Resolve R_refl R_trans R_set_max R_discovery keeps_add_scouter keeps_remove_scouter
  keeps_remove_from_scouters : frame.

Lemma keeps_move_scouter i deads : keeps R (move_scouter i deads).
Proof.
  unfold move_scouter.
  frame; try (apply keeps_same_knowledge; reflexivity);
    try (apply keeps_pure; solve [frame]).
  intros m r m' E. injection E as _ <-. now apply R_knowledge.
Qed.

Hint Resolve keeps_move_scouter : frame.

Lemma keeps_move_scouters indices deads : keeps R (move_scouters indices deads).
Proof.
  revert deads. induction indices as [|i rest IH]; intros deads; simpl; frame.
Qed.

Hint Resolve keeps_move_scouters : frame.

Lemma keeps_move : keeps R move.
Proof.
  unfold move.
  frame; try (apply keeps_same_knowledge; reflexivity);
    try (apply keeps_pure; solve [frame]).
Qed.
End MoveKeeps.

(** *** The known food over a tick *)

Lemma food_grows_trans m1 m2 m3 : food_grows m1 m2 -> food_grows m2 m3 -> food_grows m1 m3.
Proof.
  intros H1 H2 l F. destruct (H1 l F) as (e1 & F1). destruct (H2 _ F1) as (e2 & F2).
  exists (e1 ++ e2). now rewrite app_assoc.
Qed.

Lemma food_grows_knowledge m m' : knowledge m' = knowledge m -> food_grows m m'.
Proof. intros K l F. exists []. now rewrite app_nil_r, K. Qed.

Lemma food_grows_set_max n : keeps (@food_grows Board Ant) (set_max n).
Proof.
  apply keeps_modify. intros m l F. exists []. simpl.
  rewrite dict_get_set_other by discriminate. now rewrite app_nil_r.
Qed.

Lemma food_grows_discovery x y :
  keeps (@food_grows Board Ant)
    (bind get_food (fun food =>
       if negb (existsb (pos_eqb (x, y)) food) then food_discovered x y else ret tt)).
Proof.
  intros m a m' E. bind_step E.
  pose proof (get_food_state _ _ _ E0). subst m0. apply get_food_entry in E0.
  destruct (negb (existsb (pos_eqb (x, y)) a0)).
  - unfold food_discovered, bind in E. rewrite (get_food_ok _ _ E0) in E.
    injection E as _ <-. intros l F. exists [(x, y)]. simpl.
    rewrite dict_get_set_same. congruence.
  - injection E as _ <-. now apply food_grows_knowledge.
Qed.

(** X13: a tick never forgets or reorders a known food: the list after
    it is the list before it followed by the positions discovered. *)
Theorem move_keeps_known_food m m' l :
  dict_get "food" (knowledge m) = Some (FoodList l) ->
  move m = Ok (tt, m') ->
  exists extra, dict_get "food" (knowledge m') = Some (FoodList (l ++ extra)).
Proof.
  intros F E.
  pose proof (keeps_move _ food_grows_trans food_grows_knowledge food_grows_set_max
                food_grows_discovery) as K.
  exact (K m tt m' E l F).
Qed.

(** *** What [save] writes, over the calls *)

Lemma saved_kept_trans m1 m2 m3 : saved_kept m1 m2 -> saved_kept m2 m3 -> saved_kept m1 m3.
Proof.
  intros H1 H2 F C. destruct (H1 F C) as (P1 & F1 & C1).
  destruct (H2 F1 C1) as (P2 & F2 & C2). repeat split; auto. congruence.
Qed.

Lemma saved_kept_knowledge m m' : knowledge m' = knowledge m -> saved_kept m m'.
Proof. intros K F C. rewrite K. auto. Qed.

Lemma saved_kept_refl m : saved_kept m m.
Proof. now apply saved_kept_knowledge. Qed.

Lemma saved_kept_set_max n : keeps (@saved_kept Board Ant) (set_max n).
Proof.
  apply keeps_modify. intros m F C. simpl. split; [|split].
  - now apply persisted_set_max.
  - now rewrite dict_get_set_other by discriminate.
  - rewrite dict_get_set_same. discriminate.
Qed.

Lemma saved_kept_set_food l : keeps (@saved_kept Board Ant) (set_food l).
Proof.
  apply keeps_modify. intros m F C. simpl. split; [|split].
  - now apply persisted_set_food.
  - rewrite dict_get_set_same. discriminate.
  - now rewrite dict_get_set_other by discriminate.
Qed.

#[local] Hint Resolve saved_kept_refl saved_kept_trans saved_kept_set_max
  saved_kept_set_food : frame.

Lemma saved_kept_food_discovered x y : keeps (@saved_kept Board Ant) (food_discovered x y).
Proof. unfold food_discovered. frame. Qed.

Lemma saved_kept_food_destroyed x y : keeps (@saved_kept Board Ant) (food_destroyed x y).
Proof. unfold food_destroyed. frame. Qed.

#[local] Hint Resolve saved_kept_food_discovered : frame.

Lemma saved_kept_discovery x y :
  keeps (@saved_kept Board Ant)
    (bind get_food (fun food =>
       if negb (existsb (pos_eqb (x, y)) food) then food_discovered x y else ret tt)).
Proof. frame. Qed.

Lemma saved_kept_reset x y : keeps (@saved_kept Board Ant) (reset x y).
Proof.
  unfold reset, reset_scouter_body, reset_food_body.
  frame. apply keeps_modify. intros m. now apply saved_kept_knowledge.
Qed.

Lemma saved_kept_move : keeps (@saved_kept Board Ant) move.
Proof.
  exact (keeps_move _ saved_kept_trans saved_kept_knowledge saved_kept_set_max
           saved_kept_discovery).
Qed.

(** X14: no call changes what [save] writes: after a tick, a reset, a
    discovery or a destruction of food, or the addition or removal of a
    scouter, [save] returns the text it returned before. *)
Theorem save_unchanged_by_calls (float_repr : float -> string) m m' f c :
  dict_get "food" (knowledge m) = Some f ->
  dict_get "max_scouters" (knowledge m) = Some c ->
  move m = Ok (tt, m') \/ add_scouter m = Ok (tt, m') \/ remove_scouter m = Ok (tt, m') \/
  (exists x y, reset x y m = Ok (tt, m') \/ food_discovered x y m = Ok (tt, m') \/
               food_destroyed x y m = Ok (tt, m')) ->
  exists text, save float_repr m = Ok (text, m) /\ save float_repr m' = Ok (text, m').
Proof.
  intros F C H.
  assert (S : saved_kept m m').
  { destruct H as [E|[E|[E|(x & y & [E|[E|E]])]]].
    - exact (saved_kept_move _ _ _ E).
    - apply add_scouter_inv in E. apply saved_kept_knowledge. tauto.
    - apply remove_scouter_inv in E. apply saved_kept_knowledge. tauto.
    - exact (saved_kept_reset x y _ _ _ E).
    - exact (saved_kept_food_discovered x y _ _ _ E).
    - exact (saved_kept_food_destroyed x y _ _ _ E). }
  destruct S as (P & _ & _); try congruence.
  destruct (persisted_ok _ _ _ F C) as (d & D).
  exists (json_dumps float_repr (JObj d)).
  rewrite !save_persisted, P, D. auto.
Qed.

(** *** A negative quota *)

Lemma bind_ok {A B} (c : M A) (f : A -> M B) m a m1 :
  c m = Ok (a, m1) -> bind c f m = f a m1.
Proof. intros E. unfold bind. now rewrite E. Qed.

Lemma bind_raise {A B} (c : M A) (f : A -> M B) m e :
  c m = Raise e -> bind c f m = Raise e.
Proof. intros E. unfold bind. now rewrite E. Qed.

Lemma move_without_scouters_below_zero m quota old :
  scouters m = [] ->
  compute_max_scouters m = Ok (quota, m) ->
  dict_get "max_scouters" (knowledge m) = Some (Count old) ->
  quota < 0 ->
  move m = Raise ValueError.
Proof.
  intros S0 C Q L. unfold move.
  rewrite (bind_ok _ _ m 0%nat m) by (unfold gets; now rewrite S0).
  simpl seq. simpl move_scouters. rewrite (bind_ok _ _ m [] m) by reflexivity.
  rewrite (bind_ok _ _ _ _ _ C).
  rewrite (bind_ok _ _ _ _ _ (get_max_ok _ _ Q)).
  set (m5 := set_knowledge (dict_set "max_scouters" (Count quota) (knowledge m)) m).
  rewrite (bind_ok _ _ m tt m5) by reflexivity.
  rewrite (bind_ok _ _ m5 0 m5) by (unfold scouters_len, gets; simpl; now rewrite S0).
  rewrite (bind_ok _ _ m5 quota m5) by (apply get_max_ok, dict_get_set_same).
  apply bind_raise.
  destruct (Z.ltb_spec 0 (quota - 0)) as [G|_]; [lia|].
  destruct (Z.ltb_spec (quota - 0) 0) as [_|G]; [|lia].
  destruct (Z.to_nat (- (quota - 0))) as [|k] eqn:N; [lia|].
  simpl. apply bind_raise.
  unfold remove_scouter, bind, scouters_len, gets, randrange. simpl.
  now rewrite S0.
Qed.

Lemma population_zero m : population m <= 0 -> scouters m = [].
Proof. unfold population. destruct (scouters m); simpl; [reflexivity | lia]. Qed.

(** X15: a knowledge file that makes the quota negative gives a manager
    without scouters, and a tick of that manager raises a [ValueError]:
    [move] calls [remove_scouter] on the empty list. *)
Theorem move_raises_on_negative_quota (b : Board) doc rnd m quota :
  new_manager b (Document doc) rnd = Ok m ->
  dict_get "max_scouters" (knowledge m) = Some (Count quota) ->
  quota < 0 ->
  scouters m = [] /\ move m = Raise ValueError.
Proof.
  intros N Q L. apply new_manager_inv in N. destruct N as (quota' & C & S).
  cbv zeta in C, S.
  apply spawn_loop_fills with (quota := quota') in S.
  - destruct S as (B & K & P).
    assert (quota' = quota).
    { rewrite K in Q. simpl in Q. rewrite dict_get_set_same in Q. congruence. }
    subst quota'.
    assert (S0 : scouters m = []).
    { apply population_zero. rewrite P. unfold population. simpl. lia. }
    split; [exact S0|].
    apply move_without_scouters_below_zero with (quota := quota) (old := quota); auto.
    eapply compute_kept; [| |  | exact C].
    + intros k N1 N2. rewrite K. simpl. now apply dict_get_set_other.
    + rewrite B. reflexivity.
    + rewrite K. simpl. now apply dict_get_set_other.
  - apply dict_get_set_same.
  - unfold population. simpl. lia.
Qed.

(** *** The identities of the scouters *)

Lemma remove_object_split i (xs ys : list (@scouter Ant)) :
  remove_object i xs = Ok ys ->
  exists pre s post, xs = pre ++ s :: post /\ sid s = i /\ ys = pre ++ post.
Proof.
  revert ys. induction xs as [|t xs IH]; simpl; intros ys E; [discriminate|].
  destruct (Nat.eqb_spec (sid t) i) as [Ei|Ni].
  - injection E as <-. exists [], t, xs. auto.
  - destruct (remove_object i xs) as [r|]; simpl in E; [|discriminate].
    injection E as <-. destruct (IH r eq_refl) as (pre & s & post & -> & Es & ->).
    exists (t :: pre), s, post. auto.
Qed.

Lemma remove_object_ok i (xs : list (@scouter Ant)) :
  In i (map sid xs) -> exists ys, remove_object i xs = Ok ys.
Proof.
  induction xs as [|t xs IH]; simpl; [tauto|].
  destruct (Nat.eqb_spec (sid t) i) as [Ei|Ni]; eauto.
  intros [C|I]; [congruence|]. destruct (IH I) as (ys & ->). simpl. eauto.
Qed.

Lemma ids_fresh_without m m' pre s post :
  ids_fresh m ->
  scouters m = pre ++ s :: post -> scouters m' = pre ++ post ->
  next_id m' = next_id m ->
  ids_fresh m' /\ ~ In (sid s) (ids m') /\ (sid s < next_id m)%nat /\
  (forall i, In i (ids m') -> In i (ids m)) /\
  (forall i, In i (ids m) -> i <> sid s -> In i (ids m')).
Proof.
  unfold ids_fresh, ids. intros [ND Fr] S S' Nx. rewrite S in *. rewrite S', Nx.
  rewrite !map_app in *. simpl in *.
  rewrite Forall_app in *. destruct Fr as [F1 F2]. inversion F2; subst.
  split; [split|split; [|split; [|split]]].
  - eapply NoDup_remove_1; eauto.
  - split; assumption.
  - eapply NoDup_remove_2; eauto.
  - assumption.
  - intros i I. apply in_app_or in I. apply in_or_app. simpl. tauto.
  - intros i I N. apply in_app_or in I. apply in_or_app. simpl in I.
    destruct I as [I|[I|I]]; auto. congruence.
Qed.

Lemma ids_fresh_with m m' a :
  ids_fresh m ->
  scouters m' = scouters m ++ [{| sid := next_id m; sant := a |}] ->
  next_id m' = S (next_id m) ->
  ids_fresh m' /\ ids m' = ids m ++ [next_id m].
Proof.
  unfold ids_fresh, ids. intros [ND Fr] S' Nx. rewrite S', Nx, map_app. simpl.
  split; [|reflexivity]. split.
  - apply NoDup_app; auto.
    + repeat constructor. simpl. tauto.
    + intros i I [<-|[]]. rewrite Forall_forall in Fr. apply Fr in I. lia.
  - apply Forall_app. split.
    + eapply Forall_impl; [|exact Fr]. simpl. intros. lia.
    + repeat constructor.
Qed.

Lemma add_scouter_cases m m' :
  add_scouter m = Ok (tt, m') ->
  m' = m \/
  exists a, scouters m' = scouters m ++ [{| sid := next_id m; sant := a |}] /\
            next_id m' = S (next_id m).
Proof.
  intros E. pose proof E as E'. apply add_scouter_inv in E'.
  destruct E' as (_ & _ & quota & Q & [[L _]|[_ A]]); auto.
  destruct (add_scouter_grows _ _ _ E Q L) as (food & p & _ & _ & S & Nx & _).
  right. eauto.
Qed.

Lemma add_scouter_ids m m' :
  add_scouter m = Ok (tt, m') -> ids_fresh m ->
  ids_fresh m' /\ (next_id m <= next_id m')%nat /\
  (forall i, In i (ids m') -> In i (ids m) \/ (next_id m <= i)%nat) /\
  (forall i, In i (ids m) -> In i (ids m')).
Proof.
  intros E Fr. apply add_scouter_cases in E. destruct E as [->|(a & S & Nx)].
  - conj_split; auto.
  - destruct (ids_fresh_with _ _ _ Fr S Nx) as (Fr' & I'). rewrite I', Nx.
    conj_split; auto.
    + intros i I. apply in_app_or in I. destruct I as [I|[<-|[]]]; auto.
    + intros i I. apply in_or_app. auto.
Qed.

Lemma remove_scouter_ids m m' :
  remove_scouter m = Ok (tt, m') -> ids_fresh m ->
  ids_fresh m' /\ next_id m' = next_id m /\ (forall i, In i (ids m') -> In i (ids m)).
Proof.
  intros E Fr. destruct (scouters m) as [|s0 rest] eqn:S0.
  - unfold remove_scouter, bind, scouters_len, gets, randrange in E.
    rewrite S0 in E. discriminate.
  - destruct (remove_scouter_run m) as (pre & s & post & m1 & R & S & S' & _ & _ & _ & Nx & _).
    { rewrite S0. discriminate. }
    rewrite R in E. injection E as <-.
    destruct (ids_fresh_without _ _ _ _ _ Fr S S' Nx) as (Fr' & _ & _ & Sub & _).
    auto.
Qed.

Lemma remove_from_scouters_ids d m m' :
  remove_from_scouters d m = Ok (tt, m') -> ids_fresh m ->
  ids_fresh m' /\ next_id m' = next_id m /\ In d (ids m) /\ ~ In d (ids m') /\
  (d < next_id m)%nat /\
  (forall i, In i (ids m') -> In i (ids m)) /\
  (forall i, In i (ids m) -> i <> d -> In i (ids m')).
Proof.
  unfold remove_from_scouters, bind, gets, lift, modify. intros E Fr.
  destruct (remove_object d (scouters m)) as [ys|] eqn:R; [|discriminate].
  injection E as <-. apply remove_object_split in R.
  destruct R as (pre & s & post & S & <- & ->).
  destruct (ids_fresh_without m (set_scouters (pre ++ post) m) _ _ _ Fr S eq_refl eq_refl)
    as (Fr' & NI & Lt & Sub & Sup).
  conj_split; auto; try apply Fr'.
  unfold ids. rewrite S, map_app. apply in_or_app. simpl. auto.
Qed.

(** The pass over the dead scouters: when it returns, every one of them
    has left the list, and the scouters that remain are scouters of
    before or new objects. *)
Lemma replace_deads_ids deads m m' :
  for_each deads (fun dead => bind (remove_from_scouters dead) (fun _ => add_scouter)) m
  = Ok (tt, m') ->
  ids_fresh m ->
  ids_fresh m' /\ (next_id m <= next_id m')%nat /\
  (forall d, In d deads -> ~ In d (ids m')) /\
  (forall i, In i (ids m') -> In i (ids m) \/ (next_id m <= i)%nat).
Proof.
  revert m. induction deads as [|d deads IH]; simpl; intros m E Fr.
  - injection E as <-. conj_split; auto; tauto.
  - bind_step E. destruct a. bind_step E0. destruct a.
    destruct (remove_from_scouters_ids _ _ _ E1 Fr)
      as (Fr1 & Nx1 & In1 & Out1 & Lt1 & Sub1 & Sup1).
    destruct (add_scouter_ids _ _ E0 Fr1) as (Fr2 & Nx2 & New2 & Old2).
    destruct (IH _ E Fr2) as (Fr' & Nx' & Gone & New').
    conj_split; auto; try lia.
    + intros d' [<-|I]; [|now apply Gone].
      intros I. apply New' in I. destruct I as [I|I]; [|lia].
      apply New2 in I. destruct I as [I|I]; [tauto | lia].
    + intros i I. apply New' in I. destruct I as [I|I]; [|right; lia].
      apply New2 in I. destruct I as [I|I]; [left; now apply Sub1 | right; lia].
Qed.

Lemma same_objects_refl m : same_objects m m.
Proof. unfold same_objects. auto. Qed.

Lemma same_objects_trans m1 m2 m3 :
  same_objects m1 m2 -> same_objects m2 m3 -> same_objects m1 m3.
Proof. unfold same_objects. intuition congruence. Qed.

#[local] Hint Resolve same_objects_refl same_objects_trans : frame.

Lemma same_objects_pure {A} (c : M A) : pure c -> keeps (@same_objects Board Ant) c.
Proof.
  intros H m a m' E. apply H in E. unfold only_random in E. unfold same_objects. tauto.
Qed.

Lemma same_objects_food_discovered x y : keeps (@same_objects Board Ant) (food_discovered x y).
Proof.
  unfold food_discovered. frame; try (apply same_objects_pure; solve [frame]).
  apply keeps_modify. intros m. unfold same_objects. auto.
Qed.

#[local] Hint Resolve same_objects_pure same_objects_food_discovered : frame.

Lemma same_objects_discovery (b : Board) x y :
  keeps (@same_objects Board Ant)
    (if has_food b x y
     then bind get_food (fun food =>
            if negb (existsb (pos_eqb (x, y)) food) then food_discovered x y else ret tt)
     else ret tt).
Proof. frame. Qed.

Lemma store_nth_sids i t (xs : list (@scouter Ant)) :
  nth_error (map sid xs) i = Some (sid t) -> map sid (store_nth i t xs) = map sid xs.
Proof.
  revert i. induction xs as [|s xs IH]; intros [|i]; simpl; try discriminate.
  - now intros [= ->].
  - intros E. now rewrite IH.
Qed.

(** One step of the first loop of [move]: the scouter at the index is
    replaced by itself after its move, and joins the dead scouters or
    not. *)
Lemma move_scouter_inv i deads m deads' m' :
  move_scouter i deads m = Ok (deads', m') ->
  exists s,
    nth_error (scouters m) i = Some s /\
    ids m' = ids m /\ next_id m' = next_id m /\
    (deads' = deads \/ deads' = deads ++ [sid s]).
Proof.
  unfold move_scouter. intros E. bind_step E. injection E0 as <- <-.
  destruct (nth_error (scouters m) i) as [s|] eqn:Nth; [|discriminate].
  exists s. split; [reflexivity|].
  assert (Ns : nth_error (map sid (scouters m)) i = Some (sid s))
    by now apply map_nth_error.
  bind_step E. injection E0 as <- <-. bind_step E. injection E0 as _ <-.
  match type of E with
  | (if ?c then _ else _) _ = _ => destruct c
  end.
  - injection E as <- <-. unfold ids. simpl.
    rewrite store_nth_sids by exact Ns. auto.
  - bind_step E. injection E0 as <- <-. bind_step E.
    pose proof (same_objects_discovery _ _ _ _ _ _ E0) as K.
    destruct K as [Sc Nx]. simpl in Sc, Nx.
    bind_step E. injection E1 as _ <-. injection E as <- <-.
    unfold ids. simpl. rewrite Sc.
    rewrite !store_nth_sids; auto.
    now rewrite store_nth_sids.
Qed.

Lemma map_nth_seq {A} (xs : list A) (d : A) :
  map (fun i => nth i xs d) (seq 0 (List.length xs)) = xs.
Proof.
  induction xs as [|a xs IH]; simpl; [reflexivity|].
  rewrite <- seq_shift, map_map. simpl. now rewrite IH.
Qed.

(** The first loop of [move] keeps the objects of the list; the dead
    scouters it collects are distinct scouters of the list. *)
Lemma move_scouters_inv indices deads m deads' m' :
  move_scouters indices deads m = Ok (deads', m') ->
  ids m' = ids m /\ next_id m' = next_id m /\
  (NoDup (deads ++ map (fun i => nth i (ids m) 0%nat) indices) ->
   (forall d, In d deads -> In d (ids m)) ->
   NoDup deads' /\ forall d, In d deads' -> In d (ids m)).
Proof.
  revert deads m. induction indices as [|i rest IH]; simpl; intros deads m E.
  - injection E as <- <-. rewrite app_nil_r. auto.
  - bind_step E. apply move_scouter_inv in E0.
    destruct E0 as (s & Nth & I0 & Nx0 & D).
    destruct (IH _ _ E) as (I1 & Nx1 & Dd).
    rewrite I0 in *. conj_split; auto; try congruence.
    intros ND Sub.
    assert (Si : nth i (ids m) 0%nat = sid s).
    { unfold ids. apply nth_error_nth. now apply map_nth_error. }
    assert (Is : In (sid s) (ids m)).
    { unfold ids. apply in_map. eapply nth_error_In; eauto. }
    rewrite Si in ND.
    destruct D as [->| ->]; apply Dd.
    + eapply NoDup_remove_1; eauto.
    + exact Sub.
    + now rewrite <- app_assoc.
    + intros d I. apply in_app_or in I. destruct I as [I|[<-|[]]]; auto.
Qed.

Lemma ids_step_refl m : ids_step m m.
Proof. intros Fr. auto. Qed.

Lemma ids_step_trans m1 m2 m3 : ids_step m1 m2 -> ids_step m2 m3 -> ids_step m1 m3.
Proof.
  intros H1 H2 Fr. destruct (H1 Fr) as (Fr2 & N2 & S2).
  destruct (H2 Fr2) as (Fr3 & N3 & S3). conj_split; auto; [lia|].
  intros i I. apply S3 in I. destruct I as [I|I]; [|right; lia].
  apply S2 in I. tauto.
Qed.

Lemma ids_step_same m m' : same_objects m m' -> ids_step m m'.
Proof.
  intros [S N] Fr. unfold ids_fresh, ids in *. rewrite S, N. conj_split; auto.
  apply Fr. apply Fr.
Qed.

Lemma ids_step_add_scouter : keeps (@ids_step Board Ant) add_scouter.
Proof.
  intros m [] m' E Fr. destruct (add_scouter_ids _ _ E Fr) as (F & N & S & _). auto.
Qed.

Lemma ids_step_remove_scouter : keeps (@ids_step Board Ant) remove_scouter.
Proof.
  intros m [] m' E Fr. destruct (remove_scouter_ids _ _ E Fr) as (F & N & S).
  conj_split; auto. lia.
Qed.

#[local] Hint Resolve ids_step_refl ids_step_trans ids_step_add_scouter
  ids_step_remove_scouter : frame.

Lemma ids_step_resize (diff : Z) :
  keeps (@ids_step Board Ant)
    (if 0 <? diff then repeat_m (Z.to_nat diff) add_scouter
     else if diff <? 0 then repeat_m (Z.to_nat (- diff)) remove_scouter
     else ret tt).
Proof. frame. Qed.

(** X17: when a tick returns, every scouter that did not move has left
    the list, and the scouters of the list are distinct objects:
    scouters of before the tick, or objects created in it. *)
Theorem move_replaces_trapped_scouters m deads m1 m' :
  ids_fresh m ->
  move_scouters (seq 0 (List.length (scouters m))) [] m = Ok (deads, m1) ->
  move m = Ok (tt, m') ->
  ids_fresh m' /\
  (forall d, In d deads -> In d (ids m) /\ ~ In d (ids m')) /\
  (forall i, In i (ids m') -> In i (ids m) \/ (next_id m <= i)%nat).
Proof.
  intros Fr L1 E. unfold move in E.
  bind_open E as n m0 E0. injection E0 as <- <-.
  bind_open E as deads0 m2 E2. rewrite L1 in E2. injection E2 as <- <-.
  apply move_scouters_inv in L1. destruct L1 as (I1 & Nx1 & Dd).
  destruct Dd as (NDd & Sub).
  { simpl. unfold ids at 1. rewrite <- (length_map sid), map_nth_seq. apply Fr. }
  { intros d []. }
  assert (Fr1 : ids_fresh m1).
  { unfold ids_fresh. rewrite I1, Nx1. exact Fr. }
  bind_open E as new_max m3 E3. apply compute_max_scouters_inv in E3. destruct E3 as [-> _].
  bind_open E as old m4 E4. apply get_max_state in E4. subst m4.
  bind_open E as u5 m5 E5. injection E5 as _ <-.
  bind_open E as qt m6 E6. injection E6 as _ <-.
  bind_open E as mx m7 E7. apply get_max_state in E7. subst m7.
  bind_open E as u8 m8 E8. apply ids_step_resize in E8.
  destruct E8 as (Fr8 & Nx8 & New8); [exact Fr1|].
  bind_open E as u9 m9 E9. destruct u9. apply replace_deads_ids in E9; [|exact Fr8].
  destruct E9 as (Fr9 & Nx9 & Gone & New9).
  bind_open E as decrease m10 E10. apply item_state in E10. subst m10.
  bind_open E as remaining m11 E11. apply item_state in E11. subst m11.
  bind_open E as dq m12 E12. unfold lift in E12.
  destruct (as_number decrease); [|discriminate]. injection E12 as _ <-.
  bind_open E as rq m13 E13. unfold lift in E13.
  destruct (as_number remaining); [|discriminate]. injection E13 as _ <-.
  injection E as <-.
  change (ids (set_knowledge _ m1)) with (ids m1) in New8.
  change (next_id (set_knowledge _ m1)) with (next_id m1) in *.
  rewrite I1, Nx1 in *.
  split; [exact Fr9|]. split.
  - intros d I. split; [now apply Sub | now apply Gone].
  - intros i I. change (In i (ids m9)) in I.
    apply New9 in I. destruct I as [I|I]; [|right; lia].
    apply New8 in I. tauto.
Qed.

(** *** A colony over its ticks *)

Lemma ids_step_ids m m' : ids m' = ids m -> next_id m' = next_id m -> ids_step m m'.
Proof.
  intros I N Fr. unfold ids_fresh in *. rewrite I, N. conj_split; auto; apply Fr.
Qed.

Lemma ids_step_pure {A} (c : M A) : pure c -> keeps (@ids_step Board Ant) c.
Proof.
  intros H m a m' E. apply ids_step_same. eapply same_objects_pure; eauto.
Qed.

Lemma ids_step_modify (f : Manager -> Manager) :
  (forall m, scouters (f m) = scouters m) -> (forall m, next_id (f m) = next_id m) ->
  keeps (@ids_step Board Ant) (modify f).
Proof.
  intros S N. apply keeps_modify. intros m. apply ids_step_same. split; auto.
Qed.

Lemma ids_step_move_scouters indices deads :
  keeps (@ids_step Board Ant) (move_scouters indices deads).
Proof.
  intros m a m' E. apply move_scouters_inv in E. apply ids_step_ids; tauto.
Qed.

Lemma ids_step_replace deads :
  keeps (@ids_step Board Ant)
    (for_each deads (fun dead => bind (remove_from_scouters dead) (fun _ => add_scouter))).
Proof.
  intros m [] m' E Fr. destruct (replace_deads_ids _ _ _ E Fr) as (F & N & _ & S). auto.
Qed.

#[local] Hint Resolve ids_step_pure ids_step_move_scouters ids_step_replace
  ids_step_resize : frame.

Lemma ids_step_move : keeps (@ids_step Board Ant) move.
Proof.
  unfold move. frame; apply ids_step_modify; reflexivity.
Qed.

Lemma config_kept_move : framed move.
Proof.
  apply keeps_move.
  - exact config_kept_trans.
  - intros m m' K k _ _. now rewrite K.
  - exact frame_set_max.
  - intros x y. frame.
Qed.

Lemma careful_move : careful move.
Proof.
  apply keeps_move.
  - exact keeps_distinct_trans.
  - exact same_knowledge_distinct.
  - exact careful_set_max.
  - exact careful_discovery.
Qed.

Lemma food_grows_move : keeps (@food_grows Board Ant) move.
Proof.
  exact (keeps_move _ food_grows_trans food_grows_knowledge food_grows_set_max
           food_grows_discovery).
Qed.

Lemma settled_new (b : Board) doc rnd m :
  new_manager b (Document doc) rnd = Ok m -> settled doc b m.
Proof.
  intros N. pose proof (new_manager_holds _ _ _ _ N) as H.
  apply new_manager_inv in N. destruct N as (quota & C & S). cbv zeta in C, S.
  set (mi := set_knowledge _ (blank b rnd)) in C.
  set (mj := set_knowledge _ (blank b rnd)) in S.
  assert (Fj : dict_get "food" (knowledge mj) = Some (FoodList (board_food b))).
  { unfold mj. simpl. rewrite dict_get_set_other by discriminate. apply dict_get_set_same. }
  destruct (spawn_loop_fills _ _ _ quota S) as (B & K & P).
  { apply dict_get_set_same. }
  { unfold population. simpl. lia. }
  destruct (spawn_loop_places _ _ _ _ S Fj) as (new & Sc & _ & Ids & Nx).
  simpl in Sc, Ids, Nx.
  apply compute_max_scouters_inv in C.
  destruct C as (_ & v1 & v2 & v3 & v5 & minimum & l & t & n0 &
                 _ & _ & _ & _ & Min & _ & _ & _ & Eq).
  split; [exact H|]. split; [|split].
  - unfold ids_fresh, ids. rewrite Sc, Nx, Ids. split; [apply seq_NoDup|].
    apply Forall_forall. intros i I. apply in_seq in I. lia.
  - exists []. rewrite app_nil_r, K. split; [exact Fj | apply board_food_distinct].
  - exists quota, minimum. conj_split.
    + apply get_max_ok. rewrite K. apply dict_get_set_same.
    + apply scouters_min_kept with (m := mi); auto.
      intros k N1 N2. rewrite K. unfold mj. simpl. now apply dict_get_set_other.
    + subst quota. lia.
    + rewrite P. unfold population. simpl. reflexivity.
Qed.

Lemma settled_move (b : Board) doc m m' :
  settled doc b m -> move m = Ok (tt, m') -> settled doc b m'.
Proof.
  intros (H & Fr & (extra & F & ND) & _) E.
  split; [|split; [|split]].
  - eapply holds_kept; [exact H|]. exact (config_kept_move _ _ _ E).
  - now apply (ids_step_move _ _ _ E).
  - destruct (food_grows_move _ _ _ E _ F) as (more & F').
    exists (extra ++ more). rewrite app_assoc. split; [exact F'|].
    apply (careful_move _ _ _ E); [|exact F'].
    intros l0 F0. congruence.
  - destruct (move_population _ _ E) as (quota & minimum & G & S & P & L).
    exists quota, minimum. conj_split; auto.
    unfold population in *. lia.
Qed.

(** X18: after any number of ticks that return, the colony of a
    manager built from a document with an integer minimum is settled:
    the knowledge holds the entries of its file and the food of the
    board followed by the discoveries, each position once; the scouters
    are distinct objects, as many as the quota, and the quota is not
    below the configured minimum; and [save] returns the text it
    returned at first. *)
Theorem ticks_keep_the_colony (float_repr : float -> string) (b : Board) doc rnd m0 n m
    minimum :
  field (loaded doc) ["Scouters"; "Min"] = Ok (JInt minimum) ->
  new_manager b (Document doc) rnd = Ok m0 ->
  repeat_m n move m0 = Ok (tt, m) ->
  settled doc b m /\ scouters_min m = Ok (minimum, m) /\
  exists text, save float_repr m0 = Ok (text, m0) /\ save float_repr m = Ok (text, m).
Proof.
  intros Mn N E. apply settled_new in N.
  assert (G : forall n m1 m2,
            settled doc b m1 -> repeat_m n move m1 = Ok (tt, m2) ->
            settled doc b m2 /\ saved_kept m1 m2).
  { clear. induction n as [|n IH]; simpl; intros m1 m2 S E.
    - injection E as <-. split; [exact S | apply saved_kept_refl].
    - bind_open E as u m3 E3. destruct u.
      destruct (IH m3 m2) as (S2 & K2); auto.
      + eapply settled_move; eauto.
      + split; [exact S2|].
        eapply saved_kept_trans; [|exact K2]. exact (saved_kept_move _ _ _ E3). }
  destruct (G n m0 m N E) as (S & K). split; [exact S|].
  split.
  { destruct S as (H & _).
    exact (scouters_min_of_field doc m (JInt minimum) minimum H Mn eq_refl). }
  destruct N as (_ & _ & (extra & F & _) & (quota & minimum0 & Q & _)).
  apply get_max_entry in Q.
  destruct K as (P & _ & _); try congruence.
  destruct (persisted_ok _ _ _ F Q) as (d & D).
  exists (json_dumps float_repr (JObj d)).
  rewrite !save_persisted, P, D. auto.
Qed.

(** *** When a tick returns *)

Lemma move_scouter_ok i deads m l :
  (i < List.length (scouters m))%nat ->
  dict_get "food" (knowledge m) = Some (FoodList l) ->
  exists deads' m', move_scouter i deads m = Ok (deads', m').
Proof.
  intros L F. unfold move_scouter.
  rewrite (bind_ok _ _ m (scouters m) m) by reflexivity.
  destruct (nth_error (scouters m) i) as [s|] eqn:Nth.
  2: { apply nth_error_None in Nth. lia. }
  unfold bind at 1. unfold bind at 1. unfold modify at 1.
  match goal with |- context [if ?c then _ else _] => destruct c end; [unfold ret; eauto|].
  unfold bind at 1. unfold gets at 1.
  match goal with
  | |- context [bind ?c ?f ?m1] =>
      assert (D : exists m2, c m1 = Ok (tt, m2)); [|destruct D as (m2 & D)]
  end.
  { match goal with |- context [if ?c then _ else _] => destruct c end;
      [|unfold ret; eauto].
    rewrite (bind_ok _ _ _ l _) by (apply get_food_ok; exact F).
    destruct (negb _); [|unfold ret; eauto].
    unfold food_discovered.
    rewrite (bind_ok _ _ _ l _) by (apply get_food_ok; exact F).
    unfold set_food, modify. eauto. }
  rewrite (bind_ok _ _ _ _ _ D). unfold bind, modify, ret. eauto.
Qed.

Lemma quota_kept_trans m1 m2 m3 : quota_kept m1 m2 -> quota_kept m2 m3 -> quota_kept m1 m3.
Proof. unfold quota_kept. congruence. Qed.

Lemma quota_kept_knowledge m m' : knowledge m' = knowledge m -> quota_kept m m'.
Proof. unfold quota_kept. congruence. Qed.

Lemma quota_kept_discovery x y :
  keeps (@quota_kept Board Ant)
    (bind get_food (fun food =>
       if negb (existsb (pos_eqb (x, y)) food) then food_discovered x y else ret tt)).
Proof.
  intros m a m' E. bind_open E as food m0 E0.
  pose proof (get_food_state _ _ _ E0). subst m0. apply get_food_entry in E0.
  destruct (negb _).
  - unfold food_discovered, bind in E. rewrite (get_food_ok _ _ E0) in E.
    injection E as _ <-. unfold quota_kept. simpl. now apply dict_get_set_other.
  - injection E as _ <-. reflexivity.
Qed.

(** The first loop of [move] returns on a manager that knows its food. *)
Lemma move_scouters_ok indices deads m l :
  (forall i, In i indices -> (i < List.length (scouters m))%nat) ->
  dict_get "food" (knowledge m) = Some (FoodList l) ->
  exists deads' m', move_scouters indices deads m = Ok (deads', m').
Proof.
  revert deads m l. induction indices as [|i rest IH]; simpl; intros deads m l B F.
  - unfold ret. eauto.
  - destruct (move_scouter_ok i deads m l) as (deads1 & m1 & E); auto.
    rewrite (bind_ok _ _ _ _ _ E).
    pose proof (move_scouter_inv _ _ _ _ _ E) as (s & _ & I & _).
    assert (G : food_grows m m1).
    { exact (keeps_move_scouter _ food_grows_trans food_grows_knowledge
               food_grows_discovery i deads _ _ _ E). }
    destruct (G l F) as (extra & F1).
    apply (IH deads1 m1 (l ++ extra)); auto.
    intros j J. assert (J' : (j < List.length (scouters m))%nat) by (apply B; auto).
    assert (Ln : List.length (ids m1) = List.length (ids m)) by now rewrite I.
    unfold ids in Ln. rewrite !length_map in Ln. lia.
Qed.

Lemma item_kept m m' k j :
  config_kept m m' -> k <> "food" -> k <> "max_scouters" ->
  item k m = Ok (j, m) -> item k m' = Ok (j, m').
Proof.
  intros K N1 N2. unfold item, bind, gets, ret, raise. rewrite (K k N1 N2).
  destruct (dict_get k (knowledge m)) as [[]|]; congruence.
Qed.

Lemma add_scouter_ok m quota l :
  dict_get "max_scouters" (knowledge m) = Some (Count quota) ->
  dict_get "food" (knowledge m) = Some (FoodList l) -> l <> [] ->
  exists m', add_scouter m = Ok (tt, m').
Proof.
  intros Q F N. unfold add_scouter.
  rewrite (bind_ok _ _ m (population m) m) by reflexivity.
  rewrite (bind_ok _ _ _ _ _ (get_max_ok _ _ Q)).
  destruct (population m <? quota); [|unfold ret; eauto].
  assert (S : exists p m1, spawn_square m = Ok (p, m1)).
  { unfold spawn_square. rewrite (bind_ok _ _ _ _ _ (get_food_ok _ _ F)).
    destruct l as [|q l]; [congruence|].
    cbn [List.length Nat.eqb negb].
    unfold bind, randrange.
    destruct (Z.leb_spec (Z.of_nat (S (List.length l))) 0) as [L|L]; [lia|].
    pose proof (Z.mod_pos_bound (rng m (rng_pos m)) _ L) as B.
    destruct (nth_error (q :: l) _) as [p|] eqn:Nth.
    - unfold ret. eauto.
    - apply nth_error_None in Nth. simpl List.length in Nth. lia. }
  destruct S as (p & m1 & S). rewrite (bind_ok _ _ _ _ _ S).
  unfold append_scouter, modify. eauto.
Qed.

Lemma repeat_add_scouter_ok k m quota l :
  dict_get "max_scouters" (knowledge m) = Some (Count quota) ->
  dict_get "food" (knowledge m) = Some (FoodList l) -> l <> [] ->
  exists m', repeat_m k add_scouter m = Ok (tt, m').
Proof.
  revert m. induction k as [|k IH]; simpl; intros m Q F N; [unfold ret; eauto|].
  destruct (add_scouter_ok m quota l) as (m1 & A); auto.
  rewrite (bind_ok _ _ _ _ _ A). apply add_scouter_inv in A.
  destruct A as (_ & K & _). apply IH; congruence.
Qed.

Lemma repeat_remove_scouter_ok k m :
  Z.of_nat k <= population m -> exists m', repeat_m k remove_scouter m = Ok (tt, m').
Proof.
  revert m. induction k as [|k IH]; simpl; intros m L; [unfold ret; eauto|].
  destruct (remove_scouter_run m) as (pre & s & post & m1 & R & _).
  { intros S0. unfold population in L. rewrite S0 in L. simpl in L. lia. }
  rewrite (bind_ok _ _ _ _ _ R). apply remove_scouter_inv in R.
  destruct R as (_ & _ & P). apply IH. lia.
Qed.

Lemma repeat_add_scouter_ids k m m' :
  repeat_m k add_scouter m = Ok (tt, m') -> ids_fresh m ->
  ids_fresh m' /\ forall i, In i (ids m) -> In i (ids m').
Proof.
  revert m. induction k as [|k IH]; simpl; intros m E Fr.
  - injection E as <-. auto.
  - bind_open E as u m1 E1. destruct u.
    destruct (add_scouter_ids _ _ E1 Fr) as (Fr1 & _ & _ & Old).
    destruct (IH _ E Fr1) as (Fr' & Old'). auto.
Qed.

(** The pass over dead scouters that are distinct scouters of the list
    returns, on a manager at its quota that knows some food. *)
Lemma replace_deads_ok deads m quota l :
  ids_fresh m -> NoDup deads -> (forall d, In d deads -> In d (ids m)) ->
  dict_get "max_scouters" (knowledge m) = Some (Count quota) ->
  population m = quota ->
  dict_get "food" (knowledge m) = Some (FoodList l) -> l <> [] ->
  exists m',
    for_each deads (fun dead => bind (remove_from_scouters dead) (fun _ => add_scouter)) m
    = Ok (tt, m').
Proof.
  revert m. induction deads as [|d deads IH]; simpl; intros m Fr ND Sub Q P F N.
  - unfold ret. eauto.
  - inversion ND as [|? ? NI ND']; subst.
    destruct (remove_object_ok d (scouters m)) as (ys & R); [apply Sub; auto|].
    assert (R1 : remove_from_scouters d m = Ok (tt, set_scouters ys m)).
    { unfold remove_from_scouters, bind, gets, lift, modify. now rewrite R. }
    set (m1 := set_scouters ys m) in *.
    destruct (remove_from_scouters_ids _ _ _ R1 Fr) as (Fr1 & _ & _ & _ & _ & _ & Sup1).
    destruct (remove_from_scouters_inv _ _ _ R1) as (_ & K1 & P1).
    destruct (add_scouter_ok m1 (population m) l) as (m2 & A); auto.
    destruct (add_scouter_ids _ _ A Fr1) as (Fr2 & _ & _ & Old2).
    destruct (add_scouter_inv _ _ A) as (_ & K2 & quota' & Q' & Ca).
    assert (quota' = population m) by (rewrite K1 in Q'; congruence). subst quota'.
    destruct Ca as [[_ P2]|[G _]]; [|lia].
    unfold bind at 1. unfold bind at 1. rewrite R1, A.
    apply IH; auto; try congruence; try lia.
    intros d' I. apply Old2, Sup1; auto. intros ->. tauto.
Qed.


(** The pass that brings the population to the quota returns when the
    quota is not negative, on a manager that knows some food. *)
Lemma resize_ok m quota l :
  ids_fresh m ->
  dict_get "max_scouters" (knowledge m) = Some (Count quota) ->
  dict_get "food" (knowledge m) = Some (FoodList l) -> l <> [] ->
  0 <= quota ->
  exists m',
    (if 0 <? quota - population m
     then repeat_m (Z.to_nat (quota - population m)) add_scouter
     else if quota - population m <? 0
          then repeat_m (Z.to_nat (- (quota - population m))) remove_scouter
          else ret tt) m = Ok (tt, m') /\
    knowledge m' = knowledge m /\ board m' = board m /\ population m' = quota /\
    ids_fresh m' /\
    (population m <= quota -> forall i, In i (ids m) -> In i (ids m')).
Proof.
  intros Fr Q F N P.
  destruct (Z.ltb_spec 0 (quota - population m)) as [G|G].
  - destruct (repeat_add_scouter_ok (Z.to_nat (quota - population m)) m quota l)
      as (m' & E); auto.
    exists m'. split; [exact E|].
    destruct (repeat_add_scouter _ _ _ quota E Q) as (B & K & Pm); [lia|].
    destruct (repeat_add_scouter_ids _ _ _ E Fr) as (Fr' & Old).
    conj_split; auto. lia.
  - destruct (Z.ltb_spec (quota - population m) 0) as [L|L].
    + destruct (repeat_remove_scouter_ok (Z.to_nat (- (quota - population m))) m)
        as (m' & E); [lia|].
      exists m'. split; [exact E|].
      destruct (repeat_remove_scouter _ _ _ E) as (B & K & Pm).
      assert (S : ids_step m m').
      { exact (keeps_repeat _ ids_step_refl ids_step_trans _ _ ids_step_remove_scouter
                 _ _ _ E). }
      destruct (S Fr) as (Fr' & _). conj_split; auto; lia.
    + exists m. unfold ret. conj_split; auto. lia.
Qed.

(** X19: a tick returns on a manager with distinct scouters whose
    knowledge has a stored quota, the two numbers of the decay, an
    integer minimum and some known food, when the quota can be computed
    once the scouters have moved (its arithmetic does not overflow), and
    the population is not above the configured minimum, or the minimum
    is not negative and no scouter is trapped. *)
Theorem move_completes m minimum l :
  configured m -> ids_fresh m ->
  scouters_min m = Ok (minimum, m) ->
  dict_get "food" (knowledge m) = Some (FoodList l) -> l <> [] ->
  (forall deads m1,
     move_scouters (seq 0 (List.length (scouters m))) [] m = Ok (deads, m1) ->
     exists quota, compute_max_scouters m1 = Ok (quota, m1)) ->
  (population m <= minimum \/
   (0 <= minimum /\
    forall deads m1,
      move_scouters (seq 0 (List.length (scouters m))) [] m = Ok (deads, m1) ->
      deads = [])) ->
  exists m', move m = Ok (tt, m').
Proof.
  intros ((old & Q) & (dj & dq & Dj & Dq) & (rj & rq & Rj & Rq)) Fr Min F N Comp Safe.
  destruct (move_scouters_ok (seq 0 (List.length (scouters m))) [] m l) as (deads & m1 & L1);
    auto.
  { intros i I. apply in_seq in I. lia. }
  pose proof (frame_move_scouters _ _ _ _ _ L1) as K1.
  assert (G1 : food_grows m m1).
  { exact (keeps_move_scouters _ food_grows_trans food_grows_knowledge
             food_grows_discovery _ _ _ _ _ L1). }
  assert (Q1 : quota_kept m m1).
  { exact (keeps_move_scouters _ quota_kept_trans quota_kept_knowledge
             quota_kept_discovery _ _ _ _ _ L1). }
  destruct (G1 l F) as (extra & F1).
  assert (N1 : l ++ extra <> []) by (destruct l; [congruence | discriminate]).
  unfold quota_kept in Q1. rewrite Q in Q1.
  destruct (move_scouters_inv _ _ _ _ _ L1) as (I1 & Nx1 & Dd).
  destruct Dd as (NDd & Sub).
  { simpl. unfold ids at 1. rewrite <- (length_map sid), map_nth_seq. apply Fr. }
  { intros d []. }
  assert (Fr1 : ids_fresh m1) by (unfold ids_fresh; rewrite I1, Nx1; exact Fr).
  assert (P1 : population m1 = population m).
  { unfold population. rewrite <- (length_map sid (scouters m1)).
    fold (ids m1). rewrite I1. unfold ids. now rewrite length_map. }
  destruct (Comp _ _ L1) as (quota & C1).
  destruct (compute_above_minimum _ _ _ C1) as (minimum' & Min' & Lq).
  assert (minimum' = minimum).
  { pose proof (scouters_min_kept _ _ _ K1 Min). congruence. }
  subst minimum'.
  set (m5 := set_knowledge (dict_set "max_scouters" (Count quota) (knowledge m1)) m1).
  assert (Q5 : dict_get "max_scouters" (knowledge m5) = Some (Count quota))
    by apply dict_get_set_same.
  assert (F5 : dict_get "food" (knowledge m5) = Some (FoodList (l ++ extra))).
  { unfold m5. simpl. now rewrite dict_get_set_other by discriminate. }
  assert (P0 : 0 <= quota).
  { destruct Safe as [S|[S _]]; [|lia]. unfold population in S. lia. }
  destruct (resize_ok m5 quota (l ++ extra)) as (m8 & E8 & K8 & B8 & P8 & Fr8 & Old8); auto.
  assert (Sub8 : forall d, In d deads -> In d (ids m8)).
  { destruct Safe as [S|[_ S]].
    - intros d I. apply Old8; [change (population m5) with (population m1); lia|].
      change (ids m5) with (ids m1). rewrite I1. now apply Sub.
    - rewrite (S _ _ L1). intros d []. }
  destruct (replace_deads_ok deads m8 quota (l ++ extra)) as (m9 & E9); auto;
    try congruence.
  destruct (replace_deads _ _ _ quota E9) as (B9 & K9 & P9); [congruence | exact P8 |].
  assert (K : config_kept m m9).
  { intros k Nf Nm. rewrite K9, K8. unfold m5. simpl.
    rewrite dict_get_set_other by auto. now apply K1. }
  assert (Dj9 : item "Global Decrease" m9 = Ok (dj, m9))
    by (apply (item_kept m); auto; discriminate).
  assert (Rj9 : item "Remaining Blob on Food" m9 = Ok (rj, m9))
    by (apply (item_kept m); auto; discriminate).
  eexists. unfold move.
  rewrite (bind_ok _ _ m (List.length (scouters m)) m) by reflexivity.
  rewrite (bind_ok _ _ _ _ _ L1).
  rewrite (bind_ok _ _ _ _ _ C1).
  rewrite (bind_ok _ _ _ _ _ (get_max_ok _ _ Q1)).
  rewrite (bind_ok _ _ m1 tt m5) by reflexivity.
  rewrite (bind_ok _ _ m5 (population m5) m5) by reflexivity.
  rewrite (bind_ok _ _ _ _ _ (get_max_ok _ _ Q5)).
  cbv zeta.
  rewrite (bind_ok _ _ _ _ _ E8).
  rewrite (bind_ok _ _ _ _ _ E9).
  rewrite (bind_ok _ _ _ _ _ Dj9).
  rewrite (bind_ok _ _ _ _ _ Rj9).
  unfold bind, lift, modify. rewrite Dq, Rq. reflexivity.
Qed.

(** *** The share of the first square in [find_blob_square] *)

Lemma availables_distinct (b : Board) : NoDup (map fst (availables_of b)).
Proof.
  apply Finite.Injective_map_NoDup_in.
  - intros [sq w] [sq' w'] I I' E. simpl in E. subst sq'.
    apply availables_in in I, I'. simpl in I, I'.
    destruct I as (_ & _ & _ & ->). destruct I' as (_ & _ & _ & ->). reflexivity.
  - unfold availables_of. apply NoDup_flat_map.
    + apply NoDup_range.
    + intros x. apply NoDup_flat_map.
      * apply NoDup_range.
      * intros y. destruct (is_touched b x y); repeat constructor. simpl. tauto.
      * intros y y' p I1 I2.
        destruct (is_touched b x y); simpl in I1; [|tauto].
        destruct (is_touched b x y'); simpl in I2; [|tauto].
        destruct I1 as [<-|[]]. destruct I2 as [I2|[]]. congruence.
    + intros x x' p I1 I2. apply in_flat_map in I1, I2.
      destruct I1 as (y & _ & I1). destruct I2 as (y' & _ & I2).
      destruct (is_touched b x y); simpl in I1; [|tauto].
      destruct (is_touched b x' y'); simpl in I2; [|tauto].
      destruct I1 as [<-|[]]. destruct I2 as [I2|[]]. congruence.
Qed.

Lemma le_floor (i : Z) (q : Q) : (inject_Z i <= q)%Q <-> i <= Qfloor q.
Proof.
  split.
  - intros L. apply Qfloor_resp_le in L. now rewrite Qfloor_Z in L.
  - intros L. apply Qle_trans with (inject_Z (Qfloor q)); [|apply Qfloor_le].
    now rewrite <- Zle_Qle.
Qed.

Lemma total_weight_above (l : list weighted) (acc : Q) :
  l <> [] -> (forall a, In a l -> 1 <= snd a)%Q ->
  (acc + 1 <= fold_left (fun t a => t + snd a) l acc)%Q.
Proof.
  destruct l as [|a l]; [congruence|]. intros _ W. simpl.
  apply Qle_trans with (acc + snd a)%Q.
  - assert (1 <= snd a)%Q by (apply W; now left). lra.
  - apply total_weight_from. intros a' I.
    assert (1 <= snd a')%Q by (apply W; now right). lra.
Qed.

(** X20: on a board without negative blob and with two touched squares
    or more, [find_blob_square] returns the first touched square, of
    weight [w], exactly for the draws from 0 to the floor of [w]: one
    draw more than its weight when the weight is a whole number. *)
Theorem find_blob_square_first_square_share m sq w rest :
  (forall x y, is_touched (board m) x y = true -> 0 <= get_blob (board m) x y)%Q ->
  availables_of (board m) = (sq, w) :: rest -> rest <> [] ->
  let total := py_int (total_weight (availables_of (board m))) in
  Qfloor w + 1 <= total /\
  exists r,
    find_blob_square m = Ok (Some r, set_rng_pos (S (rng_pos m)) m) /\
    (r = sq <-> rng m (rng_pos m) mod total <= Qfloor w).
Proof.
  intros Pos A N total.
  assert (W : forall a, In a (availables_of (board m)) -> (1 <= snd a)%Q).
  { intros [p v] I. apply availables_in in I. destruct I as (_ & _ & T & ->).
    simpl. apply Pos in T. lra. }
  assert (W1 : (1 <= w)%Q) by (apply (W (sq, w)); rewrite A; now left).
  assert (Wr : forall a, In a rest -> (1 <= snd a)%Q).
  { intros a I. apply W. rewrite A. now right. }
  assert (T : (w + 1 <= total_weight (availables_of (board m)))%Q).
  { rewrite A. unfold total_weight. simpl.
    pose proof (total_weight_above rest (0 + w) N Wr) as G. lra. }
  assert (B : Qfloor w + 1 <= total).
  { unfold total. rewrite py_int_floor by lra. apply le_floor.
    apply Qle_trans with (w + 1)%Q; [|exact T].
    rewrite inject_Z_plus. change (inject_Z 1) with 1%Q.
    pose proof (Qfloor_le w). lra. }
  assert (F0 : 0 <= Qfloor w).
  { apply le_floor. change (inject_Z 0) with 0%Q. lra. }
  split; [exact B|].
  pose proof (availables_distinct (board m)) as ND. rewrite A in ND. simpl in ND.
  inversion ND as [|? ? NI _]; subst.
  rewrite find_blob_square_unfold. fold total. rewrite A.
  destruct (Z.leb_spec total 0) as [L|L]; [lia|].
  set (i := rng m (rng_pos m) mod total).
  simpl pick.
  destruct (Qle_bool (inject_Z i) (0 + w)) eqn:Le.
  - exists sq. split; [reflexivity|]. split; [|reflexivity]. intros _.
    apply Qle_bool_iff in Le. apply le_floor. lra.
  - destruct (pick_selects rest (0 + w) i N) as (r & P & I).
    { pose proof (Z.mod_pos_bound (rng m (rng_pos m)) _ L) as Bi. fold i in Bi.
      apply Qle_trans with (inject_Z total).
      - rewrite <- Zle_Qle. lia.
      - unfold total. rewrite A. unfold total_weight. simpl.
        apply py_int_le. rewrite A in T. unfold total_weight in T. simpl in T. lra. }
    exists r. rewrite P. split; [reflexivity|]. split.
    + intros ->. tauto.
    + intros Li. apply le_floor in Li.
      assert (C : Qle_bool (inject_Z i) (0 + w) = true) by (apply Qle_bool_iff; lra).
      congruence.
Qed.

(** *** The board after a tick *)

Lemma item_kept_back m m' k j :
  config_kept m m' -> k <> "food" -> k <> "max_scouters" ->
  item k m' = Ok (j, m') -> item k m = Ok (j, m).
Proof.
  intros K N1 N2. unfold item, bind, gets, ret, raise. rewrite (K k N1 N2).
  destruct (dict_get k (knowledge m)) as [[]|]; congruence.
Qed.

Lemma resize_board (diff : Z) m m' :
  (if 0 <? diff then repeat_m (Z.to_nat diff) add_scouter
   else if diff <? 0 then repeat_m (Z.to_nat (- diff)) remove_scouter
   else ret tt) m = Ok (tt, m') ->
  board m' = board m /\ knowledge m' = knowledge m.
Proof.
  destruct (0 <? diff).
  - revert m. induction (Z.to_nat diff) as [|k IH]; simpl; intros m E.
    + injection E as <-. auto.
    + bind_open E as u m1 E1. destruct u. apply add_scouter_inv in E1.
      destruct (IH _ E) as (B & K). destruct E1 as (B1 & K1 & _). split; congruence.
  - destruct (diff <? 0).
    + intros E. apply repeat_remove_scouter in E. tauto.
    + intros E. injection E as <-. auto.
Qed.

Lemma replace_deads_board deads m m' :
  for_each deads (fun dead => bind (remove_from_scouters dead) (fun _ => add_scouter)) m
  = Ok (tt, m') ->
  board m' = board m /\ knowledge m' = knowledge m.
Proof.
  revert m. induction deads as [|d deads IH]; simpl; intros m E.
  - injection E as <-. auto.
  - bind_open E as u m2 E2. destruct u. bind_open E2 as u m1 E1. destruct u.
    apply remove_from_scouters_inv in E1. apply add_scouter_inv in E2.
    destruct (IH _ E) as (B & K). destruct E1 as (B1 & K1 & _).
    destruct E2 as (B2 & K2 & _). split; congruence.
Qed.

(** X21: a tick applies the decay once, last, with the two numbers of
    the knowledge: the board after the tick is the board the moves and
    updates of the ants left, decayed; bringing the population to the
    quota and replacing the dead scouters does not touch the board. *)
Theorem move_decays_board_once m m' deads m1 :
  move m = Ok (tt, m') ->
  move_scouters (seq 0 (List.length (scouters m))) [] m = Ok (deads, m1) ->
  exists decrease remaining dq rq,
    item "Global Decrease" m = Ok (decrease, m) /\ as_number decrease = Ok dq /\
    item "Remaining Blob on Food" m = Ok (remaining, m) /\ as_number remaining = Ok rq /\
    board m' = manage_blob (board m1) dq rq.
Proof.
  intros E L1. pose proof (config_kept_move _ _ _ E) as K. unfold move in E.
  bind_open E as n m0 E0. injection E0 as <- <-.
  bind_open E as deads0 m2 E2. rewrite L1 in E2. injection E2 as <- <-.
  bind_open E as new_max m3 E3. apply compute_max_scouters_inv in E3. destruct E3 as [-> _].
  bind_open E as old m4 E4. apply get_max_state in E4. subst m4.
  bind_open E as u5 m5 E5. injection E5 as _ <-.
  bind_open E as qt m6 E6. injection E6 as _ <-.
  bind_open E as mx m7 E7. apply get_max_state in E7. subst m7.
  bind_open E as u8 m8 E8. destruct u8. apply resize_board in E8. destruct E8 as (B8 & K8).
  bind_open E as u9 m9 E9. destruct u9. apply replace_deads_board in E9.
  destruct E9 as (B9 & K9).
  bind_open E as decrease m10 E10. pose proof (item_state _ _ _ _ E10). subst m10.
  bind_open E as remaining m11 E11. pose proof (item_state _ _ _ _ E11). subst m11.
  bind_open E as dq m12 E12. unfold lift in E12.
  destruct (as_number decrease) as [dq'|] eqn:Dq; [|discriminate]. injection E12 as <- <-.
  bind_open E as rq m13 E13. unfold lift in E13.
  destruct (as_number remaining) as [rq'|] eqn:Rq; [|discriminate]. injection E13 as <- <-.
  injection E as <-.
  assert (K' : config_kept m m9).
  { intros k N1 N2. rewrite <- (K k N1 N2). reflexivity. }
  exists decrease, remaining, dq', rq'. conj_split; auto.
  - apply (item_kept_back m m9); auto; discriminate.
  - apply (item_kept_back m m9); auto; discriminate.
  - simpl. rewrite B9, B8. reflexivity.
Qed.

(** *** When the constructor returns *)

Lemma find_blob_square_ok m :
  (forall x y, is_touched (board m) x y = true -> 0 <= get_blob (board m) x y)%Q ->
  exists p m', find_blob_square m = Ok (Some p, m').
Proof.
  intros Pos. rewrite find_blob_square_unfold.
  destruct (availables_of (board m)) as [|a rest] eqn:A; [eauto|].
  assert (N : a :: rest <> []) by discriminate.
  assert (W : forall c, In c (a :: rest) -> (1 <= snd c)%Q).
  { rewrite <- A. intros [p v] I. apply availables_in in I.
    destruct I as (_ & _ & T & ->). simpl. apply Pos in T. lra. }
  pose proof (py_int_pos _ (total_weight_pos _ N W)) as P.
  destruct (Z.leb_spec (py_int (total_weight (a :: rest))) 0) as [L|L]; [lia|].
  destruct (pick_total (a :: rest) (rng m (rng_pos m)) N L) as (sq & Pk & _).
  rewrite Pk. eauto.
Qed.

Lemma add_scouter_can m quota l :
  dict_get "max_scouters" (knowledge m) = Some (Count quota) ->
  dict_get "food" (knowledge m) = Some (FoodList l) ->
  can_spawn (board m) l ->
  exists m', add_scouter m = Ok (tt, m').
Proof.
  intros Q F [N|Pos]; [eapply add_scouter_ok; eauto|].
  destruct l as [|q l]; [|eapply add_scouter_ok; eauto; discriminate].
  unfold add_scouter.
  rewrite (bind_ok _ _ m (population m) m) by reflexivity.
  rewrite (bind_ok _ _ _ _ _ (get_max_ok _ _ Q)).
  destruct (population m <? quota); [|unfold ret; eauto].
  destruct (find_blob_square_ok m Pos) as (p & m1 & Fb).
  assert (S : spawn_square m = Ok (p, m1)).
  { unfold spawn_square. rewrite (bind_ok _ _ _ _ _ (get_food_ok _ _ F)).
    cbn [List.length Nat.eqb negb]. now rewrite (bind_ok _ _ _ _ _ Fb). }
  rewrite (bind_ok _ _ _ _ _ S). unfold append_scouter, modify. eauto.
Qed.

Lemma spawn_loop_ok fuel m quota l :
  dict_get "max_scouters" (knowledge m) = Some (Count quota) ->
  dict_get "food" (knowledge m) = Some (FoodList l) ->
  can_spawn (board m) l ->
  exists m', spawn_loop fuel m = Ok (tt, m').
Proof.
  revert m. induction fuel as [|fuel IH]; simpl; intros m Q F C; [unfold ret; eauto|].
  rewrite (bind_ok _ _ m (population m) m) by reflexivity.
  rewrite (bind_ok _ _ _ _ _ (get_max_ok _ _ Q)).
  destruct (population m <? quota); [|unfold ret; eauto].
  destruct (add_scouter_can m quota l Q F C) as (m1 & A).
  rewrite (bind_ok _ _ _ _ _ A). apply add_scouter_inv in A.
  destruct A as (B & K & _). apply IH; rewrite ?B, ?K; auto.
Qed.

Lemma factor_of_field doc m name j q :
  holds doc m ->
  field (loaded doc) ["Computing"; name] = Ok j -> as_number j = Ok q ->
  factor name m = Ok (q, m).
Proof.
  intros H Fd N. unfold field in Fd. simpl in Fd.
  destruct (dict_get "Computing" (loaded doc)) as [c|] eqn:D; [|discriminate].
  simpl in Fd.
  assert (I : item "Computing" m = Ok (c, m)).
  { unfold item, bind, gets, ret. rewrite H by discriminate. now rewrite D. }
  unfold factor. rewrite (bind_ok _ _ _ _ _ I).
  unfold bind, lift. now rewrite Fd, N.
Qed.

(** X22: the constructor returns a manager when the quota is defined
    for the document on the board with the food the board shows (the
    document has numbers for the four factors and an integer for the
    minimum, and the arithmetic of the formula does not overflow), and
    the scouters can be placed: the board shows some touched food, or
    no touched square of the board has a negative blob. *)
Theorem new_manager_completes (b : Board) doc rnd :
  quota_defined doc b (board_food b) -> can_spawn b (board_food b) ->
  exists m, new_manager b (Document doc) rnd = Ok m.
Proof.
  intros (q1 & q2 & q3 & q4 & jm & z & t & n &
          (j1 & F1 & N1) & (j2 & F2 & N2) & (j3 & F3 & N3) & (j4 & F4 & N4) &
          Fm & Nm & T & N) Can.
  unfold new_manager. rewrite init_unfold.
  set (mi := set_knowledge _ (blank b rnd)).
  pose proof (init_holds b doc rnd) as H. fold mi in H.
  assert (C : exists quota, compute_max_scouters mi = Ok (quota, mi)).
  { eexists. eapply compute_max_scouters_value;
      eauto using factor_of_field, scouters_min_of_field.
    unfold mi. simpl. apply dict_get_set_same. }
  destruct C as (quota & C). rewrite (bind_ok _ _ _ _ _ C).
  set (mj := set_knowledge (dict_set "max_scouters" (Count quota) (knowledge mi)) mi).
  rewrite (bind_ok _ _ mi tt mj) by reflexivity.
  destruct (spawn_loop_ok (Z.to_nat quota) mj quota (board_food b)) as (m & S).
  - apply dict_get_set_same.
  - unfold mj, mi. simpl. rewrite dict_get_set_other by discriminate.
    apply dict_get_set_same.
  - exact Can.
  - rewrite S. eauto.
Qed.

End ManagerFacts.

(** ** The concrete scenarios *)

(** C1: a tick raises when the shrink pass has culled a scouter that is
    also queued as dead.  Two trapped walkers at different squares; after
    the first tick the blob has decayed and the quota falls from 2 to 1;
    in the second tick both walkers are dead again, the cull removes the
    first, and removing it once more as a dead scouter raises. *)
Theorem move_raises_on_culled_dead_scouter :
  exists m0 m1,
    new_manager trap_grid (Document trap_document) alternating = Ok m0 /\
    positions m0 = [(0, 0); (0, 1)] /\
    get_max m0 = Ok (2, m0) /\
    move m0 = Ok (tt, m1) /\
    positions m1 = [(0, 0); (0, 1)] /\
    compute_max_scouters m1 = Ok (1, m1) /\
    move m1 = Raise ValueError.
Proof.
  eexists. eexists.
  split; [vm_compute; reflexivity|].
  split; [vm_compute; reflexivity|].
  split; [vm_compute; reflexivity|].
  split; [vm_compute; reflexivity|].
  repeat split; vm_compute; reflexivity.
Qed.

(** C2, the claim as stated fails: two calls with the same position leave
    two occurrences of it, and the second call changes the list. *)
Lemma food_discovered_twice_keeps_both :
  exists m1 m2,
    food_discovered 1 1 (sample_manager []) = Ok (tt, m1) /\
    get_food m1 = Ok ([(1, 1)], m1) /\
    food_discovered 1 1 m1 = Ok (tt, m2) /\
    get_food m2 = Ok ([(1, 1); (1, 1)], m2) /\
    knowledge m2 <> knowledge m1.
Proof.
  eexists. eexists.
  split; [vm_compute; reflexivity|].
  split; [vm_compute; reflexivity|].
  split; [vm_compute; reflexivity|].
  split; [vm_compute; reflexivity|].
  vm_compute. discriminate.
Qed.

Lemma food_discovered_appends_witness :
  exists m',
    food_discovered 2 2 (sample_manager [(1, 1)]) = Ok (tt, m') /\
    dict_get "food" (knowledge m') = Some (FoodList [(1, 1); (2, 2)]).
Proof.
  destruct (food_discovered_appends (sample_manager [(1, 1)]) 2 2 [(1, 1)] eq_refl)
    as (m' & E & F & _).
  exists m'. split; [exact E | exact F].
Defined.

(** C3, the claim as stated fails: a document without [Global Decrease]
    and [Remaining Blob on Food] builds a manager. *)
Lemma construction_accepts_missing_decay_fields :
  field (loaded quota_only_document) ["Global Decrease"] = Raise (KeyError "Global Decrease") /\
  field (loaded quota_only_document) ["Remaining Blob on Food"]
  = Raise (KeyError "Remaining Blob on Food") /\
  exists m,
    new_manager bare_grid (Document quota_only_document) zeros = Ok m /\
    positions m = [(0, 0); (0, 0)] /\
    move m = Raise (KeyError "Global Decrease").
Proof.
  split; [reflexivity|]. split; [reflexivity|].
  eexists. split; [vm_compute; reflexivity|].
  split; vm_compute; reflexivity.
Qed.

(** C4, the claim as stated fails, with the minimum 2 on a board of 400
    by 250 squares without blob.  With the factor 0.3333333333333333 for
    three known foods and the global factor 10, the method returns 10:
    the product of the factor and 3 is rounded to 1.  The formula of the
    specification gives 9, whether the factor is the decimal number of
    the file or the float loaded from it.  With the factor 1e308 for two
    known foods the product is an infinity and the method raises
    [OverflowError], where the formula of the specification has a
    value. *)
Lemma compute_max_scouters_rounds :
  let food := [(0, 0); (0, 1); (0, 2)] in
  compute_max_scouters (wide_manager 0.3333333333333333 10 food)
  = Ok (10, wide_manager 0.3333333333333333 10 food) /\
  spec_target 2 (spec_formula 0 0 0 0 (3333333333333333 # 10000000000000000) 3 10 250 400)
  = 9 /\
  (exists known_foods,
     float_value 0.3333333333333333 = Some known_foods /\
     spec_target 2 (spec_formula 0 0 0 0 known_foods 3 10 250 400) = 9) /\
  compute_max_scouters (wide_manager 1e308 1 [(0, 0); (0, 1)]) = Raise OverflowError /\
  (exists known_foods,
     float_value 1e308 = Some (inject_Z known_foods) /\
     spec_target 2 (spec_formula 0 0 0 0 (inject_Z known_foods) 2 1 250 400)
     = 2 * known_foods).
Proof.
  split; [vm_compute; reflexivity|].
  split; [vm_compute; reflexivity|].
  split; [eexists; split; [vm_compute; reflexivity | vm_compute; reflexivity]|].
  split; [vm_compute; reflexivity|].
  eexists. split; [vm_compute; reflexivity | vm_compute; reflexivity].
Qed.

(** The scenario of the specification: minimum 2, all factors 0 but the
    global one, a 10 by 10 board without blob or food: the quota is 2. *)
Lemma compute_max_scouters_scenario :
  compute_max_scouters scenario_manager = Ok (2, scenario_manager).
Proof.
  assert (T : total_scouters (board scenario_manager) (Float 0) (Float 0) (Float 0)
                (Float 1) [] = Ok (Float 0)) by (vm_compute; reflexivity).
  destruct (proj2 (compute_max_scouters_spec scenario_manager
                     (Float 0) (Float 0) (Float 0) (Float 1) 2 []
                     eq_refl eq_refl eq_refl eq_refl eq_refl eq_refl)
              (Float 0) T) as (f & E & H).
  injection E as <-.
  assert (V : float_value 0 = Some 0%Q) by (vm_compute; reflexivity).
  rewrite V in H. exact (proj1 H).
Defined.

(** C5: the two touched squares of the column weigh 1 each, so each
    should be selected by one of the two values of the draw; the loop
    selects the first for both, and the second for none. *)
Theorem find_blob_square_favours_first_square :
  availables_of column_grid = [((0, 1), (0 + 1)%Q); ((0, 2), (0 + 1)%Q)] /\
  py_int (total_weight (availables_of column_grid)) = 2 /\
  map (pick (availables_of column_grid) 0%Q) (range 2) = [Some (0, 1); Some (0, 1)] /\
  forall rnd pos,
    find_blob_square (column_manager rnd pos)
    = Ok (Some (0, 1), column_manager rnd (S pos)).
Proof.
  split; [reflexivity|]. split; [reflexivity|]. split; [reflexivity|].
  intros rnd pos. unfold find_blob_square, bind, gets, ret, randrange.
  change (availables_of (board (column_manager rnd pos)))
    with [((0, 1), (0 + 1)%Q); ((0, 2), (0 + 1)%Q)].
  change (py_int (total_weight [((0, 1), (0 + 1)%Q); ((0, 2), (0 + 1)%Q)])) with 2.
  simpl.
  assert (D : 0 <= rnd pos mod 2 < 2) by (apply Z.mod_pos_bound; lia).
  assert (E : rnd pos mod 2 = 0 \/ rnd pos mod 2 = 1) by lia.
  destruct E as [-> | ->]; reflexivity.
Qed.

Lemma find_blob_square_total_witness :
  exists sq m',
    find_blob_square (column_manager alternating 1) = Ok (Some sq, m') /\
    is_touched column_grid (fst sq) (snd sq) = true.
Proof.
  destruct (find_blob_square_total (column_manager alternating 1)) as (sq & m' & E & _ & _ & _ & T & _).
  - intros x y. simpl. destruct (y =? 0); simpl; intros H; [discriminate | lra].
  - exists sq, m'. split; [exact E|].
    apply T. exists 0, 1. simpl. repeat split; lia.
Defined.

Lemma reset_spec_witness :
  exists m',
    reset 1 1 (sample_manager [(1, 1); (0, 2)]) = Ok (tt, m') /\
    positions m' = [(2, 0)] /\
    dict_get "food" (knowledge m') = Some (FoodList [(0, 2)]) /\
    dict_get "max_scouters" (knowledge m') = Some (Count 1).
Proof.
  destruct (reset_spec (sample_manager [(1, 1); (0, 2)]) 1 1 [(1, 1); (0, 2)] 2 eq_refl eq_refl)
    as (m' & E & S & _ & F & _).
  - repeat constructor; simpl; intuition congruence.
  - repeat constructor; simpl; intuition congruence.
  - exists m'. split; [exact E|]. split.
    + unfold positions. rewrite S. reflexivity.
    + destruct F as (F1 & F2 & _); [simpl; auto|]. split; [exact F1 | exact F2].
Defined.

Lemma food_destroyed_spec_witness :
  fails (food_destroyed 5 5 (sample_manager [(1, 1); (0, 2)])) /\
  exists m',
    food_destroyed 0 2 (sample_manager [(1, 1); (0, 2)]) = Ok (tt, m') /\
    dict_get "food" (knowledge m') = Some (FoodList [(1, 1)]).
Proof.
  destruct (food_destroyed_spec (sample_manager [(1, 1); (0, 2)]) 5 5 [(1, 1); (0, 2)] eq_refl)
    as (A & _).
  destruct (food_destroyed_spec (sample_manager [(1, 1); (0, 2)]) 0 2 [(1, 1); (0, 2)] eq_refl)
    as (_ & _ & B).
  split.
  - apply A. simpl. intuition congruence.
  - destruct B as (l1 & l2 & m' & E & N & D & F & _); [simpl; auto|].
    exists m'. split; [exact D|]. rewrite F. f_equal. f_equal.
    destruct l1 as [|p [|q l1]]; simpl in E.
    + exfalso. congruence.
    + injection E as <- <-. reflexivity.
    + exfalso. injection E as _ _ E. destruct l1; discriminate.
Defined.

Lemma save_leaves_manager_witness :
  exists text,
    save plain_repr (sample_manager [(1, 1)]) = Ok (text, sample_manager [(1, 1)]).
Proof.
  destruct (save_leaves_manager plain_repr (sample_manager [(1, 1)]) _ _ eq_refl eq_refl)
    as (text & m' & E & -> & _).
  exists text. exact E.
Defined.

Lemma construction_checks_quota_fields_only_witness :
  fails (new_manager (Ant := Walker) bare_grid Unreadable zeros) /\
  fails (new_manager (Ant := Walker) bare_grid (Document minimum_only_document) zeros) /\
  forall m,
    new_manager (Ant := Walker) bare_grid (Document quota_only_document) zeros = Ok m ->
    fails (move m).
Proof.
  split; [|split].
  - apply (proj1 (construction_checks_quota_fields_only (Ant := Walker)
                    bare_grid Unreadable zeros)).
    exact I.
  - apply (proj1 (construction_checks_quota_fields_only (Ant := Walker)
                    bare_grid (Document minimum_only_document) zeros)).
    exists ["Computing"; "Blob Size Factor"]. split; [simpl; auto | exact I].
  - apply (proj2 (construction_checks_quota_fields_only (Ant := Walker)
                    bare_grid (Document quota_only_document) zeros)).
    exists ["Global Decrease"]. split; [simpl; auto | exact I].
Defined.

Ltac distinct_items :=
  repeat constructor; simpl; intuition congruence.

Ltac same_items :=
  cbv; apply NoDup_Permutation; [distinct_items | distinct_items | intros ?; simpl; tauto].

Lemma save_round_trips_witness :
  exists text doc m',
    save plain_repr (sample_manager [(1, 1)]) = Ok (text, sample_manager [(1, 1)]) /\
    save plain_repr (reordered_manager [(1, 1)]) = Ok (text, reordered_manager [(1, 1)]) /\
    json_loads plain_float text = Ok (JObj doc) /\
    doc = reloaded_document /\
    new_manager (Ant := Walker) blank_grid (Document doc) zeros = Ok m' /\
    save plain_repr m' = Ok (text, m').
Proof.
  destruct (save_round_trips plain_repr plain_float blank_grid (sample_manager [(1, 1)])
              (reordered_manager [(1, 1)]) zeros 2 2 (FoodList [(1, 1)]))
    as (text & d & doc & S1 & _ & _ & _ & _ & S2 & L & m' & N & S3).
  - reflexivity.
  - reflexivity.
  - apply equiv_obj with
      (l2' := [("Global Decrease", JFloat 0); ("Remaining Blob on Food", JFloat 0);
               ("Computing",
                JObj [("Global Factor", JFloat 1); ("Known Foods Factor", JFloat 0);
                      ("Covering Factor", JFloat 0); ("Blob Size Factor", JFloat 0)]);
               ("Scouters", JObj [("Min", JInt 2)]);
               ("food", JArr [JArr [JInt 1; JInt 1]]); ("max_scouters", JInt 2)]).
    + same_items.
    + cbv. repeat constructor.
      apply equiv_obj with
        (l2' := [("Blob Size Factor", JFloat 0); ("Covering Factor", JFloat 0);
                 ("Known Foods Factor", JFloat 0); ("Global Factor", JFloat 1)]).
      * same_items.
      * repeat constructor.
  - reflexivity.
  - intros x I _. simpl in I.
    repeat (destruct I as [<-|I]; [split; vm_compute; reflexivity|]). destruct I.
  - intros x y. reflexivity.
  - reflexivity.
  - exists text, doc, m'. split; [exact S1|]. split; [exact S2|].
    split; [exact L|]. split; [|split; [exact N | exact S3]].
    vm_compute in S1. injection S1 as <-.
    vm_compute in L. injection L as <-. reflexivity.
Defined.

(** A tick of the sample manager ends with two scouters, its quota. *)
Lemma move_reaches_quota_witness :
  exists m',
    move (sample_manager []) = Ok (tt, m') /\
    get_max m' = Ok (2, m') /\ population m' = 2.
Proof.
  destruct (move (sample_manager [])) as [[[] m']|e] eqn:E.
  - exists m'. split; [reflexivity|].
    destruct (move_reaches_quota (BO := Grid_board) (AO := Walker_ant) _ _ E)
      as (quota & minimum & G & S & P & L).
    vm_compute in E. injection E as <-.
    vm_compute in G. injection G as <-.
    split; [vm_compute; reflexivity | exact P].
  - vm_compute in E. discriminate.
Defined.

(** The manager built on the board with one touched food square knows
    this square as its food and starts with its quota of two scouters,
    above the minimum 1. *)
Lemma new_manager_ready_witness :
  exists m,
    new_manager pantry_grid (Document trap_document) zeros = Ok m /\
    board m = pantry_grid /\
    dict_get "food" (knowledge m) = Some (FoodList (board_food pantry_grid)) /\
    board_food pantry_grid = [(1, 1)] /\
    (In (1, 1) (board_food pantry_grid) <->
     0 <= 1 < width pantry_grid /\ 0 <= 1 < height pantry_grid /\
     has_food pantry_grid 1 1 = true /\ is_touched pantry_grid 1 1 = true) /\
    population m = 2.
Proof.
  destruct (new_manager pantry_grid (Document trap_document) zeros) as [m|e] eqn:E.
  - exists m. split; [reflexivity|].
    destruct (new_manager_ready (BO := Grid_board) (AO := Walker_ant)
                pantry_grid trap_document zeros m 1 eq_refl E)
      as (B & H & F & N & I & quota & Q & C & L & P).
    split; [exact B|]. split; [exact F|]. split; [reflexivity|].
    split; [apply I|].
    vm_compute in E. injection E as <-.
    vm_compute in Q. injection Q as <-. exact P.
  - vm_compute in E. discriminate.
Defined.

(** A tick of the sample manager that knows one food position leaves
    the known food without duplicate. *)
Lemma move_keeps_food_distinct_witness :
  exists m',
    move (sample_manager [(0, 0)]) = Ok (tt, m') /\ food_distinct m'.
Proof.
  destruct (move (sample_manager [(0, 0)])) as [[[] m']|e] eqn:E.
  - exists m'. split; [reflexivity|].
    apply (move_keeps_food_distinct (BO := Grid_board) (AO := Walker_ant)
             (sample_manager [(0, 0)])); [|exact E].
    intros l. vm_compute. intros [= <-]. repeat constructor. simpl. tauto.
  - vm_compute in E. discriminate.
Defined.

(** ** The further properties on the scenarios *)

Ltac distinct_ids := simpl; repeat constructor; simpl; lia.

(** A discovery at (1, 1) undone, on the sample manager that knows
    (0, 0): the state is the state before. *)
Lemma food_discovered_then_destroyed_witness :
  exists m1 m2,
    food_discovered 1 1 (sample_manager [(0, 0)]) = Ok (tt, m1) /\
    food_destroyed 1 1 m1 = Ok (tt, m2) /\
    m2 = sample_manager [(0, 0)].
Proof.
  destruct (food_discovered_then_destroyed (sample_manager [(0, 0)]) 1 1 [(0, 0)] eq_refl)
    as (m1 & m2 & D & R & Same & _).
  exists m1, m2. split; [exact D|]. split; [exact R|].
  apply Same. simpl. intros [C|[]]. discriminate.
Defined.

(** The first scouter of the scenario manager is put at the origin of
    its blank board. *)
Lemma add_scouter_spec_witness :
  exists m',
    add_scouter scenario_manager = Ok (tt, m') /\
    positions m' = [(0, 0)].
Proof.
  destruct (add_scouter scenario_manager) as [[[] m']|e] eqn:E.
  - exists m'. split; [reflexivity|].
    destruct (add_scouter_spec (BO := Grid_board) (AO := Walker_ant) _ _ E)
      as (quota & Q & _ & Grow).
    vm_compute in Q. injection Q as <-.
    destruct Grow as (food & p & F & Place & Sc & _); [vm_compute; reflexivity|].
    vm_compute in F. injection F as <-.
    destruct Place as [_ [(_ & _ & T)|[-> _]]]; auto.
    + discriminate.
    + unfold positions. rewrite Sc. reflexivity.
  - vm_compute in E. discriminate.
Defined.

(** The two scouters of the manager built on the trap board are
    distinct objects. *)
Lemma new_manager_places_scouters_witness :
  exists m,
    new_manager trap_grid (Document trap_document) alternating = Ok m /\
    NoDup (map sid (scouters m)).
Proof.
  destruct (new_manager trap_grid (Document trap_document) alternating) as [m|e] eqn:E.
  - exists m. split; [reflexivity|].
    apply (new_manager_places_scouters (BO := Grid_board) (AO := Walker_ant) _ _ _ _ E).
  - vm_compute in E. discriminate.
Defined.

(** A reset at (0, 0) of the sample manager that knows (0, 0) twice
    takes both occurrences out and two off the quota. *)
Lemma reset_with_repeated_food_witness :
  exists m',
    reset 0 0 (sample_manager [(0, 0); (1, 1); (0, 0)]) = Ok (tt, m') /\
    dict_get "food" (knowledge m') = Some (FoodList [(1, 1)]) /\
    dict_get "max_scouters" (knowledge m') = Some (Count 0).
Proof.
  destruct (reset_with_repeated_food (sample_manager [(0, 0); (1, 1); (0, 0)]) 0 0
              [(0, 0); (1, 1); (0, 0)] 2 eq_refl eq_refl ltac:(distinct_ids))
    as (m' & R & _ & F & Q & _).
  exists m'. auto.
Defined.

Lemma reset_idempotent_witness :
  exists m',
    reset 1 1 (sample_manager [(1, 1)]) = Ok (tt, m') /\ reset 1 1 m' = Ok (tt, m').
Proof.
  exact (reset_idempotent (sample_manager [(1, 1)]) 1 1 [(1, 1)] 2 eq_refl eq_refl
           ltac:(distinct_ids)).
Defined.

Lemma reset_commutes_witness :
  exists m1 m2 m3,
    reset 1 1 (sample_manager [(1, 1); (2, 0)]) = Ok (tt, m1) /\
    reset 2 0 m1 = Ok (tt, m3) /\
    reset 2 0 (sample_manager [(1, 1); (2, 0)]) = Ok (tt, m2) /\
    reset 1 1 m2 = Ok (tt, m3).
Proof.
  exact (reset_commutes (sample_manager [(1, 1); (2, 0)]) 1 1 2 0 [(1, 1); (2, 0)] 2
           eq_refl eq_refl ltac:(distinct_ids)).
Defined.

(** A tick of the sample manager keeps the food it knows at the head of
    the list. *)
Lemma move_keeps_known_food_witness :
  exists m' extra,
    move (sample_manager [(0, 0)]) = Ok (tt, m') /\
    dict_get "food" (knowledge m') = Some (FoodList ([(0, 0)] ++ extra)).
Proof.
  destruct (move (sample_manager [(0, 0)])) as [[[] m']|e] eqn:E.
  - destruct (move_keeps_known_food (BO := Grid_board) (AO := Walker_ant)
                (sample_manager [(0, 0)]) m' [(0, 0)] eq_refl E) as (extra & F).
    exists m', extra. auto.
  - vm_compute in E. discriminate.
Defined.

(** [save] returns the same text before and after a tick of the sample
    manager. *)
Lemma save_unchanged_by_calls_witness :
  exists m' text,
    move (sample_manager []) = Ok (tt, m') /\
    save plain_repr (sample_manager []) = Ok (text, sample_manager []) /\
    save plain_repr m' = Ok (text, m').
Proof.
  destruct (move (sample_manager [])) as [[[] m']|e] eqn:E.
  - destruct (save_unchanged_by_calls (BO := Grid_board) (AO := Walker_ant) plain_repr
                (sample_manager []) m' (FoodList []) (Count 2) eq_refl eq_refl
                (or_introl E)) as (text & S & S').
    exists m', text. auto.
  - vm_compute in E. discriminate.
Defined.

(** The manager built on the trap board from the negative document has
    quota -4 and no scouter, and its first tick raises. *)
Lemma move_raises_on_negative_quota_witness :
  exists m,
    new_manager trap_grid (Document negative_document) alternating = Ok m /\
    dict_get "max_scouters" (knowledge m) = Some (Count (-4)) /\
    scouters m = [] /\ move m = Raise ValueError.
Proof.
  destruct (new_manager trap_grid (Document negative_document) alternating)
    as [m|e] eqn:E.
  - assert (Q : dict_get "max_scouters" (knowledge m) = Some (Count (-4))).
    { vm_compute in E. injection E as <-. reflexivity. }
    exists m. split; [reflexivity|]. split; [exact Q|].
    apply (move_raises_on_negative_quota (BO := Grid_board) (AO := Walker_ant)
             trap_grid negative_document alternating m (-4) E Q). lia.
  - vm_compute in E. discriminate.
Defined.

(** The walker trapped at (2, 0) is replaced in a tick of the sample
    manager. *)
Lemma move_replaces_trapped_scouters_witness :
  exists m',
    move (sample_manager []) = Ok (tt, m') /\
    ~ In 1%nat (ids m') /\ NoDup (ids m').
Proof.
  destruct (move (sample_manager [])) as [[[] m']|e] eqn:E.
  - destruct (move_scouters (seq 0 (List.length (scouters (sample_manager [])))) []
                (sample_manager [])) as [[deads m1]|e] eqn:L1.
    + assert (Fr : ids_fresh (sample_manager [])).
      { split; [distinct_ids|]. simpl. repeat constructor; lia. }
      destruct (move_replaces_trapped_scouters (BO := Grid_board) (AO := Walker_ant)
                  _ _ _ _ Fr L1 E) as (Fr' & Gone & _).
      exists m'. split; [reflexivity|]. split; [|apply Fr'].
      apply Gone. vm_compute in L1. injection L1 as <- _. simpl. auto.
    + vm_compute in L1. discriminate.
  - vm_compute in E. discriminate.
Defined.

(** The colony built on the trap board is settled after its first
    tick. *)
Lemma ticks_keep_the_colony_witness :
  exists m0 m,
    new_manager trap_grid (Document trap_document) alternating = Ok m0 /\
    repeat_m 1 move m0 = Ok (tt, m) /\
    settled trap_document trap_grid m.
Proof.
  destruct (new_manager trap_grid (Document trap_document) alternating) as [m0|e] eqn:N.
  - destruct (repeat_m 1 move m0) as [[[] m]|e] eqn:E.
    + exists m0, m. split; [reflexivity|]. split; [exact E|].
      apply (ticks_keep_the_colony (BO := Grid_board) (AO := Walker_ant) plain_repr
               trap_grid trap_document alternating m0 1 m 1 eq_refl N E).
    + vm_compute in N. injection N as <-. vm_compute in E. discriminate.
  - vm_compute in N. discriminate.
Defined.

(** A tick of the sample manager that knows a food returns: its two
    scouters are the configured minimum. *)
Lemma move_completes_witness :
  exists m', move (sample_manager [(0, 0)]) = Ok (tt, m').
Proof.
  apply (move_completes (BO := Grid_board) (AO := Walker_ant)
           (sample_manager [(0, 0)]) 2 [(0, 0)]).
  - split; [exists 2; reflexivity|].
    split; exists (JFloat 0), (Float 0); split; reflexivity.
  - split; [distinct_ids|]. simpl. repeat constructor; lia.
  - reflexivity.
  - reflexivity.
  - discriminate.
  - intros deads m1 L. vm_compute in L. injection L as _ <-.
    exists 2. vm_compute. reflexivity.
  - left. vm_compute. discriminate.
Defined.

(** On the column board the first touched square, of weight 1, is
    returned for the draws 0 and 1. *)
Lemma find_blob_square_first_square_share_witness :
  exists r,
    find_blob_square (column_manager zeros 0)
    = Ok (Some r, set_rng_pos 1 (column_manager zeros 0)) /\
    (r = (0, 1) <-> zeros 0%nat mod 2 <= Qfloor (0 + 1)).
Proof.
  destruct (find_blob_square_first_square_share (BO := Grid_board) (Ant := Walker)
              (column_manager zeros 0) (0, 1) (0 + 1)%Q [((0, 2), (0 + 1)%Q)])
    as (_ & r & F & S).
  - intros x y _. simpl. destruct (y =? 0); discriminate.
  - reflexivity.
  - discriminate.
  - exists r. split; [exact F | exact S].
Defined.

(** The board after a tick of the sample manager is the board its
    walkers left, decayed. *)
Lemma move_decays_board_once_witness :
  exists m' deads m1 dq rq,
    move (sample_manager []) = Ok (tt, m') /\
    move_scouters (seq 0 2) [] (sample_manager []) = Ok (deads, m1) /\
    board m' = manage_blob (board m1) dq rq.
Proof.
  destruct (move (sample_manager [])) as [[[] m']|e] eqn:E.
  - destruct (move_scouters (seq 0 2) [] (sample_manager [])) as [[deads m1]|e] eqn:L1.
    + destruct (move_decays_board_once (BO := Grid_board) (AO := Walker_ant)
                  (sample_manager []) m' deads m1 E L1)
        as (decrease & remaining & dq & rq & _ & _ & _ & _ & B).
      exists m', deads, m1, dq, rq. auto.
    + vm_compute in L1. discriminate.
  - vm_compute in E. discriminate.
Defined.

(** The quota is defined for the trap document on the trap board, where
    the formula has the value 2, and the trap board has no negative
    blob: the constructor returns. *)
Lemma new_manager_completes_witness :
  exists m, new_manager trap_grid (Document trap_document) alternating = Ok m.
Proof.
  apply (new_manager_completes (BO := Grid_board) (AO := Walker_ant)).
  - exists (Float 50000), (Float 0), (Float 0), (Float 1), (JInt 1), 1, (Float 2), 2.
    repeat split; try (eexists; split; reflexivity); reflexivity.
  - right. intros x y _. simpl. destruct (y =? 1); discriminate.
Defined.
